(** * Transit incident reconciliation engine: a shallow embedding

    The development follows the TypeScript sources of the repository:
    - [src/lib/data.ts]: the live incident aggregator ([getIncidents],
      [getStationOutages]), the GTFS-Realtime effect classifier
      ([mapGtfsEffect]), the text based equipment-outage detector
      ([detectEquipmentOutages]), [normalizeStationName], the feed
      downloads and their cache ([fetchGtfsRtFeed], [fetchMtaMarylandFeed],
      [fetchWmataIncidents], [fetchTokyoMetroIncidents]) and the pipelines
      of Sound Transit, Baltimore and the NYC Subway with its station
      index and station disambiguation;
    - [workers/incidents/src/systems/wmata.ts]: the WMATA JSON polling
      adapter ([fetchWMATAIncidents], [processIncidents]);
    - [workers/incidents/src/index.ts]: the worker's request router
      ([fetch]);
    - [scripts/generate-nyc-entrances.ts]: the batch entrance matcher
      ([normalizeName], [lineOverlap], and of [main] the row matching with
      its candidate scoring, the entrance building and the linking to GTFS
      stops) with its CSV reader ([parseCsv], [splitCsvLine]);
    - [src/app/api/systems/[system]/incidents/route.ts]: the incidents
      route ([GET]).

    JavaScript strings are sequences of UTF-16 code units; they are modelled
    as [list N].  Host built-ins whose tables are not part of the repository
    ([String.prototype.toLowerCase], [Math.sin], ...) are operations of a
    type class, so every general theorem holds for whatever the host does. *)

From Stdlib Require Import ZArith NArith List Bool String Ascii Lia PrimFloat.
From stdpp Require Import base option list gmap.
Import ListNotations.

Set Default Proof Using "Type".
Local Open Scope N_scope.

(** ** JavaScript strings *)

Module JsString.

Abbreviation jsstring := (list N) (only parsing).

(** Code units of an ASCII literal. *)
Definition js (s : string) : jsstring :=
  List.map N_of_ascii (list_ascii_of_string s).

(** [String.prototype.replace(/[class]/g, r)] with a one-unit replacement. *)
Definition replaceClass (p : N -> bool) (r : N) (s : jsstring) : jsstring :=
  List.map (fun c => if p c then r else c) s.

(** [\s] of ECMAScript regular expressions, which is also the set removed by
    [String.prototype.trim]: WhiteSpace and LineTerminator code points. *)
Definition isSpace (c : N) : bool :=
  ((9 <=? c) && (c <=? 13)) || (c =? 32) || (c =? 160) || (c =? 5760)
  || ((8192 <=? c) && (c <=? 8202)) || (c =? 8232) || (c =? 8233)
  || (c =? 8239) || (c =? 8287) || (c =? 12288) || (c =? 65279).

Definition SPACE : N := 32.
Definition LPAREN : N := 40.
Definition RPAREN : N := 41.

(** [replace(/\([^)]*\)/g, "")]: scanning left to right, an opening
    parenthesis followed somewhere by a closing one is removed together with
    everything up to the first closing parenthesis, and the scan resumes
    behind it; an opening parenthesis without a closing one is kept. *)
Fixpoint stripParens (s : jsstring) : jsstring :=
  match s with
  | [] => []
  | c :: t =>
      if c =? LPAREN then
        match (fix inside (u : jsstring) : option jsstring :=
                 match u with
                 | [] => None
                 | d :: v => if d =? RPAREN then Some (stripParens v)
                             else inside v
                 end) t with
        | Some r => r
        | None => c :: stripParens t
        end
      else c :: stripParens t
  end.

(** The inner scan of [stripParens], named for the proofs. *)
Fixpoint afterClose (u : jsstring) : option jsstring :=
  match u with
  | [] => None
  | d :: v => if d =? RPAREN then Some (stripParens v) else afterClose v
  end.

(** [replace(/\s+/g, " ")]: the first unit of a run of white space becomes
    one space, the rest of the run is dropped. *)
Fixpoint collapseFrom (inRun : bool) (s : jsstring) : jsstring :=
  match s with
  | [] => []
  | c :: t =>
      if isSpace c then
        if inRun then collapseFrom true t else SPACE :: collapseFrom true t
      else c :: collapseFrom false t
  end.

Definition collapseSpaces (s : jsstring) : jsstring := collapseFrom false s.

Fixpoint trimStart (s : jsstring) : jsstring :=
  match s with
  | [] => []
  | c :: t => if isSpace c then trimStart t else s
  end.

Fixpoint trimEnd (s : jsstring) : jsstring :=
  match s with
  | [] => []
  | c :: t =>
      match trimEnd t with
      | [] => if isSpace c then [] else [c]
      | r => c :: r
      end
  end.

(** [String.prototype.trim]. *)
Definition trim (s : jsstring) : jsstring := trimEnd (trimStart s).

Fixpoint startsWith (needle s : jsstring) : bool :=
  match needle, s with
  | [], _ => true
  | _ :: _, [] => false
  | a :: n', b :: s' => (a =? b) && startsWith n' s'
  end.

(** [String.prototype.includes]. *)
Fixpoint includes (needle s : jsstring) : bool :=
  startsWith needle s ||
  match s with
  | [] => false
  | _ :: t => includes needle t
  end.

(** [Array.prototype.includes] on an array of strings. *)
Definition arrayIncludes (x : jsstring) (l : list jsstring) : bool :=
  bool_decide (x ∈ l).

(** [String.prototype.split("/")]-style split on one code unit. *)
Fixpoint splitOn (sep : N) (s : jsstring) : list jsstring :=
  match s with
  | [] => [[]]
  | c :: t =>
      if c =? sep then [] :: splitOn sep t
      else match splitOn sep t with
           | [] => [[c]]
           | h :: r => (c :: h) :: r
           end
  end.

(** The host's case conversion.  Its Unicode tables are outside the
    repository, so it is an operation of a class. *)
Class StringBuiltins := { toLowerCase : jsstring -> jsstring }.

(** A concrete case conversion, used to run the code on concrete inputs.
    It decodes surrogate pairs and lowers Basic Latin capitals (+32) and
    Deseret capitals U+10400..U+10427 (+40), leaving everything else,
    lone surrogates included, as it is.  On strings made of Basic Latin,
    Deseret letters and lone surrogates this is what
    [String.prototype.toLowerCase] returns. *)
Definition isHighSurrogate (c : N) : bool := (55296 <=? c) && (c <=? 56319).
Definition isLowSurrogate (c : N) : bool := (56320 <=? c) && (c <=? 57343).

Definition lowerUnit (c : N) : N :=
  if (65 <=? c) && (c <=? 90) then c + 32 else c.

Fixpoint lowerLatinDeseret (s : jsstring) : jsstring :=
  match s with
  | [] => []
  | c :: t =>
      match t with
      | d :: t' =>
          if isHighSurrogate c && isLowSurrogate d then
            (* code point 0x10000 + (c - 0xD800) * 0x400 + (d - 0xDC00) *)
            if (c =? 55297) && (56320 <=? d) && (d <=? 56359)
            then c :: (d + 40) :: lowerLatinDeseret t'
            else c :: d :: lowerLatinDeseret t'
          else lowerUnit c :: lowerLatinDeseret t
      | [] => [lowerUnit c]
      end
  end.

Definition latinDeseret : StringBuiltins :=
  {| toLowerCase := lowerLatinDeseret |}.

(** A code unit the sample case conversion changes, or that could pair up
    with a neighbour. *)
Definition unstable (c : N) : bool :=
  negb (lowerUnit c =? c) || isHighSurrogate c.

End JsString.
Export JsString.

(** ** Shapes of strings used by the normalization proofs *)

Module StringShape.

Definition Avoids (p : N -> bool) (s : jsstring) : Prop :=
  Forall (fun c => p c = false) s.

Definition isClose (c : N) : bool := c =? RPAREN.

Definition headNonSpace (s : jsstring) : Prop :=
  match s with
  | [] => True
  | d :: _ => isSpace d = false
  end.

(** No opening parenthesis has a closing one behind it. *)
Fixpoint Unmatched (s : jsstring) : Prop :=
  match s with
  | [] => True
  | c :: t => (c = LPAREN -> Avoids isClose t) /\ Unmatched t
  end.

(** White space occurs only as single spaces. *)
Fixpoint Squeezed (s : jsstring) : Prop :=
  match s with
  | [] => True
  | c :: t => (isSpace c = true -> c = SPACE /\ headNonSpace t) /\ Squeezed t
  end.

End StringShape.

(** ** Station-name normalization *)

Module Normalize.
Import StringShape.

(** The character classes of the two functions: [[\u2013\u2014-]],
    [[/]] of the batch tool, [[/\\]] of the live resolver, and
    [[\u2018\u2019]]. *)
Definition isDash (c : N) : bool := (c =? 8211) || (c =? 8212) || (c =? 45).
Definition isSlash (c : N) : bool := c =? 47.
Definition isSlashOrBackslash (c : N) : bool := (c =? 47) || (c =? 92).
Definition isCurlyApostrophe (c : N) : bool := (c =? 8216) || (c =? 8217).
Definition APOSTROPHE : N := 39.

Section WithHost.
Context `{StringBuiltins}.

(** [normalizeStationName] of [src/lib/data.ts]:
    [toLowerCase], dashes to space, slash and backslash to space,
    parentheticals removed, white space collapsed, [trim]. *)
Definition normalizeStationName (name : jsstring) : jsstring :=
  trim
    (collapseSpaces
       (stripParens
          (replaceClass isSlashOrBackslash SPACE
             (replaceClass isDash SPACE (toLowerCase name))))).

(** [normalizeName] of [scripts/generate-nyc-entrances.ts]:
    [toLowerCase], dashes to space, curly apostrophes to straight, slash to
    space, parentheticals removed, white space collapsed, [trim]. *)
Definition normalizeName (name : jsstring) : jsstring :=
  trim
    (collapseSpaces
       (stripParens
          (replaceClass isSlash SPACE
             (replaceClass isCurlyApostrophe APOSTROPHE
                (replaceClass isDash SPACE (toLowerCase name)))))).

End WithHost.

(** The part of each function behind the case conversion. *)
Definition liveTail (s : jsstring) : jsstring :=
  trim (collapseSpaces (stripParens
    (replaceClass isSlashOrBackslash SPACE (replaceClass isDash SPACE s)))).

Definition batchTail (s : jsstring) : jsstring :=
  trim (collapseSpaces (stripParens
    (replaceClass isSlash SPACE
       (replaceClass isCurlyApostrophe APOSTROPHE
          (replaceClass isDash SPACE s))))).

Definition isBackslash (c : N) : bool := c =? 92.

(** The two normalization functions of the repository. *)
Inductive Normalization := Live | Batch.

Definition normalizeWith `{StringBuiltins} (f : Normalization)
  : jsstring -> jsstring :=
  match f with
  | Live => normalizeStationName
  | Batch => normalizeName
  end.

Definition tailOf (f : Normalization) : jsstring -> jsstring :=
  match f with
  | Live => liveTail
  | Batch => batchTail
  end.

(** The shape [stripParens], [collapseSpaces] and [trim] leave behind. *)
Record Shaped (s : jsstring) : Prop := {
  shaped_parens : Unmatched s;
  shaped_spaces : Squeezed s;
  shaped_head : headNonSpace s;
  shaped_end : trimEnd s = s
}.

End Normalize.

(** ** Host values shared by the adapters *)

Module Host.

(** Errors a promise can be rejected with. *)
Inductive JsError :=
| WmataApiError (status : Z)   (* [new Error(`WMATA API error: ${status}`)] *)
| SyntaxError                  (* [response.json()] on a malformed body *)
| TypeError                    (* property access on [null] *)
| NetworkError                 (* [fetch] itself rejected *)
| PipelineError.               (* any exception escaping a fetch pipeline *)

Inductive Outcome (A : Type) :=
| Returned (a : A)
| Threw (e : JsError).
Arguments Returned {A} a.
Arguments Threw {A} e.

(** A plain JavaScript object used as an insertion-ordered dictionary.
    The list holds the object's own keys: a lookup [o[k]] is [objGet k o]
    for every [k] that is not the name of a member of [Object.prototype]
    ([OwnKeys.plainKey] below), and the properties of code that indexes an
    object with outside data are stated for such keys. *)
Abbreviation JsObject V := (list (jsstring * V)) (only parsing).

Fixpoint objGet {V} (k : jsstring) (o : JsObject V) : option V :=
  match o with
  | [] => None
  | (k', v) :: r => if bool_decide (k' = k) then Some v else objGet k r
  end.

(** [o[k] = v]: an existing key keeps its position, a new key goes last. *)
Fixpoint objSet {V} (k : jsstring) (v : V) (o : JsObject V) : JsObject V :=
  match o with
  | [] => [(k, v)]
  | (k', v') :: r =>
      if bool_decide (k' = k) then (k', v) :: r else (k', v') :: objSet k v r
  end.

(** [o[k].push(x)] for an array stored under [k] (the callers guard that the
    key exists). *)
Fixpoint objPush {V} (k : jsstring) (x : V) (o : JsObject (list V))
  : JsObject (list V) :=
  match o with
  | [] => []
  | (k', l) :: r =>
      if bool_decide (k' = k) then (k', l ++ [x]) :: r
      else (k', l) :: objPush k x r
  end.

(** [if (!o[k]) o[k] = []]. *)
Definition objEnsure {V} (k : jsstring) (o : JsObject (list V))
  : JsObject (list V) :=
  match objGet k o with
  | Some _ => o
  | None => objSet k [] o
  end.

Definition objKeys {V} (o : JsObject V) : list jsstring := List.map fst o.
Definition objValues {V} (o : JsObject V) : list V := List.map snd o.

End Host.
Export Host.

(** ** Canonical incident schema ([src/lib/types.ts]) *)

Module Schema.

Inductive AlertType := delay | emergency | advisory.

Record UnitOutage := {
  unitName : jsstring;
  unitType : jsstring;            (* "elevator" | "escalator" at run time *)
  location : jsstring;
  symptom : jsstring;
  outOfServiceSince : jsstring;
  estimatedReturn : option jsstring;
  updatedAt : jsstring
}.

Record ServiceAlert := {
  alertId : jsstring;
  alertType : AlertType;
  title : jsstring;
  description : jsstring;
  affectedLines : option (list jsstring);
  affectedStations : option (list jsstring);
  postedAt : jsstring;
  expiresAt : option jsstring
}.

Record Summary := {
  totalOutages : Z;
  elevatorOutages : Z;
  escalatorOutages : Z;
  stationsAffected : Z;
  activeAlerts : option Z
}.

Record IncidentData := {
  fetchedAt : jsstring;
  systemId : jsstring;
  summary : Summary;
  alerts : option (list ServiceAlert);
  outagesByStation : JsObject (list UnitOutage)
}.

End Schema.
Export Schema.

(** ** Outage/alert normalizer ([src/lib/data.ts]) *)

Module Normalizer.
Local Open Scope string_scope.
Local Open Scope Z_scope.

(** The [effect] field of a decoded alert: [number | null | undefined]. *)
Inductive JsEffect :=
| EffectNull
| EffectUndefined
| EffectNumber (n : Z).

Definition mapGtfsEffect (effect : JsEffect) : AlertType :=
  match effect with
  | EffectNumber 1 => emergency      (* NO_SERVICE *)
  | EffectNumber 2                   (* REDUCED_SERVICE *)
  | EffectNumber 3                   (* SIGNIFICANT_DELAYS *)
  | EffectNumber 4                   (* DETOUR *)
  | EffectNumber 6 => delay          (* MODIFIED_SERVICE *)
  | _ => advisory
  end.

Definition elevatorEntry (headerText postedAt : jsstring)
    (expiresAt : option jsstring) : UnitOutage :=
  {| unitName := js "Elevator";
     unitType := js "elevator";
     location := headerText;
     symptom := js "Out of service";
     outOfServiceSince := postedAt;
     estimatedReturn := expiresAt;
     updatedAt := postedAt |}.

Definition escalatorEntry (headerText postedAt : jsstring)
    (expiresAt : option jsstring) : UnitOutage :=
  {| unitName := js "Escalator";
     unitType := js "escalator";
     location := headerText;
     symptom := js "Out of service";
     outOfServiceSince := postedAt;
     estimatedReturn := expiresAt;
     updatedAt := postedAt |}.

(** The mutable state of [detectEquipmentOutages]: the shared
    [outagesByStation] object and the two local counters. *)
Record Detect := {
  byStation : JsObject (list UnitOutage);
  elevators : Z;
  escalators : Z
}.

Definition hasDisruption (lowerFullText : jsstring) : bool :=
  includes (js "out of service") lowerFullText
  || includes (js "unavailable") lowerFullText
  || includes (js "closed") lowerFullText
  || includes (js "outage") lowerFullText.

Definition hasElevatorOutage (lowerFullText : jsstring) : bool :=
  includes (js "elevator") lowerFullText && hasDisruption lowerFullText.

Definition hasEscalatorOutage (lowerFullText : jsstring) : bool :=
  includes (js "escalator") lowerFullText && hasDisruption lowerFullText.

(** One iteration of [for (const stationId of affectedStations)]. *)
Definition detectStep (hasElev hasEsc : bool)
    (headerText postedAt : jsstring) (expiresAt : option jsstring)
    (st : Detect) (stationId : jsstring) : Detect :=
  let st0 := {| byStation := objEnsure stationId (byStation st);
                elevators := elevators st;
                escalators := escalators st |} in
  let st1 :=
    if hasElev then
      {| byStation := objPush stationId
                        (elevatorEntry headerText postedAt expiresAt)
                        (byStation st0);
         elevators := elevators st0 + 1;
         escalators := escalators st0 |}
    else st0 in
  if hasEsc then
    {| byStation := objPush stationId
                      (escalatorEntry headerText postedAt expiresAt)
                      (byStation st1);
       elevators := elevators st1;
       escalators := escalators st1 + 1 |}
  else st1.

Section WithHost.
Context `{StringBuiltins}.

(** [detectEquipmentOutages]: returns the updated [outagesByStation]
    together with the two counters the function returns. *)
Definition detectEquipmentOutages (fullText : jsstring)
    (affectedStations : list jsstring)
    (outagesByStation : JsObject (list UnitOutage))
    (headerText postedAt : jsstring) (expiresAt : option jsstring) : Detect :=
  let start := {| byStation := outagesByStation;
                  elevators := 0; escalators := 0 |} in
  let lowerFullText := toLowerCase fullText in
  let hasElev := hasElevatorOutage lowerFullText in
  let hasEsc := hasEscalatorOutage lowerFullText in
  if (hasElev || hasEsc) && (0 <? Z.of_nat (length affectedStations))%Z then
    fold_left (detectStep hasElev hasEsc headerText postedAt expiresAt)
      affectedStations start
  else start.

End WithHost.

(** The entries one alert adds under each affected station. *)
Definition emitted (hasElev hasEsc : bool) (headerText postedAt : jsstring)
    (expiresAt : option jsstring) : list UnitOutage :=
  (if hasElev then [elevatorEntry headerText postedAt expiresAt] else [])
  ++ (if hasEsc then [escalatorEntry headerText postedAt expiresAt] else []).

Definition tally (b : bool) (n : nat) : Z := if b then Z.of_nat n else 0.

End Normalizer.

(** ** WMATA JSON polling adapter ([workers/incidents/src/systems/wmata.ts]) *)

Module Wmata.
Local Open Scope string_scope.
Local Open Scope Z_scope.

(** WMATA station code to station id. *)
Definition STATION_CODE_MAP : list (string * string) :=
  [
    ("A01", "metro-center"); ("A02", "farragut-north");
    ("A03", "dupont-circle"); ("A04", "woodley-park");
    ("A05", "cleveland-park"); ("A06", "van-ness-udc");
    ("A07", "tenleytown-au"); ("A08", "friendship-heights");
    ("A09", "bethesda"); ("A10", "medical-center");
    ("A11", "grosvenor-strathmore"); ("A12", "white-flint");
    ("A13", "twinbrook"); ("A14", "rockville"); ("A15", "shady-grove");
    ("B01", "gallery-place"); ("B02", "judiciary-square");
    ("B03", "union-station"); ("B04", "rhode-island-ave");
    ("B05", "brookland-cua"); ("B06", "fort-totten"); ("B07", "takoma");
    ("B08", "silver-spring"); ("B09", "forest-glen"); ("B10", "wheaton");
    ("B11", "glenmont"); ("B35", "noma-gallaudet"); ("C01", "metro-center");
    ("C02", "mcpherson-square"); ("C03", "farragut-west");
    ("C04", "foggy-bottom"); ("C05", "rosslyn");
    ("C06", "arlington-cemetery"); ("C07", "pentagon");
    ("C08", "pentagon-city"); ("C09", "crystal-city");
    ("C10", "reagan-national-airport"); ("C12", "braddock-road");
    ("C13", "king-street"); ("C14", "eisenhower-ave"); ("C15", "huntington");
    ("D01", "federal-triangle"); ("D02", "smithsonian");
    ("D03", "l-enfant-plaza"); ("D04", "federal-center-sw");
    ("D05", "capitol-south"); ("D06", "eastern-market");
    ("D07", "potomac-ave"); ("D08", "stadium-armory");
    ("D09", "minnesota-ave"); ("D10", "deanwood"); ("D11", "cheverly");
    ("D12", "landover"); ("D13", "new-carrollton"); ("E01", "mt-vernon-sq");
    ("E02", "shaw-howard"); ("E03", "u-street"); ("E04", "columbia-heights");
    ("E05", "georgia-ave-petworth"); ("E06", "fort-totten");
    ("E07", "west-hyattsville"); ("E08", "prince-georges-plaza");
    ("E09", "college-park"); ("E10", "greenbelt"); ("F01", "gallery-place");
    ("F02", "archives"); ("F03", "l-enfant-plaza"); ("F04", "waterfront");
    ("F05", "navy-yard"); ("F06", "anacostia"); ("F07", "congress-heights");
    ("F08", "southern-avenue"); ("F09", "naylor-road"); ("F10", "suitland");
    ("F11", "branch-ave"); ("G01", "benning-road");
    ("G02", "capitol-heights"); ("G03", "addison-road");
    ("G04", "morgan-boulevard"); ("G05", "largo-town-center");
    ("J02", "van-dorn-street"); ("J03", "franconia-springfield");
    ("K01", "court-house"); ("K02", "clarendon"); ("K03", "virginia-square");
    ("K04", "ballston-mu"); ("K05", "east-falls-church");
    ("K06", "west-falls-church"); ("K07", "dunn-loring"); ("K08", "vienna");
    ("N01", "mclean"); ("N02", "tysons-corner"); ("N03", "greensboro");
    ("N04", "spring-hill"); ("N06", "wiehle-reston-east");
    ("N07", "reston-town-center"); ("N08", "herndon");
    ("N09", "innovation-center"); ("N10", "dulles-airport");
    ("N11", "loudoun-gateway"); ("N12", "ashburn")
  ].

(** [STATION_CODE_MAP[code]] (own properties of the literal). *)
Definition stationOfCode (code : jsstring) : option jsstring :=
  objGet code (List.map (fun kv => (js kv.1, js kv.2)) STATION_CODE_MAP).

Record WMATAIncident := {
  UnitName : jsstring;
  UnitType : jsstring;
  StationCode : jsstring;
  StationName : jsstring;
  LocationDescription : jsstring;
  SymptomDescription : jsstring;
  DateOutOfServ : jsstring;
  DateUpdated : jsstring;
  EstimatedReturnToService : option jsstring
}.

(** Parsed JSON, as [response.json()] yields it. *)
#[local] Unset Elimination Schemes.
Inductive JsonValue :=
| JNull
| JBool (b : bool)
| JNumber (x : float)
| JString (s : jsstring)
| JArray (items : list JsonValue)
| JObject (fields : list (jsstring * JsonValue)).
#[local] Set Elimination Schemes.

(** What [fetch] resolved with: the status line and the body, [None] when
    the body is not JSON. *)
Record Response := {
  status : Z;
  body : option JsonValue
}.

(** [response.ok]. *)
Definition ok (r : Response) : bool := (200 <=? status r) && (status r <=? 299).

(** JavaScript truthiness of a parsed JSON value. *)
Definition truthy (v : JsonValue) : bool :=
  match v with
  | JNull => false
  | JBool b => b
  | JNumber x => negb (PrimFloat.eqb x 0%float) && PrimFloat.eqb x x
  | JString s => negb (bool_decide (s = []))
  | JArray _ | JObject _ => true
  end.

(** [JSON.parse] keeps the last of several equal keys. *)
Fixpoint lastField (k : jsstring) (fields : list (jsstring * JsonValue))
  : option JsonValue :=
  match fields with
  | [] => None
  | (k', v) :: r =>
      match lastField k r with
      | Some w => Some w
      | None => if bool_decide (k' = k) then Some v else None
      end
  end.

(** [data.ElevatorIncidents]: a [TypeError] on [null], [undefined] (here
    [None]) when the property is missing. *)
Definition elevatorIncidentsOf (data : JsonValue) : Outcome (option JsonValue) :=
  match data with
  | JNull => Threw TypeError
  | JObject fields => Returned (lastField (js "ElevatorIncidents") fields)
  | _ => Returned None
  end.

(** [fetchWMATAIncidents]; the argument is what the single [fetch] gave,
    [None] when it rejected. *)
Definition fetchWMATAIncidents (reply : option Response) : Outcome JsonValue :=
  match reply with
  | None => Threw NetworkError
  | Some response =>
      if negb (ok response) then Threw (WmataApiError (status response))
      else
        match body response with
        | None => Threw SyntaxError
        | Some data =>
            match elevatorIncidentsOf data with
            | Threw e => Threw e
            | Returned (Some v) =>
                Returned (if truthy v then v else JArray [])
            | Returned None => Returned (JArray [])
            end
        end
  end.

Section WithHost.
Context `{StringBuiltins}.

Definition outageOf (incident : WMATAIncident) : UnitOutage :=
  {| unitName := UnitName incident;
     unitType := toLowerCase (UnitType incident);
     location := LocationDescription incident;
     symptom := SymptomDescription incident;
     outOfServiceSince := DateOutOfServ incident;
     estimatedReturn := EstimatedReturnToService incident;
     updatedAt := DateUpdated incident |}.

(** The grouping loop of [processIncidents]. *)
Definition groupStep (outagesByStation : JsObject (list UnitOutage))
    (incident : WMATAIncident) : JsObject (list UnitOutage) :=
  match stationOfCode (StationCode incident) with
  | None => outagesByStation                         (* continue *)
  | Some stationId =>
      objPush stationId (outageOf incident)
        (objEnsure stationId outagesByStation)
  end.

Definition groupByStation (incidents : list WMATAIncident)
  : JsObject (list UnitOutage) :=
  fold_left groupStep incidents [].

End WithHost.

(** The counting loops of [processIncidents]. *)
Definition countStep (acc : Z * Z) (o : UnitOutage) : Z * Z :=
  if bool_decide (unitType o = js "elevator") then (acc.1 + 1, acc.2)
  else (acc.1, acc.2 + 1).

Definition countUnits (outagesByStation : JsObject (list UnitOutage)) : Z * Z :=
  fold_left (fun acc outages => fold_left countStep outages acc)
    (objValues outagesByStation) (0, 0).

Section WithHost.
Context `{StringBuiltins}.

(** [processIncidents]; [nowIso] is [new Date().toISOString()]. *)
Definition processIncidents (nowIso : jsstring)
    (incidents : list WMATAIncident) : IncidentData :=
  let outagesByStation := groupByStation incidents in
  let counts := countUnits outagesByStation in
  {| fetchedAt := nowIso;
     systemId := js "wmata";
     summary :=
       {| totalOutages := Z.of_nat (length incidents);
          elevatorOutages := counts.1;
          escalatorOutages := counts.2;
          stationsAffected := Z.of_nat (length (objKeys outagesByStation));
          activeAlerts := None |};
     alerts := None;
     outagesByStation := outagesByStation |}.

End WithHost.

Definition mapped (incident : WMATAIncident) : bool :=
  bool_decide (is_Some (stationOfCode (StationCode incident))).

Definition unitsOf {V} (o : list (list N * list V)) : nat :=
  length (concat (objValues o)).

End Wmata.

(** ** Incident aggregator ([getIncidents] of [src/lib/data.ts]) *)

Module Aggregator.
Local Open Scope string_scope.
Local Open Scope Z_scope.

(** The per-system fetch pipelines [getIncidents] dispatches to. *)
Inductive Pipeline :=
| fetchBartIncidents
| fetchWmataIncidents
| fetchSoundTransitIncidents
| fetchNycSubwayIncidents
| fetchBaltimoreMetroIncidents
| fetchBaltimoreLightRailIncidents
| fetchTokyoMetroIncidents.

Record CacheEntry := {
  data : IncidentData;
  cachedAt : Z                     (* the entry's [fetchedAt], in ms *)
}.

(** Everything [getIncidents] reads or writes: the module-level
    [incidentCache], the clock behind [Date.now()], and the log of pipelines
    that were started (each one issues the system's network requests).
    One call runs at a time: calls interleaved at an [await] are not
    modelled. *)
Record World := {
  incidentCache : gmap (list N) CacheEntry;
  clock : Z;
  dispatched : list Pipeline
}.

(** What the outside world answers when a pipeline is awaited at a given
    time: the pipeline's result ([null] is [None], a rejection is [Threw])
    and the time at which it settled. *)
Class Upstream := {
  settle : Pipeline -> Z -> Outcome (option IncidentData) * Z
}.

(** Computations over the world that may throw. *)
Definition Async (A : Type) : Type := World -> Outcome A * World.

Definition ret {A} (a : A) : Async A := fun w => (Returned a, w).

Definition bind {A B} (m : Async A) (k : A -> Async B) : Async B :=
  fun w =>
    match m w with
    | (Returned a, w') => k a w'
    | (Threw e, w') => (Threw e, w')
    end.

Notation "'run' x <- m ; k" := (bind m (fun x => k))
  (at level 10, x name, m at level 100, k at level 200,
   format "'[v' 'run'  x  <-  m ; '/' k ']'").

Definition dateNow : Async Z := fun w => (Returned (clock w), w).

Definition cacheGet (k : jsstring) : Async (option CacheEntry) :=
  fun w => (Returned (incidentCache w !! k), w).

Definition cacheSet (k : jsstring) (e : CacheEntry) : Async unit :=
  fun w => (Returned tt,
            {| incidentCache := <[k := e]> (incidentCache w);
               clock := clock w;
               dispatched := dispatched w |}).

Definition CACHE_TTL : Z := 5 * 60 * 1000.

Definition supportedSystems : list jsstring :=
  [js "wmata"; js "bart"; js "sound-transit"; js "nyc-subway";
   js "baltimore-metro"; js "baltimore-light-rail"; js "tokyo-metro"].

Section WithUpstream.
Context `{Upstream}.

(** [await fetchXIncidents()]. *)
Definition await (p : Pipeline) : Async (option IncidentData) :=
  fun w =>
    let '(result, settledAt) := settle p (clock w) in
    (result, {| incidentCache := incidentCache w;
                clock := settledAt;
                dispatched := dispatched w ++ [p] |}).

(** The [if (systemId === ...) ... else if ...] chain. *)
Definition dispatch (systemId : jsstring) : Async (option IncidentData) :=
  if bool_decide (systemId = js "bart") then await fetchBartIncidents
  else if bool_decide (systemId = js "wmata") then await fetchWmataIncidents
  else if bool_decide (systemId = js "sound-transit")
       then await fetchSoundTransitIncidents
  else if bool_decide (systemId = js "nyc-subway")
       then await fetchNycSubwayIncidents
  else if bool_decide (systemId = js "baltimore-metro")
       then await fetchBaltimoreMetroIncidents
  else if bool_decide (systemId = js "baltimore-light-rail")
       then await fetchBaltimoreLightRailIncidents
  else if bool_decide (systemId = js "tokyo-metro")
       then await fetchTokyoMetroIncidents
  else ret None.

(** The part of [getIncidents] behind the cache check. *)
Definition refresh (systemId : jsstring) : Async (option IncidentData) :=
  run fetched <- dispatch systemId;
  match fetched with
  | Some d =>
      run now <- dateNow;
      run stored <- cacheSet systemId {| data := d; cachedAt := now |};
      ret (Some d)
  | None => ret None
  end.

Definition getIncidents (systemId : jsstring) : Async (option IncidentData) :=
  if negb (arrayIncludes systemId supportedSystems) then ret None
  else
    run cached <- cacheGet systemId;
    match cached with
    | Some entry =>
        run now <- dateNow;
        if now - cachedAt entry <? CACHE_TTL then ret (Some (data entry))
        else refresh systemId
    | None => refresh systemId
    end.

(** [getStationOutages]. *)
Definition getStationOutages (systemId stationId : jsstring)
  : Async (list UnitOutage) :=
  run incidents <- getIncidents systemId;
  match incidents with
  | None => ret []
  | Some d => ret (default [] (objGet stationId (outagesByStation d)))
  end.

End WithUpstream.

(** Is there an entry for [systemId] younger than the TTL? *)
Definition fresh (systemId : jsstring) (w : World) : Prop :=
  exists entry, incidentCache w !! systemId = Some entry
                /\ clock w - cachedAt entry < CACHE_TTL.

Definition setClock (now : Z) (w : World) : World :=
  {| incidentCache := incidentCache w; clock := now;
     dispatched := dispatched w |}.

End Aggregator.

(** ** Live NYC station disambiguation ([fetchNycSubwayIncidents]) *)

Module NycLive.
Local Open Scope string_scope.
Local Open Scope Z_scope.

(** MTA route id to line id. *)
Definition NYC_SUBWAY_ROUTE_MAP : list (string * string) :=
  [("GS", "S-42"); ("FS", "S-franklin"); ("H", "S-rockaway")].

(** [NYC_SUBWAY_ROUTE_MAP[routeId] || routeId], for a [routeId] that is
    not the name of a member of [Object.prototype]. *)
Definition mapNycRouteId (routeId : jsstring) : option jsstring :=
  if bool_decide (routeId = js "SI") then None
  else
    match objGet routeId
            (List.map (fun kv => (js kv.1, js kv.2)) NYC_SUBWAY_ROUTE_MAP) with
    | Some lineId => Some lineId
    | None => Some routeId
    end.

(** An entry of the station-name index. *)
Record Candidate := {
  id : jsstring;
  lines : list jsstring
}.

(** [outage.trainno.split("/").map(trim).map(mapNycRouteId).filter(non-null)]. *)
Definition outageLinesOf (trainno : jsstring) : list jsstring :=
  omap mapNycRouteId (List.map trim (splitOn 47 trainno)).

(** [c.lines.filter((l) => outageLines.includes(l)).length]. *)
Definition overlapOf (outageLines : list jsstring) (c : Candidate) : Z :=
  Z.of_nat (length (List.filter (fun l => arrayIncludes l outageLines) (lines c))).

(** [scored.reduce((a, b) => b.overlap > a.overlap ? b : a)]. *)
Definition better (outageLines : list jsstring) (a b : Candidate) : Candidate :=
  if overlapOf outageLines a <? overlapOf outageLines b then b else a.

(** The station an outage record is attached to; [None] is the [continue]
    taken when the index has no candidate for the name. *)
Definition matchStation (trainno : jsstring) (candidates : list Candidate)
  : option Candidate :=
  match candidates with
  | [] => None
  | first :: rest =>
      if (1 <? Z.of_nat (length candidates))
         && negb (bool_decide (trainno = []))
      then
        let outageLines := outageLinesOf trainno in
        let best := fold_left (better outageLines) rest first in
        if 0 <? overlapOf outageLines best then Some best else Some first
      else Some first
  end.

End NycLive.

(** ** Batch entrance matcher ([scripts/generate-nyc-entrances.ts]) *)

Module BatchMatch.
Local Open Scope string_scope.
Local Open Scope Z_scope.

Record Coordinates := {
  lat : float;
  lng : float
}.

Record Station := {
  id : jsstring;
  name : jsstring;
  lines : list jsstring;
  status : jsstring;
  coordinates : option Coordinates
}.

Record CsvRow := {
  division : jsstring;
  constituentStationName : jsstring;
  gtfsStopId : jsstring;
  daytimeRoutes : list jsstring;
  entranceType : jsstring;
  entryAllowed : bool;
  exitAllowed : bool;
  rowLat : float;
  rowLng : float
}.

(** CSV shuttle route "S" to the internal line ids. *)
Definition SHUTTLE_ROUTE_MAP : list (string * list string) :=
  [("S", ["S-42"; "S-franklin"; "S-rockaway"])].

(** [SHUTTLE_ROUTE_MAP[route]], for a [route] that is not the name of a
    member of [Object.prototype]. *)
Definition shuttleLines (route : jsstring) : option (list jsstring) :=
  objGet route (List.map (fun kv => (js kv.1, List.map js kv.2)) SHUTTLE_ROUTE_MAP).

Definition countIf (b : bool) (score : Z) : Z := if b then score + 1 else score.

(** One iteration of [for (const route of csvRoutes)]. *)
Definition overlapStep (stationLines : list jsstring) (score : Z)
    (route : jsstring) : Z :=
  let score1 := countIf (arrayIncludes route stationLines) score in
  match shuttleLines route with
  | Some mapped =>
      fold_left (fun sc m => countIf (arrayIncludes m stationLines) sc)
        mapped score1
  | None => score1
  end.

Definition lineOverlap (csvRoutes stationLines : list jsstring) : Z :=
  fold_left (overlapStep stationLines) csvRoutes 0.

(** The transcendental functions of [Math]; [Math.sqrt] and the four
    arithmetic operations are those of IEEE 754 binary64. *)
Class MathBuiltins := {
  Math_sin : float -> float;
  Math_cos : float -> float;
  Math_asin : float -> float;
  Math_pow : float -> float -> float
}.

(** [Math.PI], the binary64 number nearest to pi (3.141592653589793). *)
Definition Math_PI : float := 0x1.921fb54442d18p+1%float.

Section WithMath.
Context `{MathBuiltins}.

Definition haversineMeters (lat1 lng1 lat2 lng2 : float) : float :=
  let R := 6371000%float in
  let dLat := (((lat2 - lat1) * Math_PI) / 180)%float in
  let dLng := (((lng2 - lng1) * Math_PI) / 180)%float in
  let a :=
    (Math_pow (Math_sin (dLat / 2)) 2 +
     Math_cos ((lat1 * Math_PI) / 180) *
       Math_cos ((lat2 * Math_PI) / 180) *
       Math_pow (Math_sin (dLng / 2)) 2)%float in
  (2 * R * Math_asin (PrimFloat.sqrt a))%float.

Record Scored := {
  station : Station;
  overlap : Z;
  dist : float
}.

Definition score (row : CsvRow) (c : Station) : Scored :=
  {| station := c;
     overlap := lineOverlap (daytimeRoutes row) (lines c);
     dist := match coordinates c with
             | Some p => haversineMeters (lat p) (lng p) (rowLat row) (rowLng row)
             | None => infinity
             end |}.

End WithMath.

(** [Math.max(...xs)] of an array of integers; [None] is the [-Infinity]
    of the empty array. *)
Definition mathMax (xs : list Z) : option Z :=
  match xs with
  | [] => None
  | x :: r => Some (fold_left Z.max r x)
  end.

(** [s.overlap >= maxOverlap - 1]. *)
Definition withinOne (maxOverlap : option Z) (o : Z) : bool :=
  match maxOverlap with
  | Some m => m - 1 <=? o
  | None => true
  end.

(** The comparator [(a, b) => a.dist - b.dist] says "a before b" when its
    value is negative; a [NaN] value counts as 0. *)
Definition closer (a b : Scored) : bool :=
  PrimFloat.ltb (dist a - dist b)%float 0%float.

(** [Array.prototype.sort] is stable: an element moves in front of exactly
    those earlier elements it is strictly before.  This is the order of the
    host whenever the comparator is consistent, and for every array of two
    elements; when differences of distances are [NaN] among three or more
    elements the host's order is its own, and the properties below then use
    only that sorting keeps the elements of the array. *)
Fixpoint insertSorted (x : Scored) (sorted : list Scored) : list Scored :=
  match sorted with
  | [] => [x]
  | y :: r => if closer x y then x :: y :: r else y :: insertSorted x r
  end.

Definition sortByDist (l : list Scored) : list Scored :=
  fold_left (fun sorted x => insertSorted x sorted) l [].

Section WithMath.
Context `{MathBuiltins}.

(** Candidate choice of [main], step 5.  [None] stands for the [continue]
    on an empty candidate list; [topCandidates[0]] of an empty array would
    be a [TypeError], which [chooseStation_total] rules out. *)
Definition chooseStation (row : CsvRow) (candidates : list Station)
  : option Station :=
  match candidates with
  | [] => None
  | [only] => Some only
  | _ :: _ :: _ =>
      let scored := List.map (score row) candidates in
      let maxOverlap := mathMax (List.map overlap scored) in
      let topCandidates :=
        List.filter
          (fun s => withinOne maxOverlap (overlap s) && (0 <=? overlap s))
          scored in
      station <$> head (sortByDist topCandidates)
  end.

End WithMath.

End BatchMatch.

(** ** Sample inputs *)

Module Samples.
Import Wmata Aggregator.
Local Open Scope string_scope.
Local Open Scope Z_scope.

Definition mainStText : jsstring := js "Elevator out of service at Main St".
Definition mainStPosted : jsstring := js "2024-01-01T00:00:00.000Z".

(** [detectEquipmentOutages] on the scenario of the specification. *)
Definition mainStResult : Normalizer.Detect :=
  @Normalizer.detectEquipmentOutages latinDeseret mainStText [js "main-st"] []
    mainStText mainStPosted None.

Definition unavailable : Response :=
  {| status := 503; body := None |}.

Definition okWithoutField : Response :=
  {| status := 200; body := Some (JObject [(js "Message", JString (js "none"))]) |}.

(** An incident whose station code the map does not know. *)
Definition unknownStation : WMATAIncident :=
  {| UnitName := js "Z99X01";
     UnitType := js "ESCALATOR";
     StationCode := js "Z99";
     StationName := js "Test Track";
     LocationDescription := js "Escalator between street and mezzanine";
     SymptomDescription := js "Service Call";
     DateOutOfServ := js "2024-01-01T08:00:00";
     DateUpdated := js "2024-01-01T09:00:00";
     EstimatedReturnToService := None |}.

(** An upstream that is down: every pipeline gives [null] after 30 ms. *)
Definition offline : Upstream :=
  {| settle := fun _ t => (Returned None, t + 30) |}.

Definition sampleData (sid : jsstring) (stamp : jsstring) : IncidentData :=
  {| fetchedAt := stamp;
     systemId := sid;
     summary := {| totalOutages := 0; elevatorOutages := 0;
                   escalatorOutages := 0; stationsAffected := 0;
                   activeAlerts := Some 0 |};
     alerts := Some [];
     outagesByStation := [] |}.

Definition bartEntry : CacheEntry :=
  {| data := sampleData (js "bart") (js "2024-01-01T00:00:00.000Z");
     cachedAt := 0 |}.

(** A world whose only cache entry, for "bart", was stored at time 0. *)
Definition worldAt (now : Z) : World :=
  {| incidentCache := {[ js "bart" := bartEntry ]};
     clock := now;
     dispatched := [] |}.

(** A stand-in for [Math]: the sample stations have no coordinates, so no
    distance is ever computed with it. *)
Definition identityMath : BatchMatch.MathBuiltins :=
  {| BatchMatch.Math_sin := fun x => x;
     BatchMatch.Math_cos := fun x => x;
     BatchMatch.Math_asin := fun x => x;
     BatchMatch.Math_pow := fun x _ => x |}.

Definition stationOn (name : string) (served : list string)
  : BatchMatch.Station :=
  {| BatchMatch.id := js name;
     BatchMatch.name := js "Canal St";
     BatchMatch.lines := List.map js served;
     BatchMatch.status := js "active";
     BatchMatch.coordinates := None |}.

(** The same station at the given latitude and longitude. *)
Definition stationAt (name : string) (served : list string)
    (latitude longitude : float) : BatchMatch.Station :=
  {| BatchMatch.id := js name;
     BatchMatch.name := js "Canal St";
     BatchMatch.lines := List.map js served;
     BatchMatch.status := js "active";
     BatchMatch.coordinates :=
       Some {| BatchMatch.lat := latitude; BatchMatch.lng := longitude |} |}.

Definition rowOn (routes : list string) : BatchMatch.CsvRow :=
  {| BatchMatch.division := js "BMT";
     BatchMatch.constituentStationName := js "Canal St";
     BatchMatch.gtfsStopId := js "Q01";
     BatchMatch.daytimeRoutes := List.map js routes;
     BatchMatch.entranceType := js "Stair";
     BatchMatch.entryAllowed := true;
     BatchMatch.exitAllowed := true;
     BatchMatch.rowLat := 40.75%float;
     BatchMatch.rowLng := (-74.0)%float |}.

Definition candidateOn (name : string) (served : list string)
  : NycLive.Candidate :=
  {| NycLive.id := js name; NycLive.lines := List.map js served |}.

End Samples.

(** ** Keys of object literals *)

Module OwnKeys.

(** An array index: the canonical decimal form of an integer below
    2^32 - 1.  [Object.keys] lists such keys first, in ascending order, and
    only then the other keys in insertion order; properties that speak of
    the order of keys are stated for keys other than these. *)
Definition isArrayIndex (k : jsstring) : bool :=
  match k with
  | [] => false
  | [48] => true
  | c :: _ =>
      negb (c =? 48)
      && forallb (fun d => (48 <=? d) && (d <=? 57)) k
      && (fold_left (fun n d => 10 * n + (d - 48)) k 0 <? 4294967295)
  end.

Local Open Scope string_scope.

(** The names every object literal inherits from [Object.prototype]:
    [o[k]] for such a [k] is the inherited member (a function, or the
    prototype itself) and not [undefined], whatever keys [o] owns.  The
    dictionaries of this development hold own keys only, so properties of
    code that indexes an object literal with outside data are stated for
    keys other than these. *)
Definition OBJECT_PROTOTYPE_NAMES : list string :=
  [ "constructor"; "__defineGetter__"; "__defineSetter__"; "hasOwnProperty";
    "__lookupGetter__"; "__lookupSetter__"; "isPrototypeOf";
    "propertyIsEnumerable"; "toString"; "valueOf"; "__proto__";
    "toLocaleString" ].

Definition plainKey (k : jsstring) : bool :=
  negb (arrayIncludes k (List.map js OBJECT_PROTOTYPE_NAMES)).

End OwnKeys.

(** ** Free-text station search ([findStationsInTextByPattern]) *)

Module TextMatch.

(** [RegExp.prototype.test] of the host.  A pattern is named by the source
    text of its literal; the patterns of the repository carry the flag [i]
    only, so a test keeps no state between calls. *)
Class RegExpBuiltins := { regexTest : string -> jsstring -> bool }.

Record StationPattern := {
  pattern : string;
  stationId : jsstring
}.

Section WithHost.
Context `{RegExpBuiltins}.

(** One iteration of [for (const { pattern, stationId } of patterns)]. *)
Definition findStep (text : jsstring) (found : list jsstring)
    (p : StationPattern) : list jsstring :=
  if regexTest (pattern p) text && negb (arrayIncludes (stationId p) found)
  then found ++ [stationId p]
  else found.

Definition findStationsInTextByPattern (text : jsstring)
    (patterns : list StationPattern) : list jsstring :=
  fold_left (findStep text) patterns [].

End WithHost.

End TextMatch.

(** ** NYC station-name index and outage feed ([src/lib/data.ts]) *)

Module NycIndex.
Import Normalize NycLive Normalizer.
Local Open Scope Z_scope.

(** The fields of a [Station] that [getNycStationIndex] reads. *)
Record Station := {
  stationId : jsstring;
  name : jsstring;
  stationLines : list jsstring;
  status : jsstring
}.

Definition candidateOf (station : Station) : Candidate :=
  {| NycLive.id := stationId station; NycLive.lines := stationLines station |}.

Section WithHost.
Context `{StringBuiltins}.

(** One iteration of [for (const station of stations)]. *)
Definition indexStep (index : gmap (list N) (list Candidate))
    (station : Station) : gmap (list N) (list Candidate) :=
  if negb (bool_decide (status station = js "active")) then index
  else
    let normalized := normalizeStationName (name station) in
    let existing := default [] (index !! normalized) in
    <[normalized := existing ++ [candidateOf station]]> index.

Definition buildIndex (stations : list Station)
  : gmap (list N) (list Candidate) :=
  fold_left indexStep stations ∅.

(** [getNycStationIndex]: [cached] is the module variable
    [nycStationIndex], [stations] what [getStations("nyc-subway")] gives
    when it is awaited.  The result comes with the new value of the module
    variable. *)
Definition getNycStationIndex
    (cached : option (gmap (list N) (list Candidate)))
    (stations : Outcome (list Station))
  : Outcome (gmap (list N) (list Candidate))
    * option (gmap (list N) (list Candidate)) :=
  match cached with
  | Some index => (Returned index, cached)
  | None =>
      match stations with
      | Threw e => (Threw e, None)
      | Returned list =>
          let index := buildIndex list in (Returned index, Some index)
      end
  end.

End WithHost.

(** A record of the MTA elevator/escalator feed. *)
Record NycSubwayEneOutage := {
  borough : jsstring;
  trainno : jsstring;
  equipmentno : jsstring;
  equipmenttype : jsstring;
  serving : jsstring;
  ADA : jsstring;
  isupcomingoutage : jsstring;
  ismaintenanceoutage : jsstring;
  station : jsstring;
  outagedate : jsstring;
  estimatedreturntoservice : jsstring;
  reason : jsstring;
  linesimpacted : option jsstring
}.

(** [a || b] on strings. *)
Definition orElse (a b : jsstring) : jsstring :=
  if bool_decide (a = []) then b else a.

(** The clock behind [new Date().toISOString()]: what its n-th reading
    gives. *)
Class ClockBuiltins := { isoAt : nat -> jsstring }.

(** The state of the outage loop: the shared object, the two counters and
    the number of clock readings made so far. *)
Record EneState := {
  found : Detect;
  readings : nat
}.

Section WithHost.
Context `{StringBuiltins} `{ClockBuiltins}.

(** [outage.outagedate || new Date().toISOString()]: the clock is read
    only when the date is missing. *)
Definition dateOrNow (date : jsstring) (n : nat) : jsstring * nat :=
  if bool_decide (date = []) then (isoAt n, S n) else (date, n).

(** One iteration of [for (const outage of eneData || [])]. *)
Definition eneStep (index : gmap (list N) (list Candidate))
    (st : EneState) (outage : NycSubwayEneOutage) : EneState :=
  if bool_decide (isupcomingoutage outage = js "Y") then st
  else
    match index !! normalizeStationName (station outage) with
    | None => st
    | Some candidates =>
        match matchStation (trainno outage) candidates with
        | None => st
        | Some matchedStation =>
            let isElevator := bool_decide (equipmenttype outage = js "EL") in
            let unitType :=
              if isElevator then js "elevator" else js "escalator" in
            let '(since, n1) := dateOrNow (outagedate outage) (readings st) in
            let '(updated, n2) := dateOrNow (outagedate outage) n1 in
            let entry :=
              {| unitName :=
                   (if isElevator then js "Elevator" else js "Escalator")
                   ++ [SPACE] ++ equipmentno outage;
                 unitType := unitType;
                 location := orElse (serving outage) (station outage);
                 symptom := orElse (reason outage) (js "Out of service");
                 outOfServiceSince := since;
                 estimatedReturn :=
                   if bool_decide (estimatedreturntoservice outage = [])
                   then None else Some (estimatedreturntoservice outage);
                 updatedAt := updated |} in
            {| found :=
                 {| byStation :=
                      objPush (NycLive.id matchedStation) entry
                        (objEnsure (NycLive.id matchedStation)
                           (byStation (found st)));
                    elevators :=
                      if isElevator then elevators (found st) + 1
                      else elevators (found st);
                    escalators :=
                      if isElevator then escalators (found st)
                      else escalators (found st) + 1 |};
               readings := n2 |}
        end
    end.

Definition processEneOutages (index : gmap (list N) (list Candidate))
    (start : EneState) (eneData : list NycSubwayEneOutage) : EneState :=
  fold_left (eneStep index) eneData start.

End WithHost.

End NycIndex.

(** ** Feed downloads ([fetchGtfsRtFeed], [fetchMtaMarylandFeed],
       [fetchWmataIncidents], [fetchTokyoMetroIncidents]) *)

Module Feeds.
Local Open Scope Z_scope.

(** What an awaited [fetch] resolved with: [response.ok] and what reading
    the body gives ([arrayBuffer] and [decode], or [json]), which can throw. *)
Record HttpReply (B : Type) := {
  replyOk : bool;
  replyBody : Outcome B
}.
Arguments replyOk {B} _.
Arguments replyBody {B} _.

(** [fetchGtfsRtFeed]: [net] is the outcome of the [fetch]; everything is
    inside one [try], so the function cannot throw. *)
Definition fetchGtfsRtFeed {F} (net : Outcome (HttpReply F)) : option F :=
  match net with
  | Threw _ => None
  | Returned response =>
      if negb (replyOk response) then None
      else match replyBody response with
           | Returned feed => Some feed
           | Threw _ => None
           end
  end.

(** The body that [fetchWmataIncidents] and [fetchTokyoMetroIncidents]
    share word for word: the worker first when [INCIDENTS_WORKER_URL] is
    set, the local file otherwise or when the worker fails.  [worker] is
    what the [fetch] of the worker gave and [file] what reading and parsing
    the local file gave; the parsed JSON is cast to [IncidentData]
    unchecked, and [None] is a JSON [null]. *)
Definition fetchFromWorkerOrFile (workerUrl : option jsstring)
    (worker : Outcome (HttpReply (option IncidentData)))
    (file : Outcome (option IncidentData)) : option IncidentData :=
  let fromFile := match file with
                  | Returned content => content
                  | Threw _ => None
                  end in
  match workerUrl with
  | Some (_ :: _) =>
      match worker with
      | Returned response =>
          if replyOk response then
            match replyBody response with
            | Returned parsed => parsed
            | Threw _ => fromFile
            end
          else fromFile
      | Threw _ => fromFile
      end
  | _ => fromFile
  end.

(** [fetchWmataIncidents]: the worker path [/incidents/wmata] and the
    file [wmata.json]. *)
Definition fetchWmataIncidents := fetchFromWorkerOrFile.

(** [fetchTokyoMetroIncidents]: the worker path [/incidents/tokyo-metro]
    and the file [tokyo-metro.json]. *)
Definition fetchTokyoMetroIncidents := fetchFromWorkerOrFile.

Record FeedCache (F : Type) := {
  cachedFeed : F;
  feedFetchedAt : Z
}.
Arguments cachedFeed {F} _.
Arguments feedFetchedAt {F} _.

(** The module variable [mtaMarylandFeedCache], the clock, and the number
    of downloads started. *)
Record FeedWorld (F : Type) := {
  mtaMarylandFeedCache : option (FeedCache F);
  feedClock : Z;
  downloads : nat
}.
Arguments mtaMarylandFeedCache {F} _.
Arguments feedClock {F} _.
Arguments downloads {F} _.

(** What a download started at a given time gives, and when it is over. *)
Class FeedNetwork (F : Type) := {
  download : Z -> Outcome (HttpReply F) * Z
}.

Definition MTA_MARYLAND_FEED_CACHE_TTL : Z := 5 * 60 * 1000.

Section WithNetwork.
Context {F : Type} `{FeedNetwork F}.

(** The part of [fetchMtaMarylandFeed] behind the cache check; the source
    repeats the steps of [fetchGtfsRtFeed] there. *)
Definition downloadFeed (w : FeedWorld F) : option F * FeedWorld F :=
  let '(net, settledAt) := download (feedClock w) in
  let after cache :=
    {| mtaMarylandFeedCache := cache;
       feedClock := settledAt;
       downloads := S (downloads w) |} in
  match fetchGtfsRtFeed net with
  | Some feed =>
      (Some feed,
       after (Some {| cachedFeed := feed; feedFetchedAt := settledAt |}))
  | None => (None, after (mtaMarylandFeedCache w))
  end.

Definition fetchMtaMarylandFeed (w : FeedWorld F) : option F * FeedWorld F :=
  match mtaMarylandFeedCache w with
  | Some cache =>
      if feedClock w - feedFetchedAt cache <? MTA_MARYLAND_FEED_CACHE_TTL
      then (Some (cachedFeed cache), w)
      else downloadFeed w
  | None => downloadFeed w
  end.

End WithNetwork.

End Feeds.

(** ** GTFS-Realtime alert pipelines ([fetchSoundTransitIncidents],
       [fetchBaltimoreIncidents]) *)

Module GtfsTables.
Local Open Scope string_scope.

(** Sound Transit route id to line id. *)
Definition SOUND_TRANSIT_ROUTES : list (string * string) :=
  [
    ("100479", "1-line"); ("1LINE", "1-line"); ("2LINE", "2-line");
    ("TLINE", "t-line"); ("NLINE", "n-line"); ("SLINE", "s-line")
  ].

Definition SOUND_TRANSIT_STATION_PATTERNS : list (string * string) :=
  [
    ("\bwestlake\b", "westlake");
    ("\buniversity street\b", "university-street");
    ("\bpioneer square\b", "pioneer-square");
    ("\binternational district|chinatown|int'l dist", "international-district");
    ("\bstadium\b(?!\s*district)", "stadium");
    ("\bsodo\b", "sodo");
    ("\bbeacon hill\b", "beacon-hill");
    ("\bmount baker|mt\.?\s*baker", "mount-baker");
    ("\bcolumbia city\b", "columbia-city");
    ("\bothello\b", "othello");
    ("\brainier beach\b", "rainier-beach");
    ("\btukwila\b", "tukwila-international-boulevard");
    ("\bseatac|sea-tac|seatac\/airport", "sea-tac-airport");
    ("\bangle lake\b", "angle-lake");
    ("\bcapitol hill\b", "capitol-hill");
    ("\buniversity of washington\b|uw station", "university-of-washington");
    ("\bu district\b", "u-district");
    ("\broosevelt\b", "roosevelt");
    ("\bnorthgate\b", "northgate");
    ("\bshoreline south|148th\b", "shoreline-south-148th");
    ("\bshoreline north|185th\b", "shoreline-north-185th");
    ("\bmountlake terrace\b", "mountlake-terrace");
    ("\blynnwood\b", "lynnwood-city-center");
    ("\bjudkins park\b", "judkins-park");
    ("\bmercer island\b", "mercer-island");
    ("\bsouth bellevue\b", "south-bellevue");
    ("\beast main\b", "east-main");
    ("\bbellevue downtown\b", "bellevue-downtown");
    ("\bwilburton\b", "wilburton");
    ("\bspring district|120th\b", "spring-district-120th");
    ("\bbel-red|130th\b", "bel-red-130th");
    ("\boverlake village\b", "overlake-village");
    ("\bredmond technology\b", "redmond-technology");
    ("\bfederal way\b", "federal-way-downtown");
    ("\bkent des moines\b", "kent-des-moines");
    ("\bstar lake\b", "star-lake")
  ].

(** Baltimore Metro SubwayLink: GTFS parent station id to station id. *)
Definition BALTIMORE_METRO_STOPS : list (string * string) :=
  [
    ("s0001", "owings-mills"); ("s0002", "old-court");
    ("s0003", "milford-mill"); ("s0004", "reisterstown-plaza");
    ("s0005", "rogers-avenue"); ("s0006", "west-cold-spring");
    ("s0007", "mondawmin"); ("s0008", "penn-north"); ("s0009", "upton");
    ("s0010", "state-center"); ("s0011", "lexington-market");
    ("s0012", "charles-center"); ("s0013", "shot-tower");
    ("s0014", "johns-hopkins-hospital")
  ].

(** Baltimore Light RailLink: GTFS parent station id to station id. *)
Definition BALTIMORE_LIGHT_RAIL_STOPS : list (string * string) :=
  [
    ("s7001", "cromwell-station-glen-burnie"); ("s7002", "ferndale");
    ("s7003", "bwi-airport"); ("s7004", "bwi-business-district");
    ("s7005", "linthicum"); ("s7006", "north-linthicum");
    ("s7007", "nursery-road"); ("s7008", "baltimore-highlands");
    ("s7009", "patapsco"); ("s7010", "cherry-hill"); ("s7011", "westport");
    ("s7012", "stadium-federal-hill"); ("s7013", "camden-yards");
    ("s7014", "convention-center");
    ("s7015", "university-center-baltimore-street");
    ("s7016", "lexington-market"); ("s7017", "centre-street");
    ("s7018", "cultural-center");
    ("s7019", "university-of-baltimore-mt-royal"); ("s7020", "penn-station");
    ("s7021", "north-avenue"); ("s7022", "woodberry");
    ("s7023", "cold-spring-lane"); ("s7024", "mt-washington");
    ("s7025", "falls-road"); ("s7026", "lutherville");
    ("s7027", "timonium-business-park"); ("s7028", "fairgrounds");
    ("s7029", "warren-road"); ("s7030", "gilroy-road");
    ("s7031", "mccormick-road"); ("s7032", "pepper-road");
    ("s7033", "hunt-valley"); ("s7034", "penn-station")
  ].

Definition BALTIMORE_METRO_STATION_PATTERNS : list (string * string) :=
  [
    ("\bowings mills\b", "owings-mills");
    ("\bold court\b", "old-court");
    ("\bmilford mill\b", "milford-mill");
    ("\breisterstown\b", "reisterstown-plaza");
    ("\brogers ave", "rogers-avenue");
    ("\bwest cold spring\b", "west-cold-spring");
    ("\bmondawmin\b", "mondawmin");
    ("\bpenn north\b", "penn-north");
    ("\bupton\b", "upton");
    ("\bstate center\b", "state-center");
    ("\blexington market\b", "lexington-market");
    ("\bcharles center\b", "charles-center");
    ("\bshot tower\b", "shot-tower");
    ("\bjohns hopkins\b", "johns-hopkins-hospital")
  ].

Definition BALTIMORE_LIGHT_RAIL_STATION_PATTERNS : list (string * string) :=
  [
    ("\bhunt valley\b", "hunt-valley");
    ("\bpepper road\b", "pepper-road");
    ("\bmccormick\b", "mccormick-road");
    ("\bgilroy\b", "gilroy-road");
    ("\bwarren road\b", "warren-road");
    ("\bfairgrounds?\b", "fairgrounds");
    ("\btimonium\b", "timonium-business-park");
    ("\blutherville\b", "lutherville");
    ("\bfalls road\b", "falls-road");
    ("\bmt\.?\s*washington\b", "mt-washington");
    ("\bcold spring\b", "cold-spring-lane");
    ("\bwoodberry\b", "woodberry");
    ("\bnorth ave", "north-avenue");
    ("\bmt\.?\s*royal|mica\b", "university-of-baltimore-mt-royal");
    ("\bcultural center\b", "cultural-center");
    ("\bcentre st", "centre-street");
    ("\blexington market\b", "lexington-market");
    ("\bbaltimore arena|university center\b", "university-center-baltimore-street");
    ("\bconvention center\b", "convention-center");
    ("\bcamden\b", "camden-yards");
    ("\bstadium|federal hill|hamburg\b", "stadium-federal-hill");
    ("\bwestport\b", "westport");
    ("\bcherry hill\b", "cherry-hill");
    ("\bpatapsco\b", "patapsco");
    ("\bbaltimore highlands\b", "baltimore-highlands");
    ("\bnursery road\b", "nursery-road");
    ("\bnorth linthicum\b", "north-linthicum");
    ("\blinthicum\b(?!\s*heights)", "linthicum");
    ("\bferndale\b", "ferndale");
    ("\bcromwell|glen burnie\b", "cromwell-station-glen-burnie");
    ("\bbwi business\b", "bwi-business-district");
    ("\bbwi airport\b|bwi\b(?!\s*business)", "bwi-airport");
    ("\bpenn station\b", "penn-station")
  ].

Definition MTA_MARYLAND_LIGHT_RAIL_ROUTE : jsstring := js "11693".
Definition MTA_MARYLAND_METRO_ROUTE : jsstring := js "11682".

End GtfsTables.

Module GtfsRt.
Import Normalizer TextMatch GtfsTables.
Local Open Scope Z_scope.

Definition patternsOf (table : list (string * string)) : list StationPattern :=
  List.map (fun row => {| pattern := row.1; stationId := js row.2 |}) table.

Definition recordOf (table : list (string * string))
  : list (list N * list N) :=
  List.map (fun kv => (js kv.1, js kv.2)) table.

(** [record[key]] when the value is truthy. *)
Definition lookupTruthy (key : jsstring) (record : list (list N * list N))
  : option jsstring :=
  match objGet key record with
  | Some (c :: t) => Some (c :: t)
  | _ => None
  end.

(** An [informed_entity] of an alert; an unset string field reads as "". *)
Record InformedEntity := {
  agencyId : jsstring;
  routeId : jsstring;
  stopId : jsstring
}.

(** What the loop body reads from a decoded alert:
    [headerTextOf] is [alert.headerText?.translation?.[0]?.text],
    [postedAtOf] is what
    [startTime ? new Date(Number(startTime) * 1000).toISOString()
               : new Date().toISOString()] evaluates to (a [RangeError]
    when the time is out of range), [expiresAtOf] likewise for [endTime]. *)
Record AlertView := {
  headerTextOf : option jsstring;
  descriptionTextOf : option jsstring;
  effect : JsEffect;
  informedEntity : list InformedEntity;
  postedAtOf : Outcome jsstring;
  expiresAtOf : Outcome (option jsstring)
}.

Record FeedEntity := {
  entityId : jsstring;
  alert : option AlertView
}.

(** [text || fallback] for a text that may be [undefined]. *)
Definition textOr (text : option jsstring) (fallback : jsstring) : jsstring :=
  match text with
  | Some (c :: t) => c :: t
  | _ => fallback
  end.

(** [list.length > 0 ? list : undefined]. *)
Definition nonEmpty (l : list jsstring) : option (list jsstring) :=
  match l with
  | [] => None
  | _ => Some l
  end.

(** [if (!list.includes(x)) list.push(x)]. *)
Definition pushNew (l : list jsstring) (x : jsstring) : list jsstring :=
  if arrayIncludes x l then l else l ++ [x].

(** The local state of a pipeline: the alerts pushed so far, the shared
    [outagesByStation] and the two counters. *)
Record Assembled := {
  alertsSoFar : list ServiceAlert;
  detected : Detect
}.

Definition emptyAssembled : Assembled :=
  {| alertsSoFar := [];
     detected := {| byStation := []; elevators := 0; escalators := 0 |} |}.

(** The end of a loop body: detect equipment outages, add the counters,
    push the alert. *)
Definition record `{StringBuiltins} (st : Assembled) (entity : FeedEntity)
    (alertType : AlertType) (headerText descriptionText : jsstring)
    (affectedLines : option (list jsstring))
    (affectedStations : list jsstring)
    (postedAt : jsstring) (expiresAt : option jsstring) : Assembled :=
  let fullText := headerText ++ [SPACE] ++ descriptionText in
  let equipment :=
    detectEquipmentOutages fullText affectedStations
      (byStation (detected st)) headerText postedAt expiresAt in
  {| alertsSoFar :=
       alertsSoFar st ++
       [{| alertId := entityId entity;
           Schema.alertType := alertType;
           title := headerText;
           description := trim descriptionText;
           Schema.affectedLines := affectedLines;
           Schema.affectedStations := nonEmpty affectedStations;
           postedAt := postedAt;
           expiresAt := expiresAt |}];
     detected :=
       {| byStation := byStation equipment;
          elevators := elevators (detected st) + elevators equipment;
          escalators := escalators (detected st) + escalators equipment |} |}.

(** The [return { fetchedAt, systemId, summary, alerts, outagesByStation }]
    both pipelines end with; [nowIso] is [new Date().toISOString()]. *)
Definition assemble (systemId nowIso : jsstring) (st : Assembled)
  : IncidentData :=
  {| fetchedAt := nowIso;
     Schema.systemId := systemId;
     summary :=
       {| totalOutages := elevators (detected st) + escalators (detected st);
          elevatorOutages := elevators (detected st);
          escalatorOutages := escalators (detected st);
          stationsAffected :=
            Z.of_nat (length (objKeys (byStation (detected st))));
          activeAlerts := Some (Z.of_nat (length (alertsSoFar st))) |};
     alerts := Some (alertsSoFar st);
     outagesByStation := byStation (detected st) |}.

(** A [for] loop whose body may throw. *)
Fixpoint forEach {S X} (body : S -> X -> Outcome S) (items : list X) (st : S)
  : Outcome S :=
  match items with
  | [] => Returned st
  | x :: rest =>
      match body st x with
      | Returned st' => forEach body rest st'
      | Threw e => Threw e
      end
  end.

Section WithHost.
Context `{StringBuiltins} `{RegExpBuiltins}.

(** The affected lines of a Sound Transit alert. *)
Definition soundTransitLines (informed : list InformedEntity)
  : list jsstring :=
  fold_left
    (fun affectedLines ie =>
       if bool_decide (routeId ie = []) then affectedLines
       else match lookupTruthy (routeId ie) (recordOf SOUND_TRANSIT_ROUTES) with
            | Some lineId => pushNew affectedLines lineId
            | None => affectedLines
            end)
    informed [].

(** The body of the loop of [fetchSoundTransitIncidents]. *)
Definition soundTransitStep (st : Assembled) (entity : FeedEntity)
  : Outcome Assembled :=
  match alert entity with
  | None => Returned st
  | Some alert =>
      let headerText := textOr (headerTextOf alert) (js "Service Alert") in
      let descriptionText := textOr (descriptionTextOf alert) [] in
      let fullText := headerText ++ [SPACE] ++ descriptionText in
      let alertType := mapGtfsEffect (effect alert) in
      let affectedLines := soundTransitLines (informedEntity alert) in
      let affectedStations :=
        findStationsInTextByPattern fullText
          (patternsOf SOUND_TRANSIT_STATION_PATTERNS) in
      match postedAtOf alert with
      | Threw e => Threw e
      | Returned postedAt =>
          match expiresAtOf alert with
          | Threw e => Threw e
          | Returned expiresAt =>
              Returned (record st entity alertType headerText descriptionText
                          (nonEmpty affectedLines) affectedStations
                          postedAt expiresAt)
          end
      end
  end.

(** [fetchSoundTransitIncidents]; [feed] is what [fetchGtfsRtFeed] gave
    ([feed.entity || []] when there is one). *)
Definition fetchSoundTransitIncidents (feed : option (list FeedEntity))
    (nowIso : jsstring) : Outcome (option IncidentData) :=
  match feed with
  | None => Returned None
  | Some entities =>
      match forEach soundTransitStep entities emptyAssembled with
      | Returned st => Returned (Some (assemble (js "sound-transit") nowIso st))
      | Threw e => Threw e
      end
  end.

(** The stations of a Baltimore alert: the mapped stop ids first, then the
    stations found in the text. *)
Definition baltimoreStations (stopMapping : list (list N * list N))
    (stationPatterns : list StationPattern)
    (informed : list InformedEntity) (fullText : jsstring) : list jsstring :=
  let fromStops :=
    fold_left
      (fun affectedStations ie =>
         if bool_decide (stopId ie = []) then affectedStations
         else match lookupTruthy (stopId ie) stopMapping with
              | Some stationId => pushNew affectedStations stationId
              | None => affectedStations
              end)
      informed [] in
  fold_left pushNew (findStationsInTextByPattern fullText stationPatterns)
    fromStops.

(** The body of the loop of [fetchBaltimoreIncidents]. *)
Definition baltimoreStep (targetRouteId : jsstring)
    (stopMapping : list (list N * list N))
    (stationPatterns : list StationPattern) (lineId : jsstring)
    (st : Assembled) (entity : FeedEntity) : Outcome Assembled :=
  match alert entity with
  | None => Returned st
  | Some alert =>
      let informedEntities := informedEntity alert in
      let isRelevant :=
        existsb (fun ie => bool_decide (routeId ie = targetRouteId))
          informedEntities in
      if negb isRelevant then Returned st
      else
        let headerText := textOr (headerTextOf alert) (js "Service Alert") in
        let descriptionText := textOr (descriptionTextOf alert) [] in
        let fullText := headerText ++ [SPACE] ++ descriptionText in
        let alertType := mapGtfsEffect (effect alert) in
        match postedAtOf alert with
        | Threw e => Threw e
        | Returned postedAt =>
            match expiresAtOf alert with
            | Threw e => Threw e
            | Returned expiresAt =>
                let affectedStations :=
                  baltimoreStations stopMapping stationPatterns
                    informedEntities fullText in
                Returned (record st entity alertType headerText
                            descriptionText (Some [lineId]) affectedStations
                            postedAt expiresAt)
            end
        end
  end.

(** [fetchBaltimoreIncidents]; [feed] is what [fetchMtaMarylandFeed] gave. *)
Definition fetchBaltimoreIncidents (systemId targetRouteId : jsstring)
    (stopMapping : list (list N * list N))
    (stationPatterns : list StationPattern) (lineId : jsstring)
    (feed : option (list FeedEntity)) (nowIso : jsstring)
  : Outcome (option IncidentData) :=
  match feed with
  | None => Returned None
  | Some entities =>
      match forEach (baltimoreStep targetRouteId stopMapping stationPatterns
                       lineId) entities emptyAssembled with
      | Returned st => Returned (Some (assemble systemId nowIso st))
      | Threw e => Threw e
      end
  end.

Definition fetchBaltimoreMetroIncidents :=
  fetchBaltimoreIncidents (js "baltimore-metro") MTA_MARYLAND_METRO_ROUTE
    (recordOf BALTIMORE_METRO_STOPS)
    (patternsOf BALTIMORE_METRO_STATION_PATTERNS) (js "metro").

Definition fetchBaltimoreLightRailIncidents :=
  fetchBaltimoreIncidents (js "baltimore-light-rail")
    MTA_MARYLAND_LIGHT_RAIL_ROUTE (recordOf BALTIMORE_LIGHT_RAIL_STOPS)
    (patternsOf BALTIMORE_LIGHT_RAIL_STATION_PATTERNS) (js "main-line").

End WithHost.

End GtfsRt.

(** ** CSV reading of the batch matcher ([scripts/generate-nyc-entrances.ts]) *)

Module Csv.
Import BatchMatch.

Definition QUOTE : N := 34.
Definition COMMA : N := 44.
Definition LINEFEED : N := 10.

(** The local variables of [splitCsvLine]. *)
Record Splitting := {
  fields : list jsstring;
  current : jsstring;
  inQuotes : bool
}.

(** One iteration of [for (let i = 0; i < line.length; i++)]. *)
Definition splitStep (st : Splitting) (ch : N) : Splitting :=
  if ch =? QUOTE then
    {| fields := fields st; current := current st;
       inQuotes := negb (inQuotes st) |}
  else if (ch =? COMMA) && negb (inQuotes st) then
    {| fields := fields st ++ [current st]; current := [];
       inQuotes := inQuotes st |}
  else
    {| fields := fields st; current := current st ++ [ch];
       inQuotes := inQuotes st |}.

Definition splitCsvLine (line : jsstring) : list jsstring :=
  let st := fold_left splitStep line
              {| fields := []; current := []; inQuotes := false |} in
  fields st ++ [current st].

(** [String.prototype.split(/\s+/)]: the pieces between the maximal runs of
    white space; [inRun] says that the unit before was white space. *)
Fixpoint splitRunsFrom (inRun : bool) (s : jsstring) : list jsstring :=
  match s with
  | [] => [[]]
  | c :: t =>
      if isSpace c then
        if inRun then splitRunsFrom true t else [] :: splitRunsFrom true t
      else
        match splitRunsFrom false t with
        | [] => [[c]]
        | h :: r => (c :: h) :: r
        end
  end.

Definition splitRuns (s : jsstring) : list jsstring := splitRunsFrom false s.

(** [parseFloat] of the host. *)
Class NumberBuiltins := { parseFloat : jsstring -> float }.

(** [isNaN] of a number. *)
Definition isNaN (x : float) : bool := negb (PrimFloat.eqb x x).

Section WithHost.
Context `{NumberBuiltins}.

(** The body of the loop of [parseCsv] for one line of the file; [None]
    is a [continue]. *)
Definition parseLine (rawLine : jsstring) : option CsvRow :=
  let line := trim rawLine in
  if bool_decide (line = []) then None
  else
    let fields := splitCsvLine line in
    if (length fields <? 14)%nat then None
    else
      let field i := nth i fields [] in
      let lat := parseFloat (field 12%nat) in
      let lng := parseFloat (field 13%nat) in
      if isNaN lat || isNaN lng then None
      else
        Some {| division := field 0%nat;
                constituentStationName := field 5%nat;
                gtfsStopId := field 7%nat;
                daytimeRoutes :=
                  List.filter (fun r => (0 <? length r)%nat)
                    (splitRuns (field 8%nat));
                entranceType := field 9%nat;
                entryAllowed := bool_decide (field 10%nat = js "YES");
                exitAllowed := bool_decide (field 11%nat = js "YES");
                rowLat := lat;
                rowLng := lng |}.

(** [parseCsv]: the first line is the header and is skipped. *)
Definition parseCsv (raw : jsstring) : list CsvRow :=
  omap parseLine (tail (splitOn LINEFEED raw)).

End WithHost.

End Csv.

(** ** Matching the CSV rows to stations (steps 4 and 5 of [main]) *)

Module RowMatching.
Import Normalize BatchMatch.

(** CSV normalized name to the normalized name of the station data. *)
Definition NAME_ALIASES : list (string * string) :=
  [
    ("astor pl", "astor place");
    ("christopher st stonewall", "christopher st sheridan sq");
    ("w 4 st wash sq", "west 4 st washington sq");
    ("w 8 st ny aquarium", "west 8 st ny aquarium");
    ("42 st bryant pk", "42 st bryant park");
    ("82 st jackson hts", "82 st jackson heights");
    ("crown hts utica av", "crown heights utica av");
    ("west farms sq e tremont av", "west farms sq east tremont av");
    ("westchester sq e tremont av", "westchester sq east tremont av");
    ("aqueduct n conduit av", "aqueduct north conduit av");
    ("e 143 st st mary's st", "east 143 st st mary's st");
    ("e 149 st", "east 149 st");
    ("e 180 st", "east 180 st");
    ("beverley rd", "beverly rd");
    ("86 street", "86 st");
    ("34 st herald square", "34 st herald sq");
    ("bedford park blvd lehman college", "bedford park blvd");
    ("168 st washington hts", "168 st");
    ("23 st baruch college", "23 st");
    ("110 st malcolm x plaza", "110 st");
    ("1 av", "first av");
    ("3 av", "third av");
    ("6 av", "sixth av");
    ("39 av dutch kills", "39 av");
    ("207 st", "inwood 207 st");
    ("cathedral pkwy", "cathedral pkwy 110 st");
    ("park pl", "park place");
    ("myrtle av", "myrtle av broadway");
    ("74 st broadway", "jackson hts roosevelt av");
    ("court sq 23 st", "court sq");
    ("sutphin blvd archer av jfk airport", "sutphin blvd archer av jfk");
    ("bleecker st", "bleecker st broadway lafayette st");
    ("broadway lafayette st", "bleecker st broadway lafayette st")
  ]%string.

(** [if (NAME_ALIASES[norm]) norm = NAME_ALIASES[norm]]. *)
Definition applyAlias (norm : jsstring) : jsstring :=
  match objGet norm (List.map (fun kv => (js kv.1, js kv.2)) NAME_ALIASES) with
  | Some (c :: t) => c :: t
  | _ => norm
  end.

(** [entrancesByStationId], a [Map], as its entries in insertion order,
    and the [unmatched] rows. *)
Record Matching := {
  entrancesByStationId : list (jsstring * list CsvRow);
  unmatched : list CsvRow
}.

Section WithHost.
Context `{StringBuiltins} `{MathBuiltins}.

(** One iteration of [for (const row of filteredRows)].  The candidate
    choice answers for every non-empty candidate list
    ([chooseStation_total]), so its [None] does not occur in the second
    branch. *)
Definition matchStep (stationIndex : gmap (list N) (list Station))
    (st : Matching) (row : CsvRow) : Matching :=
  let norm := applyAlias (normalizeName (constituentStationName row)) in
  let miss := {| entrancesByStationId := entrancesByStationId st;
                 unmatched := unmatched st ++ [row] |} in
  match stationIndex !! norm with
  | None | Some [] => miss
  | Some candidates =>
      match chooseStation row candidates with
      | Some bestStation =>
          {| entrancesByStationId :=
               objPush (id bestStation) row
                 (objEnsure (id bestStation) (entrancesByStationId st));
             unmatched := unmatched st |}
      | None => miss
      end
  end.

(** Steps 4 and 5: the rows of the Staten Island Railway are dropped, the
    others are matched one by one. *)
Definition matchRows (stationIndex : gmap (list N) (list Station))
    (csvRows : list CsvRow) : Matching :=
  let filteredRows :=
    List.filter (fun r => negb (includes (js "SIR") (division r))) csvRows in
  fold_left (matchStep stationIndex) filteredRows
    {| entrancesByStationId := []; unmatched := [] |}.

End WithHost.

End RowMatching.

(** ** Linking stations to GTFS stops (step 8 of [main]) *)

Module StopLink.
Import BatchMatch.
Local Open Scope Z_scope.

(** [idCounts], a [Map], as its entries in insertion order: setting a key
    again keeps its place, and a [Map] has no inherited keys.

    [if (id) idCounts.set(id, (idCounts.get(id) || 0) + 1)]. *)
Definition tallyStep (idCounts : list (jsstring * Z)) (row : CsvRow)
  : list (jsstring * Z) :=
  let id := gtfsStopId row in
  if bool_decide (id = []) then idCounts
  else objSet id (default 0 (objGet id idCounts) + 1) idCounts.

(** [if (count > bestCount) { bestCount = count; bestId = id; }]. *)
Definition pickStep (best : jsstring * Z) (entry : jsstring * Z)
  : jsstring * Z :=
  if best.2 <? entry.2 then entry else best.

(** The GTFS stop id stored for a station with the matched [rows]; [None]
    when [bestId] stays empty and nothing is stored. *)
Definition mostCommonStopId (rows : list CsvRow) : option jsstring :=
  let idCounts := fold_left tallyStep rows [] in
  let best := fold_left pickStep idCounts ([], 0) in
  if bool_decide (best.1 = []) then None else Some best.1.

End StopLink.

(** ** Building the entrances of a station (step 7 of [main]) *)

From Stdlib Require DecimalString DecimalNat.

Module Entrances.
Import BatchMatch Csv.

Record AccessibilityInfo := {
  accessibility : list jsstring;
  wheelchair : bool
}.

Definition ENTRANCE_TYPE_MAP : list (string * (list string * bool)) :=
  [ ("Stair", (["stairs-only"], false));
    ("Elevator", (["elevator"], true));
    ("Escalator", (["escalator"], false));
    ("Stair/Escalator", (["escalator"], false));
    ("Ramp", (["stairs-only"], true));
    ("Stair/Ramp", (["stairs-only"], true));
    ("Stair/Ramp/Walkway", (["stairs-only"], true));
    ("Easement - Street", (["stairs-only"], false));
    ("Easement - Passage", (["stairs-only"], false));
    ("Station House", (["stairs-only"], false));
    ("Walkway", (["stairs-only"], false));
    ("Overpass", (["stairs-only"], false));
    ("Underpass", (["stairs-only"], false)) ]%string.

(** [ENTRANCE_TYPE_MAP[type] || { accessibility: ["stairs-only"],
    wheelchair: false }]. *)
Definition accessInfoOf (type : jsstring) : AccessibilityInfo :=
  match objGet type
          (List.map (fun kv => (js kv.1, kv.2)) ENTRANCE_TYPE_MAP) with
  | Some (tags, chair) =>
      {| accessibility := List.map js tags; wheelchair := chair |}
  | None =>
      {| accessibility := [js "stairs-only"]; wheelchair := false |}
  end.

Record StationEntrance := {
  entranceId : jsstring;
  entranceName : jsstring;
  entranceCoordinates : Coordinates;
  entranceAccessibility : list jsstring;
  entranceWheelchair : bool
}.

(** What a template literal prints for a non-negative integer. *)
Definition decimal (n : nat) : jsstring :=
  js (DecimalString.NilEmpty.string_of_uint (Nat.to_uint n)).

(** [Number.prototype.toFixed] of the host. *)
Class NumberFormat := { toFixed : float -> nat -> jsstring }.

(** The local variables of the loop over the rows of one station. *)
Record Building := {
  entrances : list StationEntrance;
  typeCounts : JsObject nat
}.

Section WithHost.
Context `{NumberBuiltins} `{NumberFormat}.

(** One iteration of [for (const row of rows)]. *)
Definition entranceStep (stationId : jsstring) (st : Building)
    (row : CsvRow) : Building :=
  let type := entranceType row in
  let n := (default 0 (objGet type (typeCounts st)) + 1)%nat in
  let accessInfo := accessInfoOf type in
  let name0 := type ++ [SPACE] ++ decimal n in
  let name1 :=
    if entryAllowed row then name0 else name0 ++ js " (exit only)" in
  let name2 :=
    if exitAllowed row then name1 else name1 ++ js " (entry only)" in
  {| entrances :=
       entrances st ++
       [{| entranceId :=
             stationId ++ [45] ++ decimal (length (entrances st) + 1);
           entranceName := name2;
           entranceCoordinates :=
             {| lat := parseFloat (toFixed (rowLat row) 7);
                lng := parseFloat (toFixed (rowLng row) 7) |};
           entranceAccessibility := accessibility accessInfo;
           entranceWheelchair := wheelchair accessInfo |}];
     typeCounts := objSet type n (typeCounts st) |}.

(** The [entrances] a station gets from its matched rows; [None] when it
    has no rows and is skipped. *)
Definition buildEntrances (stationId : jsstring) (rows : list CsvRow)
  : option (list StationEntrance) :=
  match rows with
  | [] => None
  | _ =>
      Some (entrances
              (fold_left (entranceStep stationId) rows
                 {| entrances := []; typeCounts := [] |}))
  end.

End WithHost.

End Entrances.

(** ** The incidents API route
       ([src/app/api/systems/[system]/incidents/route.ts]) *)

Module ApiRoute.
Import Aggregator.
Local Open Scope Z_scope.

(** The JSON bodies the handler sends. *)
Inductive Body :=
| DataBody (data : IncidentData)                (* [{ data: incidents }] *)
| NoDataBody (message : jsstring)               (* [{ data: null, message }] *)
| ErrorBody (error : jsstring).                 (* [{ error }] *)

Record NextResponse := {
  httpStatus : Z;
  jsonBody : Body
}.

Section WithUpstream.
Context `{Upstream}.

(** [GET]; [params] is what [await params] gives.  Everything is inside
    one [try], so the handler itself never throws. *)
Definition GET (params : Outcome jsstring) (w : World)
  : NextResponse * World :=
  let failed :=
    {| httpStatus := 500;
       jsonBody := ErrorBody (js "Failed to fetch incidents") |} in
  match params with
  | Threw _ => (failed, w)
  | Returned systemId =>
      match getIncidents systemId w with
      | (Returned None, w') =>
          ({| httpStatus := 200;
              jsonBody :=
                NoDataBody
                  (js "No incident data available for this system") |}, w')
      | (Returned (Some incidents), w') =>
          ({| httpStatus := 200; jsonBody := DataBody incidents |}, w')
      | (Threw _, w') => (failed, w')
      end
  end.

End WithUpstream.

End ApiRoute.

(** ** The NYC Subway pipeline ([fetchNycSubwayIncidents]) *)

Module NycPipeline.
Import Normalizer NycLive NycIndex Feeds GtfsRt.
Local Open Scope Z_scope.

(** The affected lines of a subway alert. *)
Definition nycLines (informed : list InformedEntity) : list jsstring :=
  fold_left
    (fun affectedLines ie =>
       if bool_decide (routeId ie = []) then affectedLines
       else match mapNycRouteId (routeId ie) with
            | Some (c :: t) => pushNew affectedLines (c :: t)
            | _ => affectedLines
            end)
    informed [].

(** The body of the loop over [feed.entity]. *)
Definition nycAlertStep (alerts : list ServiceAlert) (entity : FeedEntity)
  : Outcome (list ServiceAlert) :=
  match alert entity with
  | None => Returned alerts
  | Some alert =>
      let isSubway :=
        existsb (fun ie => bool_decide (agencyId ie = js "MTASBWY"))
          (informedEntity alert) in
      if negb isSubway then Returned alerts
      else
        let headerText := textOr (headerTextOf alert) (js "Service Alert") in
        let descriptionText := textOr (descriptionTextOf alert) [] in
        let alertType := mapGtfsEffect (effect alert) in
        let affectedLines := nycLines (informedEntity alert) in
        match postedAtOf alert with
        | Threw e => Threw e
        | Returned postedAt =>
            match expiresAtOf alert with
            | Threw e => Threw e
            | Returned expiresAt =>
                Returned
                  (alerts ++
                   [{| alertId := entityId entity;
                       Schema.alertType := alertType;
                       title := headerText;
                       description := trim descriptionText;
                       Schema.affectedLines := nonEmpty affectedLines;
                       Schema.affectedStations := None;
                       postedAt := postedAt;
                       expiresAt := expiresAt |}])
            end
        end
  end.

Section WithHost.
Context `{StringBuiltins} `{ClockBuiltins}.

(** The [return { fetchedAt, systemId, summary, alerts, outagesByStation }]
    of the pipeline. *)
Definition nycReport (alerts : list ServiceAlert) (st : EneState)
  : IncidentData :=
  {| fetchedAt := isoAt (readings st);
     Schema.systemId := js "nyc-subway";
     summary :=
       {| totalOutages := elevators (found st) + escalators (found st);
          elevatorOutages := elevators (found st);
          escalatorOutages := escalators (found st);
          stationsAffected :=
            Z.of_nat (length (objKeys (byStation (found st))));
          activeAlerts := Some (Z.of_nat (length alerts)) |};
     Schema.alerts := Some alerts;
     outagesByStation := byStation (found st) |}.

(** [fetchNycSubwayIncidents].  [feed] is what [fetchGtfsRtFeed] gave,
    [eneResponse] what the [fetch] of the outage feed gave (its body is the
    parsed JSON, [None] for [null]), [cached] the module variable
    [nycStationIndex], [stations] what [getStations] gives when awaited and
    [readingsBefore] the number of clock readings of the alert loop.  The
    whole body is inside one [try]: every exception gives [null].  The
    result comes with the new value of [nycStationIndex]. *)
Definition fetchNycSubwayIncidents
    (feed : option (list FeedEntity))
    (eneResponse : Outcome (HttpReply (option (list NycSubwayEneOutage))))
    (cached : option (gmap (list N) (list Candidate)))
    (stations : Outcome (list Station)) (readingsBefore : nat)
  : option IncidentData * option (gmap (list N) (list Candidate)) :=
  match eneResponse with
  | Threw _ => (None, cached)
  | Returned response =>
      match forEach nycAlertStep (default [] feed) [] with
      | Threw _ => (None, cached)
      | Returned alerts =>
          let start :=
            {| found := {| byStation := []; elevators := 0;
                           escalators := 0 |};
               readings := readingsBefore |} in
          if replyOk response then
            match replyBody response with
            | Threw _ => (None, cached)
            | Returned eneData =>
                match getNycStationIndex cached stations with
                | (Threw _, cached') => (None, cached')
                | (Returned stationIndex, cached') =>
                    (Some (nycReport alerts
                             (processEneOutages stationIndex start
                                (default [] eneData))),
                     cached')
                end
            end
          else (Some (nycReport alerts start), cached)
      end
  end.

End WithHost.

End NycPipeline.

(** ** The incidents worker ([workers/incidents/src/index.ts]) *)

Module Worker.
Local Open Scope Z_scope.

Record Request := {
  method : jsstring;
  pathname : jsstring                (* [new URL(request.url).pathname] *)
}.

(** What the handler finds around it: what the two KV reads give when they
    are awaited (the store holds what the refresh functions put there, or
    nothing) and what the two refresh functions give when they are awaited. *)
Record Env := {
  wmataStored : Outcome (option IncidentData);
  tokyoStored : Outcome (option IncidentData);
  wmataRefresh : Outcome IncidentData;
  tokyoRefresh : Outcome IncidentData
}.

(** The value that is passed to [JSON.stringify] for the response body. *)
Inductive Payload :=
| Empty                                       (* [new Response(null)] *)
| Failure (error : jsstring)                  (* [{ error }] with a fixed text *)
| Thrown (e : JsError)                        (* [{ error: error.message }] *)
| Stored (data : IncidentData)
| Outages (outages : list UnitOutage)
| RefreshedAll (success : bool) (wmata tokyo : Outcome Summary)
| Refreshed (summary : Summary).              (* [{ success: true, summary }] *)

Record Response := {
  status : Z;
  payload : Payload
}.

(** [pathname.match(/^prefix([class]+)$/)]: the captured group. *)
Definition capture (prefix : jsstring) (inClass : N -> bool)
    (path : jsstring) : option jsstring :=
  if startsWith prefix path then
    let rest := drop (length prefix) path in
    if negb (bool_decide (rest = [])) && forallb inClass rest
    then Some rest else None
  else None.

Definition isLower (c : N) : bool := ((97 <=? c) && (c <=? 122))%N.
Definition isDigit (c : N) : bool := ((48 <=? c) && (c <=? 57))%N.
Definition isHyphen (c : N) : bool := (c =? 45)%N.

(** The two [GET /incidents/<system>] branches. *)
Definition serveStored (stored : Outcome (option IncidentData))
  : Outcome Response :=
  match stored with
  | Threw e => Threw e
  | Returned None =>
      Returned {| status := 404;
                  payload := Failure (js "No incident data available") |}
  | Returned (Some data) =>
      Returned {| status := 200; payload := Stored data |}
  end.

(** One branch of [POST /refresh/:systemId], inside its [try]. *)
Definition refreshOne (refreshed : Outcome IncidentData) : Response :=
  match refreshed with
  | Returned result =>
      {| status := 200; payload := Refreshed (summary result) |}
  | Threw e => {| status := 500; payload := Thrown e |}
  end.

Definition summaryOf (settled : Outcome IncidentData) : Outcome Summary :=
  match settled with
  | Returned result => Returned (summary result)
  | Threw e => Threw e
  end.

Definition fulfilled {A} (settled : Outcome A) : bool :=
  match settled with
  | Returned _ => true
  | Threw _ => false
  end.

(** [fetch]: a [Threw] is a rejection of the handler's promise.  The
    branches are tried in the order of the source; [notFound] is the final
    [return]. *)
Definition fetch (request : Request) (env : Env) : Outcome Response :=
  let isGet := bool_decide (method request = js "GET") in
  let isPost := bool_decide (method request = js "POST") in
  let path := pathname request in
  let notFound :=
    Returned {| status := 404; payload := Failure (js "Not found") |} in
  let refreshBranches :=
    if bool_decide (path = js "/refresh") && isPost then
      let allSucceeded :=
        fulfilled (wmataRefresh env) && fulfilled (tokyoRefresh env) in
      Returned
        {| status := if allSucceeded then 200 else 207;
           payload :=
             RefreshedAll allSucceeded (summaryOf (wmataRefresh env))
               (summaryOf (tokyoRefresh env)) |}
    else
      match capture (js "/refresh/") (fun c => isLower c || isHyphen c) path,
            isPost with
      | Some systemId, true =>
          if bool_decide (systemId = js "wmata")
          then Returned (refreshOne (wmataRefresh env))
          else if bool_decide (systemId = js "tokyo-metro")
          then Returned (refreshOne (tokyoRefresh env))
          else
            Returned
              {| status := 404;
                 payload := Failure (js "Unknown system: " ++ systemId) |}
      | _, _ => notFound
      end in
  if bool_decide (method request = js "OPTIONS") then
    Returned {| status := 200; payload := Empty |}
  else if bool_decide (path = js "/incidents/wmata") && isGet then
    serveStored (wmataStored env)
  else
    match capture (js "/incidents/wmata/")
            (fun c => isLower c || isDigit c || isHyphen c) path,
          isGet with
    | Some stationId, true =>
        match wmataStored env with
        | Threw e => Threw e
        | Returned None =>
            Returned {| status := 200; payload := Outages [] |}
        | Returned (Some data) =>
            Returned
              {| status := 200;
                 payload :=
                   Outages (default []
                              (objGet stationId (outagesByStation data))) |}
        end
    | _, _ =>
        if bool_decide (path = js "/incidents/tokyo-metro") && isGet then
          serveStored (tokyoStored env)
        else refreshBranches
    end.

End Worker.

(** ** Views of the data used to state properties *)

Module Views.
Import OwnKeys Wmata Aggregator NycLive NycIndex Feeds.
Local Open Scope Z_scope.

(** Number of stored entries that satisfy [p]. *)
Definition countWhere {V} (p : V -> bool) (o : list (list N * list V)) : nat :=
  length (List.filter p (concat (objValues o))).

(** Does the incident's station code map to [stationId]? *)
Definition atStation (stationId : jsstring) (incident : WMATAIncident) : bool :=
  bool_decide (stationOfCode (StationCode incident) = Some stationId).

(** The station ids of the incidents with a known code, in input order. *)
Definition stationsOf (incidents : list WMATAIncident) : list jsstring :=
  omap (fun i => stationOfCode (StationCode i)) incidents.

(** No station code is the name of a member of [Object.prototype]. *)
Definition plainCodes (incidents : list WMATAIncident) : bool :=
  forallb (fun i => plainKey (StationCode i)) incidents.

Definition isElevator (o : UnitOutage) : bool :=
  bool_decide (unitType o = js "elevator").

(** What a key holds after more entries were filed under it. *)
Definition extended {V} (old : option (list V)) (more : list V)
  : option (list V) :=
  match old, more with
  | None, [] => None
  | _, _ => Some (default [] old ++ more)
  end.

(** The pipeline behind each supported system id. *)
Definition pipelineOf (systemId : jsstring) : option Pipeline :=
  if bool_decide (systemId = js "bart") then Some fetchBartIncidents
  else if bool_decide (systemId = js "wmata")
       then Some Aggregator.fetchWmataIncidents
  else if bool_decide (systemId = js "sound-transit")
       then Some fetchSoundTransitIncidents
  else if bool_decide (systemId = js "nyc-subway")
       then Some fetchNycSubwayIncidents
  else if bool_decide (systemId = js "baltimore-metro")
       then Some fetchBaltimoreMetroIncidents
  else if bool_decide (systemId = js "baltimore-light-rail")
       then Some fetchBaltimoreLightRailIncidents
  else if bool_decide (systemId = js "tokyo-metro")
       then Some Aggregator.fetchTokyoMetroIncidents
  else None.

(** Is the station active and filed under the key [k]? *)
Definition filedUnder `{StringBuiltins} (k : jsstring) (s : Station) : bool :=
  bool_decide (status s = js "active")
  && bool_decide (Normalize.normalizeStationName (name s) = k).

(** Does the outage loop keep the record: not upcoming, name in the index? *)
Definition kept `{StringBuiltins} (index : gmap (list N) (list Candidate))
    (outage : NycSubwayEneOutage) : bool :=
  negb (bool_decide (isupcomingoutage outage = js "Y"))
  && match index !! Normalize.normalizeStationName (station outage) with
     | Some (_ :: _) => true
     | _ => false
     end.

Definition isEL (outage : NycSubwayEneOutage) : bool :=
  bool_decide (equipmenttype outage = js "EL").

(** The trains an outage record names are not names of members of
    [Object.prototype]. *)
Definition plainTrains (trainno : jsstring) : bool :=
  forallb plainKey (List.map trim (splitOn 47 trainno)).

(** Neither are the station ids of the index. *)
Definition PlainIndex (index : gmap (list N) (list Candidate)) : Prop :=
  forall k candidates c,
    index !! k = Some candidates -> c ∈ candidates ->
    plainKey (NycLive.id c) = true.

(** The same world at another time. *)
Definition setFeedClock {F} (now : Z) (w : FeedWorld F) : FeedWorld F :=
  {| mtaMarylandFeedCache := mtaMarylandFeedCache w;
     feedClock := now;
     downloads := downloads w |}.

(** How many of the rows carry the GTFS stop id [id]. *)
Definition timesIn (id : jsstring) (rows : list BatchMatch.CsvRow) : nat :=
  length (List.filter
            (fun row => bool_decide (BatchMatch.gtfsStopId row = id)) rows).

(** A counter after [n] more sightings. *)
Definition bumped (old : option Z) (n : nat) : option Z :=
  match n with
  | O => old
  | S _ => Some (default 0 old + Z.of_nat n)
  end.

(** How many of the first [i + 1] rows have the entrance type of [row]. *)
Definition sameTypeUpTo (rows : list BatchMatch.CsvRow) (i : nat)
    (row : BatchMatch.CsvRow) : nat :=
  length (List.filter
            (fun r => bool_decide (BatchMatch.entranceType r
                                   = BatchMatch.entranceType row))
            (take (S i) rows)).

(** The entrance built for the row at position [i], the [n]-th of its
    type, of the station [stationId]. *)
Definition entranceAt `{Csv.NumberBuiltins} `{Entrances.NumberFormat}
    (stationId : jsstring) (i n : nat) (row : BatchMatch.CsvRow)
  : Entrances.StationEntrance :=
  {| Entrances.entranceId := stationId ++ [45%N] ++ Entrances.decimal (S i);
     Entrances.entranceName :=
       BatchMatch.entranceType row ++ [SPACE] ++ Entrances.decimal n
       ++ (if BatchMatch.entryAllowed row then [] else js " (exit only)")
       ++ (if BatchMatch.exitAllowed row then [] else js " (entry only)");
     Entrances.entranceCoordinates :=
       {| BatchMatch.lat :=
            Csv.parseFloat (Entrances.toFixed (BatchMatch.rowLat row) 7);
          BatchMatch.lng :=
            Csv.parseFloat (Entrances.toFixed (BatchMatch.rowLng row) 7) |};
     Entrances.entranceAccessibility :=
       Entrances.accessibility
         (Entrances.accessInfoOf (BatchMatch.entranceType row));
     Entrances.entranceWheelchair :=
       Entrances.wheelchair
         (Entrances.accessInfoOf (BatchMatch.entranceType row)) |}.

(** The id of the station the batch matcher files a row under, if any. *)
Definition filedAt `{StringBuiltins} `{BatchMatch.MathBuiltins}
    (stationIndex : gmap (list N) (list BatchMatch.Station))
    (row : BatchMatch.CsvRow) : option jsstring :=
  match stationIndex
        !! RowMatching.applyAlias
             (Normalize.normalizeName
                (BatchMatch.constituentStationName row)) with
  | Some (c :: candidates) =>
      BatchMatch.id <$> BatchMatch.chooseStation row (c :: candidates)
  | _ => None
  end.

(** The rows that steps 4 and 5 of the batch matcher look at. *)
Definition notSir (row : BatchMatch.CsvRow) : bool :=
  negb (includes (js "SIR") (BatchMatch.division row)).

(** The names and routes of the rows are not names of members of
    [Object.prototype]. *)
Definition plainRows `{StringBuiltins} (rows : list BatchMatch.CsvRow)
  : bool :=
  forallb
    (fun row =>
       plainKey (Normalize.normalizeName
                   (BatchMatch.constituentStationName row))
       && forallb plainKey (BatchMatch.daytimeRoutes row))
    rows.

(** [Array.prototype.join] with a one-unit separator. *)
Fixpoint joinWith (sep : N) (parts : list jsstring) : jsstring :=
  match parts with
  | [] => []
  | [only] => only
  | first :: rest => first ++ sep :: joinWith sep rest
  end.

End Views.

(** ** Views of a GTFS-Realtime feed used to state properties *)

Module GtfsViews.
Import OwnKeys Normalizer TextMatch GtfsTables GtfsRt.

(** Whether a pipeline reports an entity: it has an alert and, for a
    pipeline with a target route, an informed entity names that route. *)
Definition processed (target : option jsstring) (entity : FeedEntity) : bool :=
  match alert entity with
  | None => false
  | Some a =>
      match target with
      | None => true
      | Some route =>
          existsb (fun ie => bool_decide (routeId ie = route))
            (informedEntity a)
      end
  end.

(** Whether converting one of the alert's time stamps throws. *)
Definition badTimes (entity : FeedEntity) : bool :=
  match alert entity with
  | None => false
  | Some a =>
      match postedAtOf a, expiresAtOf a with
      | Returned _, Returned _ => false
      | _, _ => true
      end
  end.

(** The route and stop ids of the feed are not names of members of
    [Object.prototype]. *)
Definition plainFeed (entities : list FeedEntity) : bool :=
  forallb
    (fun entity =>
       match alert entity with
       | None => true
       | Some a =>
           forallb (fun ie => plainKey (routeId ie) && plainKey (stopId ie))
             (informedEntity a)
       end)
    entities.

(** What an alert of the result takes over from the entity it reports. *)
Definition reports (line : option jsstring) (al : ServiceAlert)
    (entity : FeedEntity) : Prop :=
  alertId al = entityId entity
  /\ exists a,
       alert entity = Some a
       /\ alertType al = mapGtfsEffect (effect a)
       /\ title al = textOr (headerTextOf a) (js "Service Alert")
       /\ description al = trim (textOr (descriptionTextOf a) [])
       /\ postedAtOf a = Returned (postedAt al)
       /\ expiresAtOf a = Returned (expiresAt al)
       /\ match line with
          | Some lineId => affectedLines al = Some [lineId]
          | None => True
          end.

(** The bookkeeping of a pipeline agrees with the dictionary it fills. *)
Definition Consistent (found : Detect) : Prop :=
  (Z.of_nat (Wmata.unitsOf (byStation found))
   = elevators found + escalators found)%Z
  /\ (0 <= elevators found)%Z
  /\ (0 <= escalators found)%Z
  /\ NoDup (objKeys (byStation found))
  /\ Forall (fun kv => kv.2 <> []) (byStation found).

(** A loop body that skips what is not [processed], throws on a bad time
    stamp and otherwise pushes one alert. *)
Definition Step (target line : option jsstring)
    (step : Assembled -> FeedEntity -> Outcome Assembled) : Prop :=
  forall st entity,
    match processed target entity, badTimes entity with
    | false, _ => step st entity = Returned st
    | true, true => exists e, step st entity = Threw e
    | true, false =>
        exists st' al,
          step st entity = Returned st'
          /\ alertsSoFar st' = alertsSoFar st ++ [al]
          /\ reports line al entity
          /\ (Consistent (detected st) -> Consistent (detected st'))
    end.

Section WithHost.
Context `{StringBuiltins} `{RegExpBuiltins}.

(** The three GTFS-Realtime pipelines with the route they filter on and
    the line they report. *)
Definition gtfsPipelines
  : list ((option (list FeedEntity) -> jsstring -> Outcome (option IncidentData))
          * option jsstring * option jsstring) :=
  [ (fetchSoundTransitIncidents, None, None);
    (fetchBaltimoreMetroIncidents,
     Some MTA_MARYLAND_METRO_ROUTE, Some (js "metro"));
    (fetchBaltimoreLightRailIncidents,
     Some MTA_MARYLAND_LIGHT_RAIL_ROUTE, Some (js "main-line")) ].

End WithHost.

End GtfsViews.

(** ** Views of the inputs of the NYC pipeline *)

Module NycViews.
Import OwnKeys NycLive NycIndex Feeds GtfsRt Views GtfsViews.

(** Does the alert loop of the NYC pipeline report the entity? *)
Definition isSubwayAlert (entity : FeedEntity) : bool :=
  match alert entity with
  | None => false
  | Some a =>
      existsb (fun ie => bool_decide (agencyId ie = js "MTASBWY"))
        (informedEntity a)
  end.

(** No route, train or station id that reaches an object literal is the
    name of a member of [Object.prototype]. *)
Definition PlainNycInputs
    (feed : option (list FeedEntity))
    (eneResponse : Outcome (HttpReply (option (list NycSubwayEneOutage))))
    (cached : option (gmap (list N) (list Candidate)))
    (stations : Outcome (list Station)) : Prop :=
  plainFeed (default [] feed) = true
  /\ (forall response eneData,
        eneResponse = Returned response ->
        replyBody response = Returned (Some eneData) ->
        forallb (fun o => plainTrains (trainno o)) eneData = true)
  /\ (forall index, cached = Some index -> PlainIndex index)
  /\ (forall list, stations = Returned list ->
        forallb (fun s => plainKey (stationId s)) list = true).

End NycViews.

(** ** Sample feeds and hosts *)

Module FeedSamples.
Import Samples Normalizer TextMatch Feeds GtfsTables GtfsRt.

(** A small regular-expression host.  It decides the patterns of the
    form [/\bwords\b/i] and [/\bwords/i], where [words] is made of
    lower-case letters and single spaces and starts and ends with a letter,
    as ECMAScript does: a case-insensitive search for [words] that starts,
    and for the first form also ends, at a word boundary.  These are the
    patterns of [BALTIMORE_METRO_STATION_PATTERNS]; it knows no others. *)
Definition isWordChar (c : N) : bool :=
  ((48 <=? c) && (c <=? 57)) || ((65 <=? c) && (c <=? 90)) || (c =? 95)
  || ((97 <=? c) && (c <=? 122)).

Definition lowerAscii (c : N) : N :=
  if (65 <=? c) && (c <=? 90) then c + 32 else c.

Fixpoint matchHere (words text : jsstring) : option jsstring :=
  match words, text with
  | [], _ => Some text
  | _ :: _, [] => None
  | a :: l, c :: t => if lowerAscii c =? a then matchHere l t else None
  end.

Definition boundaryAt (rest : jsstring) : bool :=
  match rest with
  | [] => true
  | c :: _ => negb (isWordChar c)
  end.

Fixpoint searchFrom (words : jsstring) (closing prevWord : bool)
    (text : jsstring) : bool :=
  (negb prevWord
   && match matchHere words text with
      | Some rest => if closing then boundaryAt rest else true
      | None => false
      end)
  || match text with
     | [] => false
     | c :: t => searchFrom words closing (isWordChar c) t
     end.

Definition isLetter (c : N) : bool := (97 <=? c) && (c <=? 122).

Definition plainWords (words : jsstring) : bool :=
  forallb (fun c => isLetter c || (c =? SPACE)) words
  && match words with
     | [] => false
     | c :: _ => isLetter c
     end
  && match rev words with
     | [] => false
     | c :: _ => isLetter c
     end.

Definition wordPatterns : RegExpBuiltins :=
  {| regexTest := fun source text =>
       match js source with
       | 92 :: 98 :: body =>
           match rev body with
           | 98 :: 92 :: sdrow =>
               plainWords (rev sdrow) && searchFrom (rev sdrow) true false text
           | _ => plainWords body && searchFrom body false false text
           end
       | _ => false
       end |}.

(** A clock that stands still. *)
Definition stoppedClock : NycIndex.ClockBuiltins :=
  {| NycIndex.isoAt := fun _ => js "2026-01-05T12:00:00.000Z" |}.

Definition noon : jsstring := js "2026-01-05T12:00:00.000Z".

(** An elevator outage at Upton (stop s0009) on the Metro route. *)
Definition uptonElevator : FeedEntity :=
  {| entityId := js "alert-1";
     alert :=
       Some {| headerTextOf :=
                 Some (js "Elevator out of service at Penn North");
               descriptionTextOf := None;
               effect := EffectNumber 7%Z;
               informedEntity :=
                 [{| agencyId := js "MTA"; routeId := js "11682";
                     stopId := js "s0009" |}];
               postedAtOf := Returned noon;
               expiresAtOf := Returned None |} |}.

(** A Light Rail alert whose start time is out of the range of [Date]. *)
Definition lightRailOutOfRange : FeedEntity :=
  {| entityId := js "alert-2";
     alert :=
       Some {| headerTextOf := Some (js "Single tracking");
               descriptionTextOf := Some (js " Expect delays. ");
               effect := EffectNumber 3%Z;
               informedEntity :=
                 [{| agencyId := js "MTA"; routeId := js "11693";
                     stopId := [] |}];
               postedAtOf := Threw PipelineError;
               expiresAtOf := Returned None |} |}.

Definition marylandFeed : list FeedEntity :=
  [uptonElevator; lightRailOutOfRange].

(** A worker that cannot be reached. *)
Definition fileOnly : Outcome (HttpReply (option IncidentData)) :=
  Threw NetworkError.

(** A server that sends [marylandFeed] 40 ms after it is asked. *)
Definition feedServer : FeedNetwork (list FeedEntity) :=
  {| download := fun t =>
       (Returned {| replyOk := true; replyBody := Returned marylandFeed |},
        (t + 40)%Z) |}.

Definition emptyFeedWorld : FeedWorld (list FeedEntity) :=
  {| mtaMarylandFeedCache := None; feedClock := 0%Z; downloads := 0 |}.

Definition metroReport : IncidentData :=
  Eval vm_compute in
    match @fetchBaltimoreMetroIncidents latinDeseret wordPatterns
            (Some marylandFeed) noon with
    | Returned (Some d) => d
    | _ => sampleData [] []
    end.

End FeedSamples.

(** ** More sample data *)

Module MoreSamples.
Import Samples Wmata Aggregator NycLive NycIndex Feeds.
Local Open Scope string_scope.
Local Open Scope Z_scope.

(** An elevator incident at Metro Center (code A01). *)
Definition metroCenterElevator : WMATAIncident :=
  {| UnitName := js "A01E02";
     UnitType := js "ELEVATOR";
     StationCode := js "A01";
     StationName := js "Metro Center";
     LocationDescription := js "Elevator between mezzanine and platform";
     SymptomDescription := js "Service Call";
     DateOutOfServ := js "2024-01-01T08:00:00";
     DateUpdated := js "2024-01-01T09:00:00";
     EstimatedReturnToService := Some (js "2024-01-03T00:00:00") |}.

(** An upstream whose pipelines all answer with empty data after 30 ms. *)
Definition online : Upstream :=
  {| settle := fun _ t =>
       (Returned (Some (sampleData (js "wmata") (js "2024-01-01T00:10:00.000Z"))),
        t + 30) |}.

(** The two Canal St stations under their common index key. *)
Definition canalStIndex : gmap (list N) (list Candidate) :=
  {[ js "canal st" :=
       [candidateOn "canal-st-1" ["1"]; candidateOn "canal-st-n" ["N"; "Q"]] ]}.

(** A current elevator outage at Canal St on the N and Q. *)
Definition canalStElevator : NycSubwayEneOutage :=
  {| borough := js "MN";
     trainno := js "N/Q";
     equipmentno := js "EL123";
     equipmenttype := js "EL";
     serving := js "street to mezzanine";
     ADA := js "Y";
     isupcomingoutage := js "N";
     ismaintenanceoutage := js "N";
     NycIndex.station := js "Canal St";
     outagedate := js "01/05/2026 08:00:00 AM";
     estimatedreturntoservice := [];
     reason := js "Repair";
     linesimpacted := None |}.

Definition nothingFound : EneState :=
  {| found := {| Normalizer.byStation := []; Normalizer.elevators := 0;
                 Normalizer.escalators := 0 |};
     readings := 0 |}.

(** A subway alert on the 42 St shuttle. *)
Definition shuttleDelay : GtfsRt.FeedEntity :=
  {| GtfsRt.entityId := js "lmm:alert:1";
     GtfsRt.alert :=
       Some {| GtfsRt.headerTextOf := Some (js "S trains are delayed");
               GtfsRt.descriptionTextOf := None;
               GtfsRt.effect := Normalizer.EffectNumber 3;
               GtfsRt.informedEntity :=
                 [{| GtfsRt.agencyId := js "MTASBWY";
                     GtfsRt.routeId := js "GS";
                     GtfsRt.stopId := [] |}];
               GtfsRt.postedAtOf := Returned (js "2026-01-05T11:00:00.000Z");
               GtfsRt.expiresAtOf := Returned None |} |}.

(** The outage feed answering with one record. *)
Definition oneOutage
  : Outcome (HttpReply (option (list NycSubwayEneOutage))) :=
  Returned {| replyOk := true;
              replyBody := Returned (Some [canalStElevator]) |}.

Definition subwayReport : IncidentData :=
  Eval vm_compute in
    match (@NycPipeline.fetchNycSubwayIncidents latinDeseret
             FeedSamples.stoppedClock (Some [shuttleDelay]) oneOutage
             (Some canalStIndex) (Threw NetworkError) 0).1 with
    | Some d => d
    | None => sampleData [] []
    end.

(** A small [parseFloat].  It skips leading white space and reads an
    optional minus sign, digits and an optional fraction, of at most 15
    digits in all, for which the binary64 operations below are exact up to
    the final, correctly rounded division; what follows the number is
    ignored.  It gives [NaN] when no digit follows the sign, as the host
    does, and also for longer numbers; a leading plus sign or dot, an
    exponent and [Infinity] are not read. *)
Definition digitOf (c : N) : option float :=
  match c with
  | 48%N => Some 0%float | 49%N => Some 1%float | 50%N => Some 2%float
  | 51%N => Some 3%float | 52%N => Some 4%float | 53%N => Some 5%float
  | 54%N => Some 6%float | 55%N => Some 7%float | 56%N => Some 8%float
  | 57%N => Some 9%float
  | _ => None
  end.

Fixpoint readDigits (s : jsstring) (value scale : float) (count : nat)
    (fraction : bool) : float * float * nat * jsstring :=
  match s with
  | [] => (value, scale, count, [])
  | c :: t =>
      match digitOf c with
      | Some d =>
          readDigits t (value * 10 + d)%float
            (if fraction then (scale * 10)%float else scale) (S count)
            fraction
      | None => (value, scale, count, s)
      end
  end.

Definition shortDecimals : Csv.NumberBuiltins :=
  {| Csv.parseFloat := fun s =>
       let '(negative, s1) :=
         match trimStart s with
         | 45%N :: t => (true, t)
         | s0 => (false, s0)
         end in
       let '(whole, _, n, rest) := readDigits s1 0%float 1%float 0 false in
       let '(value, scale, m, _) :=
         match rest with
         | 46%N :: t => readDigits t whole 1%float n true
         | _ => (whole, 1%float, n, rest)
         end in
       if (n =? 0)%nat || (15 <? m)%nat then nan
       else if negative then (- (value / scale))%float
            else (value / scale)%float |}.

(** A worker whose store is empty and whose refreshes fail. *)
Definition nothingStored : Worker.Env :=
  {| Worker.wmataStored := Returned None;
     Worker.tokyoStored := Returned None;
     Worker.wmataRefresh := Threw (WmataApiError 503);
     Worker.tokyoRefresh := Threw NetworkError |}.

(** A [toFixed] for the number 0 only: zero with the digits asked for
    (at least one). *)
Definition zeroToFixed : Entrances.NumberFormat :=
  {| Entrances.toFixed :=
       fun _ digits => (js "0." ++ repeat 48%N digits)%list |}.

(** A row at latitude and longitude 0 with the given entrance type. *)
Definition rowOfType (type : string) (entry : bool) : BatchMatch.CsvRow :=
  {| BatchMatch.division := js "BMT";
     BatchMatch.constituentStationName := js "Canal St";
     BatchMatch.gtfsStopId := js "Q01";
     BatchMatch.daytimeRoutes := [js "N"; js "Q"];
     BatchMatch.entranceType := js type;
     BatchMatch.entryAllowed := entry;
     BatchMatch.exitAllowed := true;
     BatchMatch.rowLat := 0%float;
     BatchMatch.rowLng := 0%float |}.

Definition canalStRows : list BatchMatch.CsvRow :=
  [rowOfType "Stair" true; rowOfType "Elevator" true;
   rowOfType "Stair" false].

(** A matched CSV row with the given GTFS stop id. *)
Definition rowAtStop (stop : string) : BatchMatch.CsvRow :=
  {| BatchMatch.division := js "BMT";
     BatchMatch.constituentStationName := js "Canal St";
     BatchMatch.gtfsStopId := js stop;
     BatchMatch.daytimeRoutes := [js "N"; js "Q"];
     BatchMatch.entranceType := js "Stair";
     BatchMatch.entryAllowed := true;
     BatchMatch.exitAllowed := true;
     BatchMatch.rowLat := 40.75%float;
     BatchMatch.rowLng := (-74.0)%float |}.

(** Two stop ids seen twice each, and a row without one. *)
Definition tiedRows : list BatchMatch.CsvRow :=
  [rowAtStop "Q01"; rowAtStop "R23"; rowAtStop "R23"; rowAtStop "";
   rowAtStop "Q01"].

(** A row of the given division and station name, on the N and Q. *)
Definition rowIn (division name : string) : BatchMatch.CsvRow :=
  {| BatchMatch.division := js division;
     BatchMatch.constituentStationName := js name;
     BatchMatch.gtfsStopId := js "Q01";
     BatchMatch.daytimeRoutes := [js "N"; js "Q"];
     BatchMatch.entranceType := js "Stair";
     BatchMatch.entryAllowed := true;
     BatchMatch.exitAllowed := true;
     BatchMatch.rowLat := 40.75%float;
     BatchMatch.rowLng := (-74.0)%float |}.

(** Two stations named Canal St and one named Astor Place. *)
Definition smallStationIndex : gmap (list N) (list BatchMatch.Station) :=
  <[js "canal st" := [stationOn "canal-st-6" ["6"];
                      stationOn "canal-st-nqrw" ["N"; "Q"; "R"; "W"]]]>
    (<[js "astor place" := [stationOn "astor-pl" ["6"]]]> ∅).

Definition mixedRows : list BatchMatch.CsvRow :=
  [rowIn "BMT" "Canal St"; rowIn "SIR" "Tottenville";
   rowIn "IRT" "Astor Pl"; rowIn "IND" "Nowhere Av";
   rowIn "BMT" "Canal St (N,Q)"].

Definition entranceHeader : jsstring :=
  js "Division,Line,Borough,Stop Name,Complex ID,Constituent Station Name,Station ID,GTFS Stop ID,Daytime Routes,Entrance Type,Entry Allowed,Exit Allowed,Entrance Latitude,Entrance Longitude".

Definition entranceLine : jsstring :=
  js "BMT,Broadway,M,Canal St,623,Canal St,18,Q01,N Q,Stair,YES,NO,40.719527,-74.001775".

End MoreSamples.

(** * Properties *)

Module StringFacts.
Import StringShape.

Lemma replaceClass_id p r s : Avoids p s -> replaceClass p r s = s.
Proof.
  unfold Avoids, replaceClass. induction 1 as [|c t Hc _ IH]; simpl.
  - reflexivity.
  - now rewrite Hc, IH.
Qed.

Lemma Avoids_replaceClass_same p r s :
  p r = false -> Avoids p (replaceClass p r s).
Proof.
  intros Hr. unfold Avoids, replaceClass.
  induction s as [|c t IH]; simpl; constructor; auto.
  destruct (p c) eqn:E; auto.
Qed.

Lemma Avoids_replaceClass q p r s :
  q r = false -> Avoids q s -> Avoids q (replaceClass p r s).
Proof.
  intros Hr. unfold Avoids, replaceClass.
  induction 1 as [|c t Hc _ IH]; simpl; constructor; auto.
  destruct (p c); auto.
Qed.

Lemma stripParens_cons c t :
  stripParens (c :: t) =
  if c =? LPAREN then
    match afterClose t with
    | Some r => r
    | None => c :: stripParens t
    end
  else c :: stripParens t.
Proof.
  simpl. destruct (c =? LPAREN); [|reflexivity].
  assert (E : forall u, (fix inside (u : list N) : option (list N) :=
                 match u with
                 | [] => None
                 | d :: v => if d =? RPAREN then Some (stripParens v)
                             else inside v
                 end) u = afterClose u).
  { induction u as [|d v IH]; simpl; [reflexivity|]. now rewrite IH. }
  now rewrite E.
Qed.

Lemma afterClose_Some u r :
  afterClose u = Some r ->
  exists a v, u = a ++ RPAREN :: v /\ Avoids isClose a /\ r = stripParens v.
Proof.
  induction u as [|d v IH]; simpl; [discriminate|].
  destruct (d =? RPAREN) eqn:E.
  - intros [= <-]. apply N.eqb_eq in E. subst d.
    exists [], v. repeat split. constructor.
  - intros Hr. destruct (IH Hr) as (a & w & -> & Ha & ->).
    exists (d :: a), w. repeat split. constructor; assumption.
Qed.

Lemma afterClose_None u : afterClose u = None <-> Avoids isClose u.
Proof.
  unfold Avoids, isClose. induction u as [|d v IH]; simpl.
  - split; [constructor | reflexivity].
  - destruct (d =? RPAREN) eqn:E.
    + split; [discriminate|]. intros Hf. inversion Hf; congruence.
    + rewrite IH. split.
      * intros Hv. constructor; assumption.
      * intros Hf. now inversion Hf.
Qed.

(** Induction along the scan of [stripParens]. *)
Lemma stripParens_ind (P : jsstring -> jsstring -> Prop) :
  P [] [] ->
  (forall c t, c <> LPAREN -> P t (stripParens t) ->
     P (c :: t) (c :: stripParens t)) ->
  (forall t, Avoids isClose t -> P t (stripParens t) ->
     P (LPAREN :: t) (LPAREN :: stripParens t)) ->
  (forall a v, Avoids isClose a -> P v (stripParens v) ->
     P (LPAREN :: a ++ RPAREN :: v) (stripParens v)) ->
  forall s, P s (stripParens s).
Proof.
  intros Hnil Hother Hopen Hpair s.
  remember (length s) as n eqn:Hn. revert s Hn.
  induction n as [n IH] using lt_wf_ind. intros [|c t] Hn.
  - exact Hnil.
  - rewrite stripParens_cons. simpl in Hn.
    destruct (c =? LPAREN) eqn:E.
    + apply N.eqb_eq in E. subst c.
      destruct (afterClose t) as [r|] eqn:Hr.
      * destruct (afterClose_Some _ _ Hr) as (a & v & -> & Ha & ->).
        apply Hpair; [assumption|]. apply (IH (length v)); [|reflexivity].
        rewrite length_app in Hn. simpl in Hn. lia.
      * apply Hopen; [now apply afterClose_None|].
        apply (IH (length t)); [lia | reflexivity].
    + apply N.eqb_neq in E. apply Hother; [assumption|].
      apply (IH (length t)); [lia | reflexivity].
Qed.

Lemma Avoids_stripParens q s : Avoids q s -> Avoids q (stripParens s).
Proof.
  unfold Avoids.
  apply (stripParens_ind (fun s r => Forall (fun c => q c = false) s ->
                                     Forall (fun c => q c = false) r)).
  - auto.
  - intros c t _ IH Hq. inversion Hq; subst. constructor; auto.
  - intros t _ IH Hq. inversion Hq; subst. constructor; auto.
  - intros a v _ IH Hq. inversion Hq as [|? ? _ Hq']; subst.
    apply Forall_app in Hq' as [_ Hq']. inversion Hq'; subst. auto.
Qed.

Lemma Unmatched_stripParens s : Unmatched (stripParens s).
Proof.
  apply (stripParens_ind (fun _ r => Unmatched r)); simpl; auto.
  - intros c t Hc IH. split; [contradiction | assumption].
  - intros t Ht IH. split; [|assumption].
    intros _. now apply Avoids_stripParens.
Qed.

Lemma stripParens_id s : Unmatched s -> stripParens s = s.
Proof.
  induction s as [|c t IH]; [reflexivity|].
  intros [Hc Ht]. rewrite stripParens_cons, (IH Ht).
  destruct (c =? LPAREN) eqn:E; [|reflexivity].
  apply N.eqb_eq in E.
  now rewrite (proj2 (afterClose_None t) (Hc E)).
Qed.

Lemma isSpace_SPACE : isSpace SPACE = true.
Proof. reflexivity. Qed.

Lemma Avoids_collapseFrom q b s :
  q SPACE = false -> Avoids q s -> Avoids q (collapseFrom b s).
Proof.
  intros Hq Hs. revert b. unfold Avoids in *.
  induction Hs as [|c t Hc _ IH]; intros b; simpl; [constructor|].
  destruct (isSpace c); [destruct b|]; try constructor; auto.
Qed.

Lemma Avoids_trimStart q s : Avoids q s -> Avoids q (trimStart s).
Proof.
  unfold Avoids. induction 1 as [|c t Hc Ht IH]; simpl; [constructor|].
  destruct (isSpace c); [assumption | constructor; assumption].
Qed.

Lemma Avoids_trimEnd q s : Avoids q s -> Avoids q (trimEnd s).
Proof.
  unfold Avoids. induction 1 as [|c t Hc Ht IH]; simpl; [constructor|].
  destruct (trimEnd t) as [|d r].
  - destruct (isSpace c); repeat constructor; assumption.
  - constructor; assumption.
Qed.

Lemma Avoids_trim q s : Avoids q s -> Avoids q (trim s).
Proof. intros Hs. unfold trim. now apply Avoids_trimEnd, Avoids_trimStart. Qed.

Lemma Unmatched_collapseFrom b s : Unmatched s -> Unmatched (collapseFrom b s).
Proof.
  revert b. induction s as [|c t IH]; intros b; simpl; [auto|].
  intros [Hc Ht]. destruct (isSpace c) eqn:Ec.
  - destruct b; simpl; [auto | split; [intros [=] | auto]].
  - simpl. split; [|auto]. intros E. apply Avoids_collapseFrom; auto.
Qed.

Lemma Unmatched_trimStart s : Unmatched s -> Unmatched (trimStart s).
Proof.
  induction s as [|c t IH]; simpl; [auto|].
  intros [Hc Ht]. destruct (isSpace c); simpl; auto.
Qed.

Lemma Unmatched_trimEnd s : Unmatched s -> Unmatched (trimEnd s).
Proof.
  induction s as [|c t IH]; simpl; [auto|].
  intros [Hc Ht]. specialize (IH Ht).
  pose proof (fun E => Avoids_trimEnd isClose t (Hc E)) as Hc'.
  destruct (trimEnd t) as [|d r].
  - destruct (isSpace c); simpl; auto.
  - simpl. split; assumption.
Qed.

Lemma headNonSpace_collapse_true s : headNonSpace (collapseFrom true s).
Proof.
  induction s as [|c t IH]; simpl; [exact I|].
  destruct (isSpace c) eqn:E; [assumption | exact E].
Qed.

Lemma Squeezed_collapseFrom b s : Squeezed (collapseFrom b s).
Proof.
  revert b. induction s as [|c t IH]; intros b; simpl; [exact I|].
  destruct (isSpace c) eqn:E.
  - destruct b; [apply IH|]. simpl. split; [|apply IH].
    intros _. split; [reflexivity | apply headNonSpace_collapse_true].
  - simpl. split; [|apply IH]. congruence.
Qed.

Lemma collapseFrom_true_false s :
  headNonSpace s -> collapseFrom true s = collapseFrom false s.
Proof.
  destruct s as [|c t]; simpl; [reflexivity|]. now intros ->.
Qed.

Lemma collapseSpaces_id s : Squeezed s -> collapseSpaces s = s.
Proof.
  unfold collapseSpaces. induction s as [|c t IH]; simpl; [reflexivity|].
  intros [Hc Ht]. destruct (isSpace c) eqn:E.
  - destruct (Hc eq_refl) as [-> Hh].
    now rewrite (collapseFrom_true_false t Hh), (IH Ht).
  - now rewrite (IH Ht).
Qed.

Lemma trimEnd_head d r t : trimEnd t = d :: r -> exists t', t = d :: t'.
Proof.
  destruct t as [|c t']; simpl; [discriminate|].
  destruct (trimEnd t'); [destruct (isSpace c)|]; intros [= <- <-]; eauto.
Qed.

Lemma headNonSpace_trimEnd s : headNonSpace s -> headNonSpace (trimEnd s).
Proof.
  destruct (trimEnd s) as [|d r] eqn:E; [intros; exact I|].
  destruct (trimEnd_head _ _ _ E) as [t' ->]. auto.
Qed.

Lemma Squeezed_trimStart s : Squeezed s -> Squeezed (trimStart s).
Proof.
  induction s as [|c t IH]; simpl; [auto|].
  intros [Hc Ht]. destruct (isSpace c) eqn:E; [auto|].
  simpl. split; [intros E'; congruence | assumption].
Qed.

Lemma Squeezed_trimEnd s : Squeezed s -> Squeezed (trimEnd s).
Proof.
  induction s as [|c t IH]; simpl; [auto|].
  intros [Hc Ht]. specialize (IH Ht).
  destruct (trimEnd t) as [|d r] eqn:E.
  - destruct (isSpace c) eqn:Ec; simpl; auto. split; [congruence | exact I].
  - simpl. split; [|assumption]. intros Hs. destruct (Hc Hs) as [-> Hh].
    split; [reflexivity|].
    destruct (trimEnd_head _ _ _ E) as [t' ->]. exact Hh.
Qed.

Lemma headNonSpace_trimStart s : headNonSpace (trimStart s).
Proof.
  induction s as [|c t IH]; simpl; [exact I|].
  destruct (isSpace c) eqn:E; [assumption | exact E].
Qed.

Lemma trimStart_id s : headNonSpace s -> trimStart s = s.
Proof. destruct s as [|c t]; simpl; [reflexivity|]. now intros ->. Qed.

Lemma trimEnd_idem s : trimEnd (trimEnd s) = trimEnd s.
Proof.
  induction s as [|c t IH]; simpl; [reflexivity|].
  destruct (trimEnd t) as [|d r] eqn:E.
  - destruct (isSpace c) eqn:Ec; simpl; [reflexivity|]. now rewrite Ec.
  - change (trimEnd (c :: d :: r)) with
      (match trimEnd (d :: r) with
       | [] => if isSpace c then [] else [c]
       | r0 => c :: r0
       end).
    now rewrite IH.
Qed.

Lemma trim_trim s : trim (trim s) = trim s.
Proof.
  unfold trim.
  rewrite (trimStart_id (trimEnd (trimStart s))).
  - apply trimEnd_idem.
  - apply headNonSpace_trimEnd, headNonSpace_trimStart.
Qed.

End StringFacts.

Module NormalizeFacts.
Import StringShape StringFacts Normalize.

Lemma finish_Shaped s : Shaped (trim (collapseSpaces (stripParens s))).
Proof.
  unfold trim. split.
  - apply Unmatched_trimEnd, Unmatched_trimStart, Unmatched_collapseFrom,
      Unmatched_stripParens.
  - apply Squeezed_trimEnd, Squeezed_trimStart, Squeezed_collapseFrom.
  - apply headNonSpace_trimEnd, headNonSpace_trimStart.
  - apply trimEnd_idem.
Qed.

Lemma finish_Avoids p s :
  p SPACE = false -> Avoids p s ->
  Avoids p (trim (collapseSpaces (stripParens s))).
Proof.
  intros Hp Hs. apply Avoids_trim, Avoids_collapseFrom; [assumption|].
  now apply Avoids_stripParens.
Qed.

Lemma finish_id s : Shaped s -> trim (collapseSpaces (stripParens s)) = s.
Proof.
  intros [Hu Hs Hh He].
  rewrite (stripParens_id s Hu), (collapseSpaces_id s Hs).
  unfold trim. now rewrite (trimStart_id s Hh).
Qed.

Create HintDb norm.
#[local] Hint Resolve Avoids_replaceClass Avoids_replaceClass_same
  finish_Avoids finish_Shaped : norm.

Lemma liveTail_idempotent s : liveTail (liveTail s) = liveTail s.
Proof.
  set (y := liveTail s).
  assert (Hd : Avoids isDash y) by (unfold y, liveTail; auto 6 with norm).
  assert (Hs : Avoids isSlashOrBackslash y)
    by (unfold y, liveTail; auto with norm).
  assert (Hy : Shaped y) by (unfold y, liveTail; auto with norm).
  unfold liveTail at 1.
  rewrite (replaceClass_id isDash SPACE y Hd).
  rewrite (replaceClass_id isSlashOrBackslash SPACE y Hs).
  now apply finish_id.
Qed.

Lemma batchTail_idempotent s : batchTail (batchTail s) = batchTail s.
Proof.
  set (y := batchTail s).
  assert (Hd : Avoids isDash y) by (unfold y, batchTail; auto 7 with norm).
  assert (Hc : Avoids isCurlyApostrophe y)
    by (unfold y, batchTail; auto 6 with norm).
  assert (Hs : Avoids isSlash y) by (unfold y, batchTail; auto with norm).
  assert (Hy : Shaped y) by (unfold y, batchTail; auto with norm).
  unfold batchTail at 1.
  rewrite (replaceClass_id isDash SPACE y Hd).
  rewrite (replaceClass_id isCurlyApostrophe APOSTROPHE y Hc).
  rewrite (replaceClass_id isSlash SPACE y Hs).
  now apply finish_id.
Qed.

Lemma tailOf_idempotent f s : tailOf f (tailOf f s) = tailOf f s.
Proof. destruct f; [apply liveTail_idempotent | apply batchTail_idempotent]. Qed.

Lemma normalizeWith_tail `{StringBuiltins} f s :
  normalizeWith f s = tailOf f (toLowerCase s).
Proof. now destruct f. Qed.

Lemma replaceClass_ext p q r s :
  Forall (fun c => p c = q c) s -> replaceClass p r s = replaceClass q r s.
Proof.
  unfold replaceClass. induction 1 as [|c t Hc _ IH]; simpl; [reflexivity|].
  now rewrite Hc, IH.
Qed.

Lemma batchTail_liveTail s :
  Avoids isBackslash s -> Avoids isCurlyApostrophe s -> batchTail s = liveTail s.
Proof.
  intros Hb Hc. unfold batchTail, liveTail.
  rewrite (replaceClass_id isCurlyApostrophe APOSTROPHE).
  - rewrite (replaceClass_ext isSlashOrBackslash isSlash); [reflexivity|].
    assert (Hb' : Avoids isBackslash (replaceClass isDash SPACE s))
      by now apply Avoids_replaceClass.
    unfold Avoids in Hb'. eapply Forall_impl; [exact Hb'|].
    intros c Hc'. unfold isSlashOrBackslash, isSlash, isBackslash in *.
    simpl in *. rewrite Hc'. apply orb_false_r.
  - now apply Avoids_replaceClass.
Qed.

Lemma lowerLatinDeseret_units s :
  Avoids isHighSurrogate s -> lowerLatinDeseret s = List.map lowerUnit s.
Proof.
  unfold Avoids. induction 1 as [|c t Hc _ IH]; [reflexivity|].
  cbn [lowerLatinDeseret List.map]. rewrite Hc. cbn [andb].
  destruct t as [|d t']; [reflexivity|]. now rewrite IH.
Qed.

Lemma lowerUnit_stable c : isHighSurrogate c = false -> unstable (lowerUnit c) = false.
Proof.
  unfold unstable, lowerUnit, isHighSurrogate. intros Hc.
  destruct ((65 <=? c) && (c <=? 90)) eqn:E.
  - apply andb_true_iff in E as [E1 E2].
    apply N.leb_le in E1. apply N.leb_le in E2.
    assert (E3 : (c + 32 <=? 90) = false) by (apply N.leb_gt; lia).
    rewrite E3, andb_false_r, N.eqb_refl. simpl.
    apply andb_false_iff. left. apply N.leb_gt. lia.
  - rewrite E, N.eqb_refl. simpl. exact Hc.
Qed.

Lemma unstable_false_fixed s :
  Avoids unstable s -> lowerLatinDeseret s = s.
Proof.
  intros Hs. rewrite lowerLatinDeseret_units.
  - unfold Avoids in Hs. induction Hs as [|c t Hc _ IH]; [reflexivity|].
    simpl. rewrite IH. f_equal. unfold unstable in Hc.
    apply orb_false_iff in Hc as [Hc _]. apply negb_false_iff in Hc.
    now apply N.eqb_eq.
  - eapply Forall_impl; [exact Hs|]. intros c Hc. unfold unstable in Hc.
    now apply orb_false_iff in Hc as [_ Hc].
Qed.

Lemma tailOf_stable f s : Avoids unstable s -> Avoids unstable (tailOf f s).
Proof.
  intros Hs. destruct f; unfold tailOf, liveTail, batchTail;
    apply finish_Avoids; try reflexivity;
    repeat (apply Avoids_replaceClass; [reflexivity|]); assumption.
Qed.

(** Under the sample case conversion the condition of the idempotence
    theorem holds for every string free of high surrogates. *)
Lemma normalizeWith_lowercase_without_surrogates f s :
  Avoids isHighSurrogate s ->
  lowerLatinDeseret (@normalizeWith latinDeseret f s)
  = @normalizeWith latinDeseret f s.
Proof.
  intros Hs. rewrite (@normalizeWith_tail latinDeseret).
  apply unstable_false_fixed, tailOf_stable. cbn [toLowerCase latinDeseret].
  rewrite lowerLatinDeseret_units by assumption.
  unfold Avoids in *. apply Forall_map. eapply Forall_impl; [exact Hs|].
  intros c Hc. now apply lowerUnit_stable.
Qed.

(** C5 (as amended): each of the two normalization functions is idempotent
    on every string whose normalized form the case conversion leaves
    unchanged. *)
Theorem normalization_idempotent_on_lowercase `{StringBuiltins}
    (f : Normalization) (s : jsstring) :
  toLowerCase (normalizeWith f s) = normalizeWith f s ->
  normalizeWith f (normalizeWith f s) = normalizeWith f s.
Proof.
  intros Hlow.
  rewrite (normalizeWith_tail f (normalizeWith f s)), Hlow.
  rewrite normalizeWith_tail. apply tailOf_idempotent.
Qed.

Lemma normalization_idempotent_on_lowercase_witness :
  @normalizeWith latinDeseret Live
     (@normalizeWith latinDeseret Live (js "Lexington Av/59 St (4,5,6)"))
  = @normalizeWith latinDeseret Live (js "Lexington Av/59 St (4,5,6)")
  /\ @normalizeWith latinDeseret Batch
     (@normalizeWith latinDeseret Batch (js "Lexington Av/59 St (4,5,6)"))
  = @normalizeWith latinDeseret Batch (js "Lexington Av/59 St (4,5,6)").
Proof.
  split;
    apply (@normalization_idempotent_on_lowercase latinDeseret);
    vm_compute; reflexivity.
Defined.

(** C5 (as stated) fails: stripping a parenthetical can join two lone
    surrogates into the capital letter U+10400, which a second
    normalization lowers to U+10428. *)
Lemma normalizeStationName_not_idempotent :
  @normalizeStationName latinDeseret
     (@normalizeStationName latinDeseret [55297; 40; 41; 56320])
  <> @normalizeStationName latinDeseret [55297; 40; 41; 56320].
Proof. vm_compute. discriminate. Qed.

(** The two steps of that run: "\uD801()\uDC00" normalizes to the pair
    D801 DC00 (U+10400), which normalizes to D801 DC28 (U+10428). *)
Example normalizeStationName_surrogate_run :
  @normalizeStationName latinDeseret [55297; 40; 41; 56320] = [55297; 56320]
  /\ @normalizeStationName latinDeseret [55297; 56320] = [55297; 56360].
Proof. split; vm_compute; reflexivity. Qed.

(** C4 (as amended): the batch [normalizeName] and the live
    [normalizeStationName] return the same string whenever the lower-cased
    name holds no backslash and no curly apostrophe. *)
Theorem normalizeName_agrees_with_live `{StringBuiltins} (s : jsstring) :
  Avoids isBackslash (toLowerCase s) ->
  Avoids isCurlyApostrophe (toLowerCase s) ->
  normalizeName s = normalizeStationName s.
Proof. intros Hb Hc. now apply batchTail_liveTail. Qed.

Lemma normalizeName_agrees_with_live_witness :
  @normalizeName latinDeseret (js "Lexington Av/59 St (4,5,6)")
  = @normalizeStationName latinDeseret (js "Lexington Av/59 St (4,5,6)").
Proof.
  apply (@normalizeName_agrees_with_live latinDeseret);
    vm_compute; repeat constructor.
Defined.

(** C4 (as stated) fails: the live function turns a backslash into a space,
    the batch function keeps it. *)
Lemma normalizeName_differs_from_live :
  @normalizeName latinDeseret (js "a\b")
  <> @normalizeStationName latinDeseret (js "a\b").
Proof. vm_compute. discriminate. Qed.

(** The other difference: the batch function straightens U+2019, the live
    function keeps it ("st mary's" spelled with a curly apostrophe). *)
Example normalizeName_straightens_apostrophe :
  @normalizeName latinDeseret (js "St Mary" ++ [8217] ++ js "s")
  = js "st mary's"
  /\ @normalizeStationName latinDeseret (js "St Mary" ++ [8217] ++ js "s")
     = js "st mary" ++ [8217] ++ js "s".
Proof. split; vm_compute; reflexivity. Qed.

End NormalizeFacts.

Module HostFacts.

Section Objects.
Context {V : Type}.
Implicit Types (o : list (list N * V)) (k : list N).

Lemma objGet_objSet_eq k (v : V) o : objGet k (objSet k v o) = Some v.
Proof.
  induction o as [|[k' v'] r IH]; simpl.
  - now rewrite bool_decide_eq_true_2.
  - destruct (bool_decide (k' = k)) eqn:E; simpl; now rewrite E.
Qed.

Lemma objGet_objSet_ne k k' (v : V) o :
  k <> k' -> objGet k' (objSet k v o) = objGet k' o.
Proof.
  intros Hne. induction o as [|[k0 v0] r IH]; simpl.
  - now rewrite bool_decide_eq_false_2.
  - destruct (bool_decide (k0 = k)) eqn:E; simpl.
    + apply bool_decide_eq_true in E. subst k0.
      now rewrite !bool_decide_eq_false_2.
    + now rewrite IH.
Qed.

Lemma objKeys_objSet_new k (v : V) o :
  objGet k o = None -> objKeys (objSet k v o) = objKeys o ++ [k].
Proof.
  unfold objKeys. induction o as [|[k' v'] r IH]; simpl; [reflexivity|].
  destruct (bool_decide (k' = k)); [discriminate|].
  intros Hn. simpl. now rewrite IH.
Qed.

Lemma objKeys_objSet_old k (v : V) o :
  is_Some (objGet k o) -> objKeys (objSet k v o) = objKeys o.
Proof.
  unfold objKeys. induction o as [|[k' v'] r IH]; simpl.
  - intros [? [=]].
  - destruct (bool_decide (k' = k)); [reflexivity|].
    intros Hs. simpl. now rewrite IH.
Qed.

End Objects.

Section Arrays.
Context {V : Type}.
Implicit Types (o : list (list N * list V)) (k : list N).

Lemma objGet_objPush_eq k (x : V) o l :
  objGet k o = Some l -> objGet k (objPush k x o) = Some (l ++ [x]).
Proof.
  induction o as [|[k' l'] r IH]; simpl; [discriminate|].
  destruct (bool_decide (k' = k)) eqn:E; simpl; rewrite E.
  - now intros [= ->].
  - exact IH.
Qed.

Lemma objGet_objPush_ne k k' (x : V) o :
  k <> k' -> objGet k' (objPush k x o) = objGet k' o.
Proof.
  intros Hne. induction o as [|[k0 l0] r IH]; simpl; [reflexivity|].
  destruct (bool_decide (k0 = k)) eqn:E; simpl.
  - apply bool_decide_eq_true in E. subst k0.
    now rewrite !bool_decide_eq_false_2.
  - now rewrite IH.
Qed.

Lemma objKeys_objPush k (x : V) o : objKeys (objPush k x o) = objKeys o.
Proof.
  unfold objKeys. induction o as [|[k' l'] r IH]; simpl; [reflexivity|].
  destruct (bool_decide (k' = k)); simpl; [reflexivity | now rewrite IH].
Qed.

Lemma objGet_objEnsure_eq k o :
  objGet k (objEnsure k o) = Some (default [] (objGet k o)).
Proof.
  unfold objEnsure. destruct (objGet k o) as [l|] eqn:E; simpl.
  - exact E.
  - apply objGet_objSet_eq.
Qed.

Lemma objGet_objEnsure_ne k k' o :
  k <> k' -> objGet k' (objEnsure k o) = objGet k' o.
Proof.
  intros Hne. unfold objEnsure. destruct (objGet k o); [reflexivity|].
  now apply objGet_objSet_ne.
Qed.

End Arrays.

End HostFacts.

Module NormalizerFacts.
Import Samples HostFacts Normalizer.
Local Open Scope Z_scope.

(** C6: [mapGtfsEffect] returns [emergency] exactly on NO_SERVICE (1),
    [delay] exactly on 2, 3, 4 and 6, and [advisory] on everything else,
    [null] and [undefined] included. *)
Theorem mapGtfsEffect_classification (effect : JsEffect) :
  (mapGtfsEffect effect = emergency <-> effect = EffectNumber 1)
  /\ (mapGtfsEffect effect = delay <->
      effect ∈ [EffectNumber 2; EffectNumber 3; EffectNumber 4; EffectNumber 6])
  /\ (mapGtfsEffect effect = advisory <->
      effect ∉ [EffectNumber 1; EffectNumber 2; EffectNumber 3;
                EffectNumber 4; EffectNumber 6]).
Proof.
  assert (Hcase : effect ∈ [EffectNumber 1; EffectNumber 2; EffectNumber 3;
                            EffectNumber 4; EffectNumber 6]
                  \/ (mapGtfsEffect effect = advisory /\
                      effect ∉ [EffectNumber 1; EffectNumber 2; EffectNumber 3;
                                EffectNumber 4; EffectNumber 6])).
  { destruct effect as [| |n].
    - right. split; [reflexivity|]. rewrite !not_elem_of_cons. 
      repeat split; try discriminate. apply not_elem_of_nil.
    - right. split; [reflexivity|]. rewrite !not_elem_of_cons. 
      repeat split; try discriminate. apply not_elem_of_nil.
    - destruct n as [|[[[p|p|]|[p|p|]|]|[[p|p|]|[p|p|]|]|]|p];
        try (left; rewrite !elem_of_cons; tauto);
        right; (split; [reflexivity|]); rewrite !not_elem_of_cons;
        repeat split; try discriminate; apply not_elem_of_nil. }
  destruct Hcase as [Hin | [Hadv Hnot]].
  - rewrite !elem_of_cons, elem_of_nil in Hin.
    destruct Hin as [->|[->|[->|[->|[->|[]]]]]]; simpl;
      rewrite ?elem_of_cons, ?not_elem_of_cons, ?elem_of_nil;
      (repeat split); try discriminate; try tauto; intros; try intuition congruence.
  - rewrite Hadv. repeat split; try discriminate; auto.
    + intros ->. exfalso. apply Hnot. rewrite !elem_of_cons; tauto.
    + intros Hin. exfalso. apply Hnot. rewrite !elem_of_cons in *.
      rewrite elem_of_nil in Hin. tauto.
Qed.


Section Detect.
Variables (hasElev hasEsc : bool) (headerText postedAt : jsstring)
  (expiresAt : option jsstring).

Let step := detectStep hasElev hasEsc headerText postedAt expiresAt.
Let new := emitted hasElev hasEsc headerText postedAt expiresAt.

Lemma detectStep_same st k :
  objGet k (byStation (step st k))
  = Some (default [] (objGet k (byStation st)) ++ new).
Proof.
  subst step new. unfold detectStep, emitted.
  pose proof (objGet_objEnsure_eq k (byStation st)) as He.
  destruct hasElev, hasEsc; simpl.
  - erewrite objGet_objPush_eq; [|erewrite objGet_objPush_eq; eauto].
    now rewrite <- app_assoc.
  - erewrite objGet_objPush_eq; eauto.
  - erewrite objGet_objPush_eq; eauto.
  - now rewrite He, app_nil_r.
Qed.

Lemma detectStep_other st k k' :
  k <> k' -> objGet k' (byStation (step st k)) = objGet k' (byStation st).
Proof.
  intros Hne. subst step. unfold detectStep.
  destruct hasElev, hasEsc; simpl;
    rewrite ?objGet_objPush_ne, ?objGet_objEnsure_ne by assumption;
    reflexivity.
Qed.

Lemma detectStep_counts st k :
  elevators (step st k) = elevators st + tally hasElev 1
  /\ escalators (step st k) = escalators st + tally hasEsc 1.
Proof.
  subst step. unfold detectStep, tally.
  destruct hasElev, hasEsc; simpl; lia.
Qed.

Lemma detect_fold_other stations st k' :
  k' ∉ stations ->
  objGet k' (byStation (fold_left step stations st)) = objGet k' (byStation st).
Proof.
  revert st. induction stations as [|k r IH]; intros st Hn; simpl.
  - reflexivity.
  - apply not_elem_of_cons in Hn as [Hne Hn].
    rewrite (IH _ Hn). now apply detectStep_other.
Qed.

Lemma detect_fold_same stations st k :
  NoDup stations -> k ∈ stations ->
  objGet k (byStation (fold_left step stations st))
  = Some (default [] (objGet k (byStation st)) ++ new).
Proof.
  intros Hnd. revert st. induction Hnd as [|k0 r Hk0 Hnd IH]; intros st Hin.
  - now apply elem_of_nil in Hin.
  - simpl. apply elem_of_cons in Hin as [->|Hin].
    + rewrite (detect_fold_other r _ k0 Hk0). apply detectStep_same.
    + rewrite (IH _ Hin). rewrite detectStep_other; [reflexivity|].
      intros ->. contradiction.
Qed.

Lemma detect_fold_counts stations st :
  elevators (fold_left step stations st)
  = elevators st + tally hasElev (length stations)
  /\ escalators (fold_left step stations st)
     = escalators st + tally hasEsc (length stations).
Proof.
  revert st. induction stations as [|k r IH]; intros st.
  - unfold tally. simpl. destruct hasElev, hasEsc; lia.
  - cbn [fold_left]. destruct (IH (step st k)) as [-> ->].
    destruct (detectStep_counts st k) as [-> ->].
    unfold tally. cbn [length]. destruct hasElev, hasEsc; lia.
Qed.

End Detect.

(** C7: when the lower-cased text holds an equipment keyword ("elevator",
    "escalator") and a disruption keyword ("out of service", "unavailable",
    "closed", "outage") and the (duplicate-free) list of affected stations
    is not empty, every affected station receives exactly one entry per
    equipment keyword present, appended to what it had: for "elevator" the
    outage named "Elevator" with [unitType] "elevator", then for
    "escalator" the outage named "Escalator" with [unitType] "escalator",
    each located by the header text, with the symptom "Out of service" and
    the times of the alert.  The other stations are untouched and the
    returned counters count one per keyword and station.  The station ids
    are keys of a plain object: they are not names of members of
    [Object.prototype]. *)
Theorem detectEquipmentOutages_one_per_keyword_and_station `{StringBuiltins}
    (fullText : jsstring) (affectedStations : list jsstring)
    (outagesByStation : list (list N * list UnitOutage))
    (headerText postedAt : jsstring) (expiresAt : option jsstring) :
  let lower := toLowerCase fullText in
  let elev := includes (js "elevator") lower in
  let esc := includes (js "escalator") lower in
  let result := detectEquipmentOutages fullText affectedStations
                  outagesByStation headerText postedAt expiresAt in
  let outage (unit type : string) : UnitOutage :=
    {| unitName := js unit;
       unitType := js type;
       location := headerText;
       symptom := js "Out of service";
       outOfServiceSince := postedAt;
       estimatedReturn := expiresAt;
       updatedAt := postedAt |} in
  elev || esc = true ->
  includes (js "out of service") lower || includes (js "unavailable") lower
  || includes (js "closed") lower || includes (js "outage") lower = true ->
  affectedStations <> [] ->
  NoDup affectedStations ->
  forallb OwnKeys.plainKey affectedStations = true ->
  (forall stationId, stationId ∈ affectedStations ->
     objGet stationId (byStation result)
     = Some (default [] (objGet stationId outagesByStation)
             ++ (if elev then [outage "Elevator" "elevator"]%string else [])
             ++ (if esc then [outage "Escalator" "escalator"]%string
                 else [])))
  /\ (forall stationId, stationId ∉ affectedStations ->
        objGet stationId (byStation result) = objGet stationId outagesByStation)
  /\ elevators result
     = (if elev then Z.of_nat (length affectedStations) else 0)
  /\ escalators result
     = (if esc then Z.of_nat (length affectedStations) else 0).
Proof.
  intros lower elev esc result outage Hkey Hdis Hne Hnd _.
  change (hasDisruption lower = true) in Hdis.
  assert (Hres : result =
    fold_left (detectStep elev esc headerText postedAt expiresAt)
      affectedStations
      {| byStation := outagesByStation; elevators := 0; escalators := 0 |}).
  { subst result. unfold detectEquipmentOutages, hasElevatorOutage,
      hasEscalatorOutage. fold lower. rewrite Hdis, !andb_true_r.
    fold elev esc. rewrite Hkey.
    destruct affectedStations; [contradiction | reflexivity]. }
  rewrite Hres.
  destruct (detect_fold_counts elev esc headerText postedAt expiresAt
              affectedStations
              {| byStation := outagesByStation; elevators := 0;
                 escalators := 0 |}) as [Helev Hesc].
  unfold tally in Helev, Hesc. cbn [elevators escalators] in Helev, Hesc.
  split; [|split; [|split]].
  - intros k Hk. rewrite detect_fold_same by assumption. reflexivity.
  - intros k Hk. now rewrite detect_fold_other.
  - rewrite Helev. reflexivity.
  - rewrite Hesc. reflexivity.
Qed.

(** The scenario of the specification: the text "Elevator out of service
    at Main St" with the single resolved station "main-st" gives exactly one
    entry for "main-st", of [unitType] "elevator", and no escalator
    entry. *)
Lemma detectEquipmentOutages_one_per_keyword_and_station_witness :
  objGet (js "main-st")
    (byStation
       (@detectEquipmentOutages latinDeseret
          (js "Elevator out of service at Main St") [js "main-st"] []
          (js "Elevator out of service at Main St")
          (js "2024-01-01T00:00:00.000Z") None))
  = Some [ {| unitName := js "Elevator";
              unitType := js "elevator";
              location := js "Elevator out of service at Main St";
              symptom := js "Out of service";
              outOfServiceSince := js "2024-01-01T00:00:00.000Z";
              estimatedReturn := None;
              updatedAt := js "2024-01-01T00:00:00.000Z" |} ]
  /\ elevators mainStResult = 1
  /\ escalators mainStResult = 0.
Proof.
  destruct (@detectEquipmentOutages_one_per_keyword_and_station latinDeseret
              mainStText [js "main-st"] [] mainStText mainStPosted None)
    as (Hin & _ & Helev & Hesc).
  - reflexivity.
  - reflexivity.
  - discriminate.
  - apply NoDup_singleton.
  - reflexivity.
  - unfold mainStResult. split; [|split].
    + change (js "Elevator out of service at Main St") with mainStText.
      change (js "2024-01-01T00:00:00.000Z") with mainStPosted.
      rewrite (Hin (js "main-st"));
        [reflexivity | apply list_elem_of_singleton; reflexivity].
    + exact Helev.
    + exact Hesc.
Defined.

(** The same scenario, run. *)
Example detectEquipmentOutages_main_st_run :
  mainStResult
  = {| byStation := [(js "main-st", [elevatorEntry mainStText mainStPosted None])];
       elevators := 1;
       escalators := 0 |}.
Proof. vm_compute. reflexivity. Qed.

End NormalizerFacts.

Module WmataFacts.
Import Samples Wmata HostFacts.
Local Open Scope Z_scope.

(** C8: [fetchWMATAIncidents] throws its upstream error (carrying the
    status) exactly when the response is not 2xx, and a 2xx response whose
    body is an object without the [ElevatorIncidents] field yields the empty
    list. *)
Theorem fetchWMATAIncidents_upstream_error_and_missing_field
    (response : Response) :
  (forall code,
     fetchWMATAIncidents (Some response) = Threw (WmataApiError code)
     <-> ~ (200 <= status response <= 299) /\ code = status response)
  /\ (ok response = true ->
      forall fields,
        body response = Some (JObject fields) ->
        lastField (js "ElevatorIncidents") fields = None ->
        fetchWMATAIncidents (Some response) = Returned (JArray [])).
Proof.
  assert (Hok : ok response = true <-> 200 <= status response <= 299).
  { unfold ok. rewrite andb_true_iff, !Z.leb_le. tauto. }
  unfold fetchWMATAIncidents. destruct (ok response) eqn:E; simpl.
  - split.
    + intros code. split.
      * intros Hc. exfalso.
        destruct (body response) as [data|]; [|discriminate].
        destruct data; simpl in Hc; try discriminate.
        destruct (lastField _ _); discriminate.
      * intros [Hn _]. exfalso. apply Hn, Hok. reflexivity.
    + intros _ fields -> Hf. simpl. now rewrite Hf.
  - split.
    + intros code. split.
      * intros [= <-]. split; [|reflexivity].
        intros Hr. apply Hok in Hr. discriminate.
      * intros [_ ->]. reflexivity.
    + discriminate.
Qed.

(** A 503 answer and a 200 answer without the field. *)
Lemma fetchWMATAIncidents_upstream_error_and_missing_field_witness :
  fetchWMATAIncidents (Some unavailable) = Threw (WmataApiError 503)
  /\ ok okWithoutField = true
  /\ fetchWMATAIncidents (Some okWithoutField) = Returned (JArray []).
Proof.
  split; [|split; [reflexivity|]].
  - apply (proj1 (fetchWMATAIncidents_upstream_error_and_missing_field
                    unavailable)).
    split; [|reflexivity]. simpl. lia.
  - apply (proj2 (fetchWMATAIncidents_upstream_error_and_missing_field
                    okWithoutField) eq_refl
             [(js "Message", JString (js "none"))] eq_refl eq_refl).
Defined.


(** C2 fails for WMATA: one incident with an unknown station code is
    counted in [totalOutages] but in neither unit counter. *)
Theorem processIncidents_total_counts_skipped_incident :
  summary (@processIncidents latinDeseret (js "2024-01-01T09:05:00.000Z")
             [unknownStation])
  = {| totalOutages := 1; elevatorOutages := 0; escalatorOutages := 0;
       stationsAffected := 0; activeAlerts := None |}.
Proof. vm_compute. reflexivity. Qed.

Lemma unitsOf_objSet_nil {V} k (o : list (list N * list V)) :
  objGet k o = None -> unitsOf (objSet k [] o) = unitsOf o.
Proof.
  unfold unitsOf, objValues. induction o as [|[k' l] r IH]; simpl; [reflexivity|].
  destruct (bool_decide (k' = k)); [discriminate|].
  intros Hn. simpl. rewrite !length_app. now rewrite (IH Hn).
Qed.

Lemma unitsOf_objEnsure {V} k (o : list (list N * list V)) :
  unitsOf (objEnsure k o) = unitsOf o.
Proof.
  unfold objEnsure. destruct (objGet k o) eqn:E; [reflexivity|].
  now apply unitsOf_objSet_nil.
Qed.

Lemma unitsOf_objPush {V} k (x : V) (o : list (list N * list V)) :
  is_Some (objGet k o) -> unitsOf (objPush k x o) = S (unitsOf o).
Proof.
  unfold unitsOf, objValues. induction o as [|[k' l] r IH]; simpl.
  - intros [? [=]].
  - destruct (bool_decide (k' = k)); simpl; rewrite !length_app.
    + intros _. simpl. lia.
    + intros Hs. rewrite (IH Hs). lia.
Qed.

Lemma countStep_sum acc o :
  (countStep acc o).1 + (countStep acc o).2 = acc.1 + acc.2 + 1.
Proof. unfold countStep. case_bool_decide; simpl; lia. Qed.

Lemma countStep_fold l acc :
  (fold_left countStep l acc).1 + (fold_left countStep l acc).2
  = acc.1 + acc.2 + Z.of_nat (length l).
Proof.
  revert acc. induction l as [|o r IH]; intros acc; simpl; [lia|].
  rewrite IH, countStep_sum. lia.
Qed.

Lemma countUnits_sum (o : list (list N * list UnitOutage)) :
  (countUnits o).1 + (countUnits o).2 = Z.of_nat (unitsOf o).
Proof.
  unfold countUnits, unitsOf.
  assert (Hgen : forall vs acc,
    (fold_left (fun acc outages => fold_left countStep outages acc) vs acc).1
    + (fold_left (fun acc outages => fold_left countStep outages acc) vs acc).2
    = acc.1 + acc.2 + Z.of_nat (length (concat vs))).
  { induction vs as [|l r IH]; intros acc; simpl; [lia|].
    rewrite IH, countStep_fold, length_app. lia. }
  rewrite Hgen. simpl. lia.
Qed.

Section WithHost.
Context `{StringBuiltins}.

Lemma groupStep_units o incident :
  unitsOf (groupStep o incident)
  = (unitsOf o + if mapped incident then 1 else 0)%nat.
Proof.
  unfold groupStep, mapped.
  destruct (stationOfCode (StationCode incident)) as [stationId|] eqn:E.
  - rewrite bool_decide_eq_true_2 by eauto.
    rewrite unitsOf_objPush, unitsOf_objEnsure; [lia|].
    rewrite HostFacts.objGet_objEnsure_eq. eauto.
  - rewrite bool_decide_eq_false_2; [lia|]. intros [? [=]].
Qed.

Lemma groupByStation_units incidents :
  unitsOf (groupByStation incidents)
  = length (List.filter mapped incidents).
Proof.
  unfold groupByStation.
  assert (Hgen : forall o,
    unitsOf (fold_left groupStep incidents o)
    = (unitsOf o + length (List.filter mapped incidents))%nat).
  { induction incidents as [|i r IH]; intros o; simpl; [lia|].
    rewrite IH, groupStep_units. destruct (mapped i); simpl; lia. }
  now rewrite Hgen.
Qed.

(** What [processIncidents] does guarantee: the two unit counters add up
    to the number of incidents with a known station code, and
    [stationsAffected] is the number of keys. *)
Lemma processIncidents_summary nowIso incidents :
  let s := summary (processIncidents nowIso incidents) in
  elevatorOutages s + escalatorOutages s
  = Z.of_nat (length (List.filter mapped incidents))
  /\ totalOutages s = Z.of_nat (length incidents)
  /\ stationsAffected s
     = Z.of_nat (length (objKeys (outagesByStation (processIncidents nowIso incidents)))).
Proof.
  simpl. rewrite countUnits_sum, groupByStation_units. auto.
Qed.

End WithHost.

End WmataFacts.

Module AggregatorFacts.
Import Samples Aggregator.
Local Open Scope Z_scope.

Section WithUpstream.
Context `{Upstream}.

Lemma await_cache p w : incidentCache (await p w).2 = incidentCache w.
Proof. unfold await. now destruct (settle p (clock w)). Qed.

Lemma dispatch_cache systemId w :
  incidentCache (dispatch systemId w).2 = incidentCache w.
Proof.
  unfold dispatch.
  repeat (case_bool_decide; [apply await_cache|]). reflexivity.
Qed.

Lemma refresh_unfold systemId w :
  refresh systemId w =
  match dispatch systemId w with
  | (Returned (Some d), w') =>
      (Returned (Some d),
       {| incidentCache := <[systemId := {| data := d; cachedAt := clock w' |}]>
                             (incidentCache w');
          clock := clock w';
          dispatched := dispatched w' |})
  | (Returned None, w') => (Returned None, w')
  | (Threw e, w') => (Threw e, w')
  end.
Proof.
  unfold refresh, bind. destruct (dispatch systemId w) as [[[d|]|e] w'];
    reflexivity.
Qed.

Lemma getIncidents_miss systemId w :
  systemId ∈ supportedSystems -> ~ fresh systemId w ->
  getIncidents systemId w = refresh systemId w.
Proof.
  intros Hs Hf. unfold getIncidents, arrayIncludes.
  rewrite bool_decide_eq_true_2 by assumption. simpl.
  unfold bind, cacheGet. simpl.
  destruct (incidentCache w !! systemId) as [entry|] eqn:E; [|reflexivity].
  unfold dateNow. simpl.
  destruct (Z.ltb_spec (clock w - cachedAt entry) CACHE_TTL) as [Hlt|Hge];
    [|reflexivity].
  exfalso. apply Hf. exists entry. auto.
Qed.

Lemma getIncidents_hit systemId w entry :
  systemId ∈ supportedSystems ->
  incidentCache w !! systemId = Some entry ->
  clock w - cachedAt entry < CACHE_TTL ->
  getIncidents systemId w = (Returned (Some (data entry)), w).
Proof.
  intros Hs He Hlt. unfold getIncidents, arrayIncludes.
  rewrite bool_decide_eq_true_2 by assumption. simpl.
  unfold bind, cacheGet. simpl. rewrite He. unfold dateNow. simpl.
  now rewrite (proj2 (Z.ltb_lt _ _) Hlt).
Qed.

Lemma getIncidents_unsupported systemId w :
  systemId ∉ supportedSystems -> getIncidents systemId w = (Returned None, w).
Proof.
  intros Hs. unfold getIncidents, arrayIncludes.
  now rewrite bool_decide_eq_false_2 by assumption.
Qed.

End WithUpstream.

(** C9: with a cache entry younger than five minutes, [getIncidents]
    returns the cached data and changes nothing in the world: no pipeline is
    started; so a second call made while the entry is still fresh returns
    the same data, again without a fetch. *)
Theorem getIncidents_fresh_entry_served_from_cache `{Upstream}
    (systemId : jsstring) (w : World) (entry : CacheEntry) :
  systemId ∈ supportedSystems ->
  incidentCache w !! systemId = Some entry ->
  clock w - cachedAt entry < CACHE_TTL ->
  getIncidents systemId w = (Returned (Some (data entry)), w)
  /\ forall later, later - cachedAt entry < CACHE_TTL ->
       getIncidents systemId (setClock later (getIncidents systemId w).2)
       = (Returned (Some (data entry)), setClock later w).
Proof.
  intros Hs He Hlt.
  rewrite (getIncidents_hit systemId w entry Hs He Hlt). split; [reflexivity|].
  intros later Hlater. simpl.
  now apply getIncidents_hit.
Qed.

Lemma supported_bart : js "bart" ∈ supportedSystems.
Proof. unfold supportedSystems. rewrite !elem_of_cons. tauto. Qed.

Lemma getIncidents_fresh_entry_served_from_cache_witness :
  @getIncidents offline (js "bart") (worldAt 299999)
  = (Returned (Some (data bartEntry)), worldAt 299999).
Proof.
  apply (proj1 (@getIncidents_fresh_entry_served_from_cache offline
                  (js "bart") (worldAt 299999) bartEntry
                  supported_bart (lookup_singleton_eq _ _) eq_refl)).
Defined.

(** After a refresh that brought data, calls made within the TTL of the
    moment it was stored return that data and start no pipeline. *)
Lemma getIncidents_refreshed_then_served `{Upstream}
    (systemId : jsstring) (w w' : World) (d : IncidentData) (later : Z) :
  systemId ∈ supportedSystems ->
  ~ fresh systemId w ->
  dispatch systemId w = (Returned (Some d), w') ->
  later - clock w' < CACHE_TTL ->
  (getIncidents systemId w).1 = Returned (Some d)
  /\ getIncidents systemId (setClock later (getIncidents systemId w).2)
     = (Returned (Some d), setClock later (getIncidents systemId w).2).
Proof.
  intros Hs Hf Hd Hlater.
  rewrite getIncidents_miss, refresh_unfold, Hd by assumption.
  split; [reflexivity|]. cbn [snd].
  apply (getIncidents_hit systemId _ {| data := d; cachedAt := clock w' |});
    [assumption | apply lookup_insert_eq | assumption].
Qed.

(** C10: when the pipeline of [systemId] yields no data (it returned [null]
    or threw), [getIncidents] leaves the whole cache map as it was. *)
Theorem getIncidents_without_data_keeps_cache `{Upstream}
    (systemId : jsstring) (w : World) :
  (forall d, (dispatch systemId w).1 <> Returned (Some d)) ->
  incidentCache (getIncidents systemId w).2 = incidentCache w.
Proof.
  intros Hnone.
  destruct (decide (systemId ∈ supportedSystems)) as [Hs|Hs];
    [|now rewrite getIncidents_unsupported].
  destruct (incidentCache w !! systemId) as [entry|] eqn:E.
  - destruct (Z.lt_ge_cases (clock w - cachedAt entry) CACHE_TTL) as [Hlt|Hge].
    + now rewrite (getIncidents_hit systemId w entry).
    + rewrite getIncidents_miss, refresh_unfold; [|assumption|].
      * pose proof (dispatch_cache systemId w) as Hc.
        destruct (dispatch systemId w) as [[[d|]|e] w']; simpl in *;
          [now destruct (Hnone d) | assumption | assumption].
      * intros (e' & He' & Hlt). rewrite E in He'. injection He' as <-. lia.
  - rewrite getIncidents_miss, refresh_unfold; [|assumption|].
    + pose proof (dispatch_cache systemId w) as Hc.
      destruct (dispatch systemId w) as [[[d|]|e] w']; simpl in *;
        [now destruct (Hnone d) | assumption | assumption].
    + intros (e' & He' & _). rewrite E in He'. discriminate.
Qed.

Lemma getIncidents_without_data_keeps_cache_witness :
  incidentCache (@getIncidents offline (js "bart") (worldAt 300000)).2
  = {[ js "bart" := bartEntry ]}.
Proof.
  apply (@getIncidents_without_data_keeps_cache offline (js "bart")
           (worldAt 300000)).
  intros d. vm_compute. discriminate.
Defined.

(** C1 (as stated) fails: with a stale entry and a pipeline that returns
    [null], [getIncidents] answers [null], not the cached data. *)
Lemma getIncidents_stale_entry_not_returned :
  incidentCache (worldAt 300000) !! js "bart" = Some bartEntry
  /\ (@dispatch offline (js "bart") (worldAt 300000)).1 = Returned None
  /\ (@getIncidents offline (js "bart") (worldAt 300000)).1
     <> Returned (Some (data bartEntry)).
Proof.
  split; [apply lookup_singleton_eq|]. split; [reflexivity|].
  rewrite getIncidents_miss, refresh_unfold.
  - simpl. discriminate.
  - exact supported_bart.
  - intros (e & He & Hlt). unfold worldAt in He. simpl in He.
    rewrite lookup_singleton_eq in He. injection He as <-. simpl in Hlt.
    unfold CACHE_TTL in Hlt. lia.
Qed.


(** C1 (as amended): for a supported system without a fresh entry, a
    pipeline that returns [null] makes [getIncidents] return [null], whether
    or not an older entry exists, and the cache is left as it was; and
    [getIncidents] throws exactly what the pipeline itself threw. *)
Theorem getIncidents_null_pipeline_gives_null `{Upstream}
    (systemId : jsstring) (w : World) :
  systemId ∈ supportedSystems ->
  ~ fresh systemId w ->
  ((dispatch systemId w).1 = Returned None ->
   (getIncidents systemId w).1 = Returned None
   /\ incidentCache (getIncidents systemId w).2 = incidentCache w)
  /\ forall e, (getIncidents systemId w).1 = Threw e <->
               (dispatch systemId w).1 = Threw e.
Proof.
  intros Hs Hf.
  rewrite getIncidents_miss, refresh_unfold by assumption.
  pose proof (dispatch_cache systemId w) as Hc.
  destruct (dispatch systemId w) as [[[d|]|e] w']; simpl in *.
  - split; [discriminate|]. intros e; split; discriminate.
  - split; [auto|]. intros e; split; discriminate.
  - split; [discriminate|]. intros e'; split; auto.
Qed.

Lemma stale_not_fresh : ~ @fresh (js "bart") (worldAt 300000).
Proof.
  intros (e & He & Hlt). unfold worldAt in He. simpl in He.
  rewrite lookup_singleton_eq in He. injection He as <-. simpl in Hlt.
  unfold CACHE_TTL in Hlt. lia.
Qed.

Lemma getIncidents_null_pipeline_gives_null_witness :
  (@getIncidents offline (js "bart") (worldAt 300000)).1 = Returned None
  /\ incidentCache (@getIncidents offline (js "bart") (worldAt 300000)).2
     = incidentCache (worldAt 300000).
Proof.
  apply (proj1 (@getIncidents_null_pipeline_gives_null offline (js "bart")
                  (worldAt 300000) supported_bart stale_not_fresh)).
  reflexivity.
Defined.

End AggregatorFacts.

Module MatchFacts.
Import Samples.
Local Open Scope string_scope.
Local Open Scope Z_scope.

Section Batch.
Import BatchMatch.

Lemma countIf_ge b score : score <= countIf b score.
Proof. unfold countIf. destruct b; lia. Qed.

Lemma shuttle_fold_ge stationLines mapped score :
  score <= fold_left (fun sc m => countIf (arrayIncludes m stationLines) sc)
             mapped score.
Proof.
  revert score. induction mapped as [|m r IH]; intros score; simpl; [lia|].
  etransitivity; [|apply IH]. apply countIf_ge.
Qed.

Lemma overlapStep_ge stationLines score route :
  score <= overlapStep stationLines score route.
Proof.
  unfold overlapStep.
  pose proof (countIf_ge (arrayIncludes route stationLines) score).
  destruct (shuttleLines route) as [mapped|]; [|assumption].
  etransitivity; [eassumption | apply shuttle_fold_ge].
Qed.

Lemma overlapStep_served stationLines score route :
  route ∈ stationLines -> score + 1 <= overlapStep stationLines score route.
Proof.
  intros Hin. unfold overlapStep, arrayIncludes.
  rewrite bool_decide_eq_true_2 by assumption. cbn [countIf].
  destruct (shuttleLines route) as [mapped|]; [apply shuttle_fold_ge | lia].
Qed.

Lemma lineOverlap_fold_ge csvRoutes stationLines score :
  score <= fold_left (overlapStep stationLines) csvRoutes score.
Proof.
  revert score. induction csvRoutes as [|r rs IH]; intros score; simpl; [lia|].
  etransitivity; [apply (overlapStep_ge stationLines score r) | apply IH].
Qed.

Lemma lineOverlap_fold_full csvRoutes stationLines score :
  (forall r, r ∈ csvRoutes -> r ∈ stationLines) ->
  score + Z.of_nat (length csvRoutes)
  <= fold_left (overlapStep stationLines) csvRoutes score.
Proof.
  revert score. induction csvRoutes as [|r rs IH]; intros score Hall;
    cbn [fold_left length]; [lia|].
  assert (Hr : score + 1 <= overlapStep stationLines score r)
    by (apply overlapStep_served, Hall, elem_of_cons; auto).
  assert (Hrs : forall r', r' ∈ rs -> r' ∈ stationLines)
    by (intros r' Hr'; apply Hall, elem_of_cons; auto).
  specialize (IH (overlapStep stationLines score r) Hrs). lia.
Qed.

Lemma lineOverlap_nonneg csvRoutes stationLines :
  0 <= lineOverlap csvRoutes stationLines.
Proof. apply lineOverlap_fold_ge. Qed.

Lemma lineOverlap_full csvRoutes stationLines :
  (forall r, r ∈ csvRoutes -> r ∈ stationLines) ->
  Z.of_nat (length csvRoutes) <= lineOverlap csvRoutes stationLines.
Proof.
  intros Hall. unfold lineOverlap.
  pose proof (lineOverlap_fold_full csvRoutes stationLines 0 Hall). lia.
Qed.

Context `{MathBuiltins}.

Lemma chooseStation_margin row (hi lo : Station) :
  lineOverlap (daytimeRoutes row) (lines lo) + 2
    <= lineOverlap (daytimeRoutes row) (lines hi) ->
  0 <= lineOverlap (daytimeRoutes row) (lines lo) ->
  chooseStation row [hi; lo] = Some hi /\ chooseStation row [lo; hi] = Some hi.
Proof.
  intros Hgap Hlo. unfold chooseStation.
  cbn [List.map mathMax fold_left overlap score List.filter withinOne].
  set (a := lineOverlap (daytimeRoutes row) (lines hi)) in *.
  set (b := lineOverlap (daytimeRoutes row) (lines lo)) in *.
  rewrite (Z.max_l a b), (Z.max_r b a) by lia.
  replace (a - 1 <=? a) with true by (symmetry; apply Z.leb_le; lia).
  replace (a - 1 <=? b) with false by (symmetry; apply Z.leb_gt; lia).
  replace (0 <=? a) with true by (symmetry; apply Z.leb_le; lia).
  split; reflexivity.
Qed.

End Batch.

Section Live.
Import NycLive.

Lemma overlapOf_zero outageLines c :
  (forall l, l ∈ outageLines -> l ∉ lines c) -> overlapOf outageLines c = 0.
Proof.
  intros Hz. unfold overlapOf.
  replace (List.filter (fun l => arrayIncludes l outageLines) (lines c))
    with (@nil (list N)); [reflexivity|].
  symmetry. induction (lines c) as [|l r IH]; [reflexivity|].
  simpl. unfold arrayIncludes at 1.
  rewrite bool_decide_eq_false_2.
  - apply IH. intros l' Hin Hr. apply (Hz l' Hin), elem_of_cons. auto.
  - intros Hin. apply (Hz l Hin), elem_of_cons. auto.
Qed.

Lemma overlapOf_pos outageLines c l :
  l ∈ outageLines -> l ∈ lines c -> 0 < overlapOf outageLines c.
Proof.
  intros Ho Hc. unfold overlapOf.
  assert (Hin : l ∈ List.filter (fun l => arrayIncludes l outageLines) (lines c)).
  { apply list_elem_of_In, filter_In. split; [now apply list_elem_of_In|].
    unfold arrayIncludes. now apply bool_decide_eq_true_2. }
  destruct (List.filter _ (lines c)); [now apply elem_of_nil in Hin|].
  simpl. lia.
Qed.

Lemma matchStation_overlap trainno (full zero : Candidate) :
  trainno <> [] ->
  outageLinesOf trainno <> [] ->
  (forall l, l ∈ outageLinesOf trainno -> l ∈ lines full) ->
  (forall l, l ∈ outageLinesOf trainno -> l ∉ lines zero) ->
  matchStation trainno [full; zero] = Some full
  /\ matchStation trainno [zero; full] = Some full.
Proof.
  intros Ht Hne Hfull Hzero.
  assert (Hz : overlapOf (outageLinesOf trainno) zero = 0)
    by now apply overlapOf_zero.
  assert (Hf : 0 < overlapOf (outageLinesOf trainno) full).
  { destruct (outageLinesOf trainno) as [|l r] eqn:E; [contradiction|].
    apply (overlapOf_pos _ _ l); [|apply Hfull]; apply elem_of_cons; auto. }
  unfold matchStation. cbn [length fold_left].
  rewrite (bool_decide_eq_false_2 _ Ht).
  change (1 <? Z.of_nat 2) with true. cbn [negb andb].
  unfold better. rewrite Hz.
  rewrite (proj2 (Z.ltb_ge _ _) (Z.lt_le_incl _ _ Hf)).
  rewrite (proj2 (Z.ltb_lt _ _) Hf). cbv iota.
  rewrite (proj2 (Z.ltb_lt _ _) Hf).
  split; reflexivity.
Qed.

End Live.


Section BatchOrder.
Import BatchMatch.
Context `{MathBuiltins}.

Lemma insertSorted_length x sorted :
  length (insertSorted x sorted) = S (length sorted).
Proof.
  induction sorted as [|y r IH]; simpl; [reflexivity|].
  destruct (closer x y); simpl; [reflexivity | now rewrite IH].
Qed.

Lemma sortByDist_length l : length (sortByDist l) = length l.
Proof.
  unfold sortByDist.
  assert (Hgen : forall acc,
    length (fold_left (fun sorted x => insertSorted x sorted) l acc)
    = (length l + length acc)%nat).
  { induction l as [|x r IH]; intros acc; simpl; [reflexivity|].
    rewrite IH, insertSorted_length. lia. }
  rewrite Hgen. simpl. lia.
Qed.

Lemma mathMax_spec xs m :
  mathMax xs = Some m -> m ∈ xs /\ forall x, x ∈ xs -> x <= m.
Proof.
  destruct xs as [|x r]; [discriminate|]. simpl. intros [= <-].
  revert x. induction r as [|y r IH]; intros x; simpl.
  - split; [apply elem_of_cons; auto|].
    intros z Hz. apply list_elem_of_singleton in Hz. lia.
  - destruct (IH (Z.max x y)) as [Hin Hle]. split.
    + apply elem_of_cons in Hin as [Heq|Hin].
      * rewrite Heq. destruct (Z.max_spec x y) as [[_ ->]|[_ ->]];
          rewrite !elem_of_cons; auto.
      * rewrite !elem_of_cons; auto.
    + intros z Hz. rewrite !elem_of_cons in Hz.
      destruct Hz as [->|[->|Hz]].
      * specialize (Hle (Z.max x y)). rewrite elem_of_cons in Hle.
        specialize (Hle (or_introl eq_refl)). lia.
      * specialize (Hle (Z.max x y)). rewrite elem_of_cons in Hle.
        specialize (Hle (or_introl eq_refl)). lia.
      * apply Hle. rewrite elem_of_cons. auto.
Qed.

(** [topCandidates[0]] always exists: [chooseStation] answers for every
    non-empty candidate list. *)
Lemma chooseStation_total row candidates :
  candidates <> [] -> is_Some (chooseStation row candidates).
Proof.
  destruct candidates as [|c0 [|c1 r]]; [contradiction | eauto |]. intros _.
  unfold chooseStation.
  set (scored := List.map (score row) (c0 :: c1 :: r)).
  destruct (mathMax (List.map overlap scored)) as [m|] eqn:Em;
    [|discriminate].
  destruct (mathMax_spec _ _ Em) as [Hin Hle].
  apply list_elem_of_In, in_map_iff in Hin as (s & Hs & Hin).
  assert (Hpos : 0 <= overlap s).
  { subst scored. apply in_map_iff in Hin as (c & <- & _).
    apply lineOverlap_nonneg. }
  match goal with |- is_Some (station <$> head (sortByDist ?t)) =>
    assert (Ht : s ∈ t) end.
  { apply list_elem_of_In, filter_In. split; [assumption|].
    cbn [withinOne]. apply andb_true_iff. rewrite !Z.leb_le. lia. }
  match goal with |- is_Some (station <$> head (sortByDist ?t)) =>
    pose proof (sortByDist_length t) as Hlen; destruct t as [|t0 tr];
    [now apply elem_of_nil in Ht|] end.
  destruct (sortByDist (t0 :: tr)); [discriminate | simpl; eauto].
Qed.

(** Within the margin of one, the closer candidate wins. *)
Lemma chooseStation_margin_one_closer row (hi lo : Station) :
  lineOverlap (daytimeRoutes row) (lines hi)
  = lineOverlap (daytimeRoutes row) (lines lo) + 1 ->
  closer (score row lo) (score row hi) = true ->
  chooseStation row [hi; lo] = Some lo.
Proof.
  intros Hgap Hcl. unfold chooseStation.
  cbn [List.map mathMax fold_left List.filter withinOne].
  pose proof (lineOverlap_nonneg (daytimeRoutes row) (lines lo)) as Hlo.
  set (sh := score row hi) in *. set (sl := score row lo) in *.
  change (overlap sh) with (lineOverlap (daytimeRoutes row) (lines hi)).
  change (overlap sl) with (lineOverlap (daytimeRoutes row) (lines lo)).
  set (a := lineOverlap (daytimeRoutes row) (lines hi)) in *.
  set (b := lineOverlap (daytimeRoutes row) (lines lo)) in *.
  rewrite (Z.max_l a b) by lia.
  rewrite (proj2 (Z.leb_le (a - 1) a)), (proj2 (Z.leb_le (a - 1) b)),
    (proj2 (Z.leb_le 0 a)), (proj2 (Z.leb_le 0 b)) by lia.
  cbn [andb]. unfold sortByDist. cbn [fold_left insertSorted].
  now rewrite Hcl.
Qed.

(** Two candidates whose scores differ by at most one are both kept: the
    second one is chosen when the comparator puts it strictly before the
    first, the first one otherwise. *)
Lemma chooseStation_close_scores row (first second : Station) :
  Z.abs (lineOverlap (daytimeRoutes row) (lines first)
         - lineOverlap (daytimeRoutes row) (lines second)) <= 1 ->
  chooseStation row [first; second]
  = Some (if closer (score row second) (score row first)
          then second else first).
Proof.
  intros Hgap. unfold chooseStation.
  cbn [List.map mathMax fold_left List.filter withinOne].
  pose proof (lineOverlap_nonneg (daytimeRoutes row) (lines first)) as Hf.
  pose proof (lineOverlap_nonneg (daytimeRoutes row) (lines second)) as Hs.
  set (s1 := score row first) in *. set (s2 := score row second) in *.
  change (overlap s1) with (lineOverlap (daytimeRoutes row) (lines first)).
  change (overlap s2) with (lineOverlap (daytimeRoutes row) (lines second)).
  set (a := lineOverlap (daytimeRoutes row) (lines first)) in *.
  set (b := lineOverlap (daytimeRoutes row) (lines second)) in *.
  rewrite (proj2 (Z.leb_le (Z.max a b - 1) a)),
    (proj2 (Z.leb_le (Z.max a b - 1) b)),
    (proj2 (Z.leb_le 0 a)), (proj2 (Z.leb_le 0 b)) by lia.
  cbn [andb]. unfold sortByDist. cbn [fold_left insertSorted].
  now destruct (closer s2 s1).
Qed.

End BatchOrder.

(** C3 (as amended): with two candidates, for route codes that are not
    names of members of [Object.prototype].  Batch tool: a candidate whose
    [lineOverlap] score is at least two above the other's is selected in
    either order, whatever the coordinates; this is the case when it serves
    every route of a row of at least two routes and the other candidate
    scores no overlap.  When the two scores differ by at most one (a single
    route served by one candidate only, say) both candidates are kept and
    the distances decide: the second candidate is selected when the
    comparator puts it strictly before the first, otherwise the first.
    Live resolver: the candidate serving every line of the outage is
    selected when there is at least one such line and the other candidate
    serves none; no coordinate enters that choice. *)
Theorem full_overlap_candidate_selected `{BatchMatch.MathBuiltins} :
  (forall (row : BatchMatch.CsvRow) (full zero : BatchMatch.Station),
     forallb OwnKeys.plainKey (BatchMatch.daytimeRoutes row) = true ->
     BatchMatch.lineOverlap (BatchMatch.daytimeRoutes row)
       (BatchMatch.lines zero) + 2
     <= BatchMatch.lineOverlap (BatchMatch.daytimeRoutes row)
          (BatchMatch.lines full) ->
     BatchMatch.chooseStation row [full; zero] = Some full
     /\ BatchMatch.chooseStation row [zero; full] = Some full)
  /\ (forall (row : BatchMatch.CsvRow) (full zero : BatchMatch.Station),
        forallb OwnKeys.plainKey (BatchMatch.daytimeRoutes row) = true ->
        (forall r, r ∈ BatchMatch.daytimeRoutes row ->
                   r ∈ BatchMatch.lines full) ->
        BatchMatch.lineOverlap (BatchMatch.daytimeRoutes row)
          (BatchMatch.lines zero) = 0 ->
        (2 <= length (BatchMatch.daytimeRoutes row))%nat ->
        BatchMatch.chooseStation row [full; zero] = Some full
        /\ BatchMatch.chooseStation row [zero; full] = Some full)
  /\ (forall (row : BatchMatch.CsvRow) (first second : BatchMatch.Station),
        forallb OwnKeys.plainKey (BatchMatch.daytimeRoutes row) = true ->
        Z.abs (BatchMatch.lineOverlap (BatchMatch.daytimeRoutes row)
                 (BatchMatch.lines first)
               - BatchMatch.lineOverlap (BatchMatch.daytimeRoutes row)
                   (BatchMatch.lines second)) <= 1 ->
        BatchMatch.chooseStation row [first; second]
        = Some (if PrimFloat.ltb
                     (BatchMatch.dist (BatchMatch.score row second)
                      - BatchMatch.dist (BatchMatch.score row first))%float
                     0%float
                then second else first))
  /\ (forall (trainno : jsstring) (full zero : NycLive.Candidate),
        Views.plainTrains trainno = true ->
        trainno <> [] ->
        NycLive.outageLinesOf trainno <> [] ->
        (forall l, l ∈ NycLive.outageLinesOf trainno -> l ∈ NycLive.lines full) ->
        (forall l, l ∈ NycLive.outageLinesOf trainno -> l ∉ NycLive.lines zero) ->
        NycLive.matchStation trainno [full; zero] = Some full
        /\ NycLive.matchStation trainno [zero; full] = Some full).
Proof.
  split; [|split; [|split]].
  - intros row full zero _ Hgap.
    apply chooseStation_margin; [assumption|].
    apply lineOverlap_nonneg.
  - intros row full zero _ Hfull Hzero Hlen.
    apply chooseStation_margin; [|lia].
    pose proof (lineOverlap_full _ _ Hfull). lia.
  - intros row first second _ Hgap.
    now apply chooseStation_close_scores.
  - intros trainno full zero _. apply matchStation_overlap.
Qed.

Ltac concrete_lines :=
  unfold rowOn, stationOn, stationAt, candidateOn in *;
  cbn [BatchMatch.daytimeRoutes BatchMatch.lines NycLive.lines List.map] in *.

(** Sample runs of the four parts: the shuttle row "S" against a station
    served by "S" and "S-42" (score 2 against 0); a row on the N and Q; a
    row on the N alone, where the candidate without any of its routes lies
    at the row's own coordinates and is selected; an outage on "N/Q". *)
Lemma full_overlap_candidate_selected_witness :
  @BatchMatch.chooseStation identityMath (rowOn ["S"])
     [stationAt "canal-st-ind" ["A"; "C"; "E"] 40.75 (-74.0);
      stationOn "times-sq-42-st" ["S"; "S-42"]]
  = Some (stationOn "times-sq-42-st" ["S"; "S-42"])
  /\ @BatchMatch.chooseStation identityMath (rowOn ["N"; "Q"])
       [stationOn "canal-st-bmt" ["N"; "Q"; "R"];
        stationOn "canal-st-ind" ["A"; "C"; "E"]]
     = Some (stationOn "canal-st-bmt" ["N"; "Q"; "R"])
  /\ @BatchMatch.chooseStation identityMath (rowOn ["N"])
       [stationOn "canal-st-bmt" ["N"; "Q"; "R"];
        stationAt "canal-st-ind" ["A"; "C"; "E"] 40.75 (-74.0)]
     = Some (stationAt "canal-st-ind" ["A"; "C"; "E"] 40.75 (-74.0))
  /\ NycLive.matchStation (js "N/Q")
       [candidateOn "canal-st-ind" ["A"; "C"; "E"];
        candidateOn "canal-st-bmt" ["N"; "Q"; "R"]]
     = Some (candidateOn "canal-st-bmt" ["N"; "Q"; "R"]).
Proof.
  destruct (@full_overlap_candidate_selected identityMath)
    as (Hgap & Hbatch & Hclose & Hlive).
  split; [|split; [|split]].
  - refine (proj2 (Hgap (rowOn ["S"])
                     (stationOn "times-sq-42-st" ["S"; "S-42"])
                     (stationAt "canal-st-ind" ["A"; "C"; "E"] 40.75 (-74.0))
                     _ _)).
    + reflexivity.
    + vm_compute. discriminate.
  - refine (proj1 (Hbatch (rowOn ["N"; "Q"])
                     (stationOn "canal-st-bmt" ["N"; "Q"; "R"])
                     (stationOn "canal-st-ind" ["A"; "C"; "E"]) _ _ _ _)).
    + reflexivity.
    + intros r Hr. concrete_lines. rewrite !elem_of_cons in *. tauto.
    + reflexivity.
    + simpl. lia.
  - rewrite (Hclose (rowOn ["N"])
               (stationOn "canal-st-bmt" ["N"; "Q"; "R"])
               (stationAt "canal-st-ind" ["A"; "C"; "E"] 40.75 (-74.0))).
    + vm_compute. reflexivity.
    + reflexivity.
    + vm_compute. discriminate.
  - refine (proj2 (Hlive (js "N/Q")
                     (candidateOn "canal-st-bmt" ["N"; "Q"; "R"])
                     (candidateOn "canal-st-ind" ["A"; "C"; "E"]) _ _ _ _ _)).
    + reflexivity.
    + discriminate.
    + discriminate.
    + intros l Hl. concrete_lines.
      change (NycLive.outageLinesOf (js "N/Q")) with [js "N"; js "Q"] in Hl.
      rewrite !elem_of_cons in *. tauto.
    + intros l Hl. concrete_lines.
      change (NycLive.outageLinesOf (js "N/Q")) with [js "N"; js "Q"] in Hl.
      rewrite !elem_of_cons, elem_of_nil in Hl.
      rewrite !not_elem_of_cons.
      destruct Hl as [->|[->|[]]]; repeat split; try discriminate;
        apply not_elem_of_nil.
Defined.

(** C3 (as stated) fails in the batch tool: with a single route on the row
    the zero-overlap candidate is within the margin of one, and here, no
    candidate having coordinates, the first one is kept. *)
Lemma chooseStation_keeps_zero_overlap_candidate :
  (forall r, r ∈ BatchMatch.daytimeRoutes (rowOn ["N"]) ->
             r ∈ BatchMatch.lines (stationOn "canal-st-bmt" ["N"; "Q"; "R"]))
  /\ (forall r, r ∈ BatchMatch.daytimeRoutes (rowOn ["N"]) ->
                r ∉ BatchMatch.lines (stationOn "canal-st-ind" ["A"; "C"; "E"]))
  /\ @BatchMatch.chooseStation identityMath (rowOn ["N"])
       [stationOn "canal-st-ind" ["A"; "C"; "E"];
        stationOn "canal-st-bmt" ["N"; "Q"; "R"]]
     = Some (stationOn "canal-st-ind" ["A"; "C"; "E"])
  /\ stationOn "canal-st-ind" ["A"; "C"; "E"]
     <> stationOn "canal-st-bmt" ["N"; "Q"; "R"].
Proof.
  split; [|split; [|split]].
  - intros r Hr. concrete_lines. rewrite !elem_of_cons in *. tauto.
  - intros r Hr. concrete_lines.
    rewrite !elem_of_cons, elem_of_nil in Hr.
    rewrite !not_elem_of_cons.
    destruct Hr as [->|[]]; repeat split; try discriminate;
      apply not_elem_of_nil.
  - reflexivity.
  - discriminate.
Qed.

End MatchFacts.

Module NormalFormFacts.
Import StringShape StringFacts Normalize NormalizeFacts.

Lemma Avoids_isSlash_of_both s : Avoids isSlashOrBackslash s -> Avoids isSlash s.
Proof.
  unfold Avoids. intros Hs. eapply Forall_impl; [exact Hs|]. intros c Hc.
  unfold isSlashOrBackslash, isSlash in *. now apply orb_false_iff in Hc as [Hc _].
Qed.

(** X1: whatever the host's case conversion, a normalized station name
    (of either function) holds no hyphen, dash or slash, and each later
    step of the normalization leaves it as it is: nothing in parentheses
    is left to strip, white space is already collapsed and trimmed. *)
Theorem normalized_name_is_in_normal_form `{StringBuiltins}
    (f : Normalization) (s : jsstring) :
  Avoids isDash (normalizeWith f s)
  /\ Avoids isSlash (normalizeWith f s)
  /\ stripParens (normalizeWith f s) = normalizeWith f s
  /\ collapseSpaces (normalizeWith f s) = normalizeWith f s
  /\ trim (normalizeWith f s) = normalizeWith f s.
Proof.
  rewrite normalizeWith_tail. set (x := toLowerCase s).
  assert (Hshape : Shaped (tailOf f x))
    by (destruct f; apply finish_Shaped).
  assert (Hdash : Avoids isDash (tailOf f x)).
  { destruct f; unfold tailOf, liveTail, batchTail;
      (apply finish_Avoids; [reflexivity|]).
    - apply Avoids_replaceClass; [reflexivity|].
      now apply Avoids_replaceClass_same.
    - do 2 (apply Avoids_replaceClass; [reflexivity|]).
      now apply Avoids_replaceClass_same. }
  assert (Hslash : Avoids isSlash (tailOf f x)).
  { destruct f; unfold tailOf, liveTail, batchTail.
    - apply Avoids_isSlash_of_both, finish_Avoids; [reflexivity|].
      now apply Avoids_replaceClass_same.
    - apply finish_Avoids; [reflexivity|]. now apply Avoids_replaceClass_same. }
  destruct Hshape as [Hu Hs Hh He].
  repeat split; try assumption.
  - now apply stripParens_id.
  - now apply collapseSpaces_id.
  - unfold trim. now rewrite trimStart_id.
Qed.

End NormalFormFacts.

Module ObjectFacts.
Import HostFacts Views.

Section Keys.
Context {V : Type}.
Implicit Types (o : list (list N * V)) (k : list N).

Lemma objGet_None_keys k o : objGet k o = None <-> k ∉ objKeys o.
Proof.
  unfold objKeys. induction o as [|[k' v] r IH]; simpl.
  - split; [intros _; apply not_elem_of_nil | reflexivity].
  - rewrite not_elem_of_cons. case_bool_decide as E.
    + split; [discriminate|]. intros [Hne _]. congruence.
    + rewrite IH. split; [intros Hr; split; [congruence | assumption] | tauto].
Qed.

Lemma objGet_Some_keys k o : is_Some (objGet k o) <-> k ∈ objKeys o.
Proof.
  destruct (objGet k o) as [v|] eqn:E.
  - split; [intros _|eauto].
    destruct (decide (k ∈ objKeys o)) as [|Hn]; [assumption|].
    apply objGet_None_keys in Hn. congruence.
  - split; [intros [? [=]]|]. intros Hin. apply objGet_None_keys in E. contradiction.
Qed.

Lemma objKeys_objSet k (v : V) o :
  objKeys (objSet k v o) = match objGet k o with Some _ => objKeys o | None => objKeys o ++ [k] end.
Proof.
  destruct (objGet k o) eqn:E.
  - apply objKeys_objSet_old. eauto.
  - now apply objKeys_objSet_new.
Qed.

End Keys.

Section Lists.
Context {V : Type}.
Implicit Types (o : list (list N * list V)) (k : list N).

Lemma objKeys_objEnsure k o :
  objKeys (objEnsure k o) = match objGet k o with Some _ => objKeys o | None => objKeys o ++ [k] end.
Proof.
  unfold objEnsure. destruct (objGet k o) eqn:E; [reflexivity|].
  now apply objKeys_objSet_new.
Qed.

Lemma NoDup_objKeys_objEnsure k o :
  NoDup (objKeys o) -> NoDup (objKeys (objEnsure k o)).
Proof.
  intros Hnd. rewrite objKeys_objEnsure. destruct (objGet k o) eqn:E; [assumption|].
  apply NoDup_app. repeat split; [assumption| |apply NoDup_singleton].
  intros x Hx Hk. apply list_elem_of_singleton in Hk. subst x.
  now apply objGet_None_keys in E.
Qed.

Lemma countWhere_objSet_nil p k o :
  objGet k o = None -> countWhere p (objSet k [] o) = countWhere p o.
Proof.
  unfold countWhere, objValues. induction o as [|[k' l] r IH]; simpl; [reflexivity|].
  destruct (bool_decide (k' = k)); [discriminate|].
  intros Hn. simpl. rewrite !List.filter_app, !length_app. now rewrite (IH Hn).
Qed.

Lemma countWhere_objEnsure p k o : countWhere p (objEnsure k o) = countWhere p o.
Proof.
  unfold objEnsure. destruct (objGet k o) eqn:E; [reflexivity|].
  now apply countWhere_objSet_nil.
Qed.

Lemma countWhere_objPush p k (x : V) o :
  is_Some (objGet k o) ->
  countWhere p (objPush k x o) = (countWhere p o + if p x then 1 else 0)%nat.
Proof.
  unfold countWhere, objValues. induction o as [|[k' l] r IH]; simpl.
  - intros [? [=]].
  - destruct (bool_decide (k' = k)); simpl; rewrite !List.filter_app, !length_app.
    + intros _. simpl. destruct (p x); simpl; lia.
    + intros Hs. rewrite (IH Hs). lia.
Qed.

End Lists.

End ObjectFacts.

Module DetectFacts.
Import HostFacts ObjectFacts Normalizer NormalizerFacts Wmata WmataFacts.
Import OwnKeys Samples.
Local Open Scope Z_scope.

Section Step.
Variables (hasElev hasEsc : bool) (headerText postedAt : jsstring)
  (expiresAt : option jsstring).

Let step := detectStep hasElev hasEsc headerText postedAt expiresAt.

Lemma detectStep_prefix st k' k l :
  objGet k (byStation st) = Some l ->
  exists more, objGet k (byStation (step st k')) = Some (l ++ more).
Proof.
  intros Hl. destruct (decide (k' = k)) as [->|Hne].
  - subst step. rewrite detectStep_same, Hl. simpl. eauto.
  - subst step. rewrite detectStep_other by assumption.
    exists []. now rewrite app_nil_r.
Qed.

Lemma detectStep_keys st k :
  exists new, objKeys (byStation (step st k)) = objKeys (byStation st) ++ new.
Proof.
  subst step. unfold detectStep.
  exists (match objGet k (byStation st) with Some _ => [] | None => [k] end).
  destruct hasElev, hasEsc; simpl; rewrite ?objKeys_objPush, objKeys_objEnsure;
    destruct (objGet k (byStation st)); now rewrite ?app_nil_r.
Qed.

Lemma detectStep_units st k :
  Z.of_nat (unitsOf (byStation (step st k))) + elevators st + escalators st
  = Z.of_nat (unitsOf (byStation st))
    + elevators (step st k) + escalators (step st k).
Proof.
  subst step. unfold detectStep.
  assert (He : is_Some (objGet k (objEnsure k (byStation st))))
    by (rewrite objGet_objEnsure_eq; eauto).
  destruct hasElev, hasEsc; simpl;
    rewrite ?unitsOf_objPush, ?unitsOf_objEnsure; try lia; try assumption.
  destruct He as [l He]. erewrite objGet_objPush_eq; eauto.
Qed.

Lemma detectStep_nonneg st k :
  elevators st <= elevators (step st k) /\ escalators st <= escalators (step st k).
Proof. subst step. unfold detectStep. destruct hasElev, hasEsc; simpl; lia. Qed.

Lemma detect_fold_frame stations st :
  (forall k l, objGet k (byStation st) = Some l ->
     exists more, objGet k (byStation (fold_left step stations st))
                  = Some (l ++ more))
  /\ (exists new, objKeys (byStation (fold_left step stations st))
                  = objKeys (byStation st) ++ new)
  /\ Z.of_nat (unitsOf (byStation (fold_left step stations st)))
     + elevators st + escalators st
     = Z.of_nat (unitsOf (byStation st))
       + elevators (fold_left step stations st)
       + escalators (fold_left step stations st)
  /\ elevators st <= elevators (fold_left step stations st)
  /\ escalators st <= escalators (fold_left step stations st).
Proof.
  revert st. induction stations as [|k0 r IH]; intros st; cbn [fold_left].
  - repeat split; try lia.
    + intros k l Hl. exists []. now rewrite app_nil_r.
    + exists []. now rewrite app_nil_r.
  - destruct (IH (step st k0)) as (Hpre & [new Hkeys] & Hunits & He & Hs).
    destruct (detectStep_keys st k0) as [new0 Hk0].
    pose proof (detectStep_units st k0) as Hu0.
    destruct (detectStep_nonneg st k0) as [He0 Hs0].
    repeat split; try lia.
    + intros k l Hl. destruct (detectStep_prefix st k0 k l Hl) as [m1 H1].
      destruct (Hpre k _ H1) as [m2 H2]. exists (m1 ++ m2).
      now rewrite H2, app_assoc.
    + exists (new0 ++ new). now rewrite Hkeys, Hk0, app_assoc.
Qed.

End Step.

Lemma detectEquipmentOutages_frame `{StringBuiltins}
    (fullText : jsstring) (affectedStations : list jsstring)
    (outagesByStation : list (list N * list UnitOutage))
    (headerText postedAt : jsstring) (expiresAt : option jsstring) :
  (forall k l, objGet k outagesByStation = Some l ->
     exists more,
       objGet k (byStation (detectEquipmentOutages fullText affectedStations
                              outagesByStation headerText postedAt expiresAt))
       = Some (l ++ more))
  /\ (exists new,
        objKeys (byStation (detectEquipmentOutages fullText affectedStations
                              outagesByStation headerText postedAt expiresAt))
        = objKeys outagesByStation ++ new)
  /\ Z.of_nat (unitsOf (byStation (detectEquipmentOutages fullText
                  affectedStations outagesByStation headerText postedAt
                  expiresAt)))
     = Z.of_nat (unitsOf outagesByStation)
       + elevators (detectEquipmentOutages fullText affectedStations
                      outagesByStation headerText postedAt expiresAt)
       + escalators (detectEquipmentOutages fullText affectedStations
                       outagesByStation headerText postedAt expiresAt)
  /\ 0 <= elevators (detectEquipmentOutages fullText affectedStations
                       outagesByStation headerText postedAt expiresAt)
  /\ 0 <= escalators (detectEquipmentOutages fullText affectedStations
                        outagesByStation headerText postedAt expiresAt).
Proof.
  unfold detectEquipmentOutages.
  set (e := hasElevatorOutage (toLowerCase fullText)).
  set (s := hasEscalatorOutage (toLowerCase fullText)).
  set (start := {| byStation := outagesByStation; elevators := 0; escalators := 0 |}).
  destruct (detect_fold_frame e s headerText postedAt expiresAt
              affectedStations start) as (Hpre & Hkeys & Hunits & He & Hs).
  destruct ((e || s) && (0 <? Z.of_nat (length affectedStations))).
  - simpl in *. repeat split; try assumption; lia.
  - simpl. repeat split; try lia.
    + intros k l Hl. exists []. now rewrite app_nil_r.
    + exists []. now rewrite app_nil_r.
Qed.

Lemma detectStep_NoDup hasElev hasEsc headerText postedAt expiresAt st k :
  NoDup (objKeys (byStation st)) ->
  NoDup (objKeys (byStation
           (detectStep hasElev hasEsc headerText postedAt expiresAt st k))).
Proof.
  intros Hnd. unfold detectStep.
  destruct hasElev, hasEsc; simpl; rewrite ?objKeys_objPush;
    now apply NoDup_objKeys_objEnsure.
Qed.

Lemma detectEquipmentOutages_NoDup `{StringBuiltins}
    fullText affectedStations outagesByStation headerText postedAt expiresAt :
  NoDup (objKeys outagesByStation) ->
  NoDup (objKeys (byStation (detectEquipmentOutages fullText affectedStations
                               outagesByStation headerText postedAt expiresAt))).
Proof.
  intros Hnd. unfold detectEquipmentOutages.
  destruct (_ && _); [|assumption].
  set (start := {| byStation := outagesByStation; elevators := 0; escalators := 0 |}).
  assert (Hs : NoDup (objKeys (byStation start))) by assumption.
  clearbody start. revert start Hs.
  induction affectedStations as [|k r IH]; intros start Hs; cbn [fold_left];
    [assumption|].
  apply IH. now apply detectStep_NoDup.
Qed.

(** X2: [detectEquipmentOutages] only ever appends.  Every station already
    in [outagesByStation] keeps its entries as a prefix of its new list, the
    existing keys keep their order with new stations added behind them, and
    the two returned counters (never negative) add up to the number of
    entries that were added. *)
Theorem detectEquipmentOutages_only_appends `{StringBuiltins}
    (fullText : jsstring) (affectedStations : list jsstring)
    (outagesByStation : list (list N * list UnitOutage))
    (headerText postedAt : jsstring) (expiresAt : option jsstring) :
  forallb plainKey affectedStations = true ->
  existsb isArrayIndex (objKeys outagesByStation ++ affectedStations) = false ->
  (forall k l, objGet k outagesByStation = Some l ->
     exists more,
       objGet k (byStation (detectEquipmentOutages fullText affectedStations
                              outagesByStation headerText postedAt expiresAt))
       = Some (l ++ more))
  /\ (exists new,
        objKeys (byStation (detectEquipmentOutages fullText affectedStations
                              outagesByStation headerText postedAt expiresAt))
        = objKeys outagesByStation ++ new)
  /\ Z.of_nat (unitsOf (byStation (detectEquipmentOutages fullText
                  affectedStations outagesByStation headerText postedAt
                  expiresAt)))
     = Z.of_nat (unitsOf outagesByStation)
       + elevators (detectEquipmentOutages fullText affectedStations
                      outagesByStation headerText postedAt expiresAt)
       + escalators (detectEquipmentOutages fullText affectedStations
                       outagesByStation headerText postedAt expiresAt)
  /\ 0 <= elevators (detectEquipmentOutages fullText affectedStations
                       outagesByStation headerText postedAt expiresAt)
  /\ 0 <= escalators (detectEquipmentOutages fullText affectedStations
                        outagesByStation headerText postedAt expiresAt).
Proof. intros _ _. apply detectEquipmentOutages_frame. Qed.

Lemma detectEquipmentOutages_only_appends_witness :
  exists new,
    objKeys (byStation
               (@detectEquipmentOutages latinDeseret mainStText
                  [js "main-st"] [(js "upton", [])] mainStText mainStPosted
                  None))
    = objKeys [(js "upton", @nil UnitOutage)] ++ new.
Proof.
  exact (proj1 (proj2
    (@detectEquipmentOutages_only_appends latinDeseret mainStText
       [js "main-st"] [(js "upton", [])] mainStText mainStPosted None
       eq_refl eq_refl))).
Defined.

End DetectFacts.

Module WmataGroupFacts.
Import HostFacts ObjectFacts Wmata WmataFacts OwnKeys Views Samples MoreSamples.
Local Open Scope Z_scope.

Section WithHost.
Context `{StringBuiltins}.

Lemma groupStep_lookup o incident s :
  objGet s (groupStep o incident)
  = extended (objGet s o)
      (if atStation s incident then [outageOf incident] else []).
Proof.
  unfold groupStep, atStation.
  destruct (stationOfCode (StationCode incident)) as [k|] eqn:Ek.
  - case_bool_decide as E.
    + injection E as ->.
      erewrite objGet_objPush_eq by apply objGet_objEnsure_eq.
      unfold extended. now destruct (objGet s o).
    + assert (k <> s) by congruence.
      rewrite objGet_objPush_ne, objGet_objEnsure_ne by assumption.
      unfold extended. destruct (objGet s o); simpl; now rewrite ?app_nil_r.
  - rewrite bool_decide_eq_false_2 by discriminate.
    unfold extended. destruct (objGet s o); simpl; now rewrite ?app_nil_r.
Qed.

Lemma extended_extended {V} (old : option (list V)) a b :
  extended (extended old a) b = extended old (a ++ b).
Proof.
  unfold extended. destruct old as [l|], a as [|x a], b as [|y b]; simpl;
    rewrite ?app_nil_r, <- ?app_assoc; reflexivity.
Qed.

Lemma group_fold_lookup incidents o s :
  objGet s (fold_left groupStep incidents o)
  = extended (objGet s o)
      (List.map outageOf (List.filter (atStation s) incidents)).
Proof.
  revert o. induction incidents as [|i r IH]; intros o; cbn [fold_left].
  - unfold extended. simpl. destruct (objGet s o); now rewrite ?app_nil_r.
  - rewrite IH, groupStep_lookup, extended_extended. cbn [List.filter].
    now destruct (atStation s i).
Qed.

Lemma groupStep_NoDup o incident :
  NoDup (objKeys o) -> NoDup (objKeys (groupStep o incident)).
Proof.
  intros Hnd. unfold groupStep.
  destruct (stationOfCode (StationCode incident)); [|assumption].
  rewrite objKeys_objPush. now apply NoDup_objKeys_objEnsure.
Qed.

Lemma group_fold_NoDup incidents o :
  NoDup (objKeys o) -> NoDup (objKeys (fold_left groupStep incidents o)).
Proof.
  revert o. induction incidents as [|i r IH]; intros o Hnd; cbn [fold_left];
    [assumption|]. now apply IH, groupStep_NoDup.
Qed.

Lemma groupStep_count p o incident :
  countWhere p (groupStep o incident)
  = (countWhere p o
     + if mapped incident && p (outageOf incident) then 1 else 0)%nat.
Proof.
  unfold groupStep, mapped.
  destruct (stationOfCode (StationCode incident)) as [k|] eqn:Ek.
  - rewrite bool_decide_eq_true_2 by eauto.
    rewrite countWhere_objPush, countWhere_objEnsure; [reflexivity|].
    rewrite objGet_objEnsure_eq. eauto.
  - rewrite bool_decide_eq_false_2; [simpl; lia|]. intros [? [=]].
Qed.

Lemma group_fold_count p incidents o :
  countWhere p (fold_left groupStep incidents o)
  = (countWhere p o
     + length (List.filter (fun i => mapped i && p (outageOf i)) incidents))%nat.
Proof.
  revert o. induction incidents as [|i r IH]; intros o; cbn [fold_left List.filter];
    [simpl; lia|].
  rewrite IH, groupStep_count. destruct (mapped i && p (outageOf i)); simpl; lia.
Qed.

End WithHost.

Lemma countStep_split acc o :
  countStep acc o = (acc.1 + (if isElevator o then 1 else 0),
                     acc.2 + (if isElevator o then 0 else 1)).
Proof.
  unfold countStep, isElevator. case_bool_decide; f_equal; lia.
Qed.

Lemma countStep_fold_split l acc :
  fold_left countStep l acc
  = (acc.1 + Z.of_nat (length (List.filter isElevator l)),
     acc.2 + Z.of_nat (length (List.filter (fun o => negb (isElevator o)) l))).
Proof.
  revert acc. induction l as [|o r IH]; intros [a b]; cbn [fold_left List.filter].
  - simpl. f_equal; lia.
  - rewrite IH, countStep_split. destruct (isElevator o); simpl; f_equal; lia.
Qed.

Lemma countUnits_split (o : list (list N * list UnitOutage)) :
  countUnits o = (Z.of_nat (countWhere isElevator o),
                  Z.of_nat (countWhere (fun x => negb (isElevator x)) o)).
Proof.
  unfold countUnits, countWhere.
  assert (Hgen : forall vs acc,
    fold_left (fun acc outages => fold_left countStep outages acc) vs acc
    = (acc.1 + Z.of_nat (length (List.filter isElevator (concat vs))),
       acc.2 + Z.of_nat (length (List.filter (fun x => negb (isElevator x))
                                   (concat vs))))).
  { induction vs as [|l r IH]; intros [a b]; cbn [fold_left concat].
    - simpl. f_equal; lia.
    - rewrite IH, countStep_fold_split, !List.filter_app, !length_app.
      simpl. f_equal; lia. }
  rewrite Hgen. simpl. reflexivity.
Qed.

(** X3: [processIncidents] files every incident with a known station code
    under that station, in input order: a station's list is exactly the
    outages of the incidents whose code maps to it, and a station without
    such an incident has no key. *)
Theorem processIncidents_groups_by_station `{StringBuiltins}
    (nowIso : jsstring) (incidents : list WMATAIncident) (stationId : jsstring) :
  plainCodes incidents = true ->
  objGet stationId (outagesByStation (processIncidents nowIso incidents))
  = match List.filter (atStation stationId) incidents with
    | [] => None
    | here => Some (List.map outageOf here)
    end.
Proof.
  intros _. cbn [processIncidents outagesByStation]. unfold groupByStation.
  rewrite group_fold_lookup. cbn [objGet]. unfold extended.
  now destruct (List.filter (atStation stationId) incidents).
Qed.

Lemma processIncidents_groups_by_station_witness :
  objGet (js "metro-center")
    (outagesByStation
       (@processIncidents latinDeseret mainStPosted
          [unknownStation; metroCenterElevator]))
  = Some [@outageOf latinDeseret metroCenterElevator].
Proof.
  exact (@processIncidents_groups_by_station latinDeseret mainStPosted
           [unknownStation; metroCenterElevator] (js "metro-center") eq_refl).
Defined.

(** X4: the keys of [outagesByStation] are duplicate-free and are exactly
    the stations of the incidents with a known code, so [stationsAffected]
    counts distinct stations (two codes of one station count once). *)
Theorem processIncidents_counts_distinct_stations `{StringBuiltins}
    (nowIso : jsstring) (incidents : list WMATAIncident) :
  plainCodes incidents = true ->
  NoDup (objKeys (outagesByStation (processIncidents nowIso incidents)))
  /\ (forall stationId,
        stationId ∈ objKeys (outagesByStation (processIncidents nowIso incidents))
        <-> stationId ∈ stationsOf incidents)
  /\ stationsAffected (summary (processIncidents nowIso incidents))
     = Z.of_nat (length (remove_dups (stationsOf incidents))).
Proof.
  intros _. cbn [processIncidents outagesByStation summary stationsAffected].
  assert (Hnd : NoDup (objKeys (groupByStation incidents)))
    by (apply group_fold_NoDup; constructor).
  assert (Hin : forall s, s ∈ objKeys (groupByStation incidents)
                          <-> s ∈ stationsOf incidents).
  { intros s. rewrite <- objGet_Some_keys. unfold groupByStation.
    rewrite group_fold_lookup. cbn [objGet]. unfold extended, stationsOf.
    rewrite list_elem_of_omap. split.
    - destruct (List.filter (atStation s) incidents) as [|i r] eqn:E;
        [intros [? [=]]|]. intros _.
      assert (Hi : In i (List.filter (atStation s) incidents))
        by (rewrite E; left; reflexivity).
      apply filter_In in Hi as [Hi Hs]. exists i. split.
      + now apply list_elem_of_In.
      + now apply bool_decide_eq_true in Hs.
    - intros (i & Hi & Hs).
      assert (Hf : In i (List.filter (atStation s) incidents)).
      { apply filter_In. split; [now apply list_elem_of_In|].
        now apply bool_decide_eq_true_2. }
      destruct (List.filter (atStation s) incidents); [destruct Hf | eauto]. }
  split; [assumption|]. split; [assumption|].
  f_equal. apply Permutation_length, NoDup_Permutation;
    [assumption | apply NoDup_remove_dups|].
  intros s. rewrite Hin. symmetry. apply elem_of_remove_dups.
Qed.

Lemma processIncidents_counts_distinct_stations_witness :
  stationsAffected
    (summary (@processIncidents latinDeseret mainStPosted
                [metroCenterElevator; unknownStation; metroCenterElevator]))
  = 1.
Proof.
  exact (proj2 (proj2
    (@processIncidents_counts_distinct_stations latinDeseret mainStPosted
       [metroCenterElevator; unknownStation; metroCenterElevator] eq_refl))).
Defined.

(** X5: [elevatorOutages] is the number of incidents with a known station
    code whose lower-cased [UnitType] is "elevator"; every other incident
    with a known code counts as an escalator, whatever its type says. *)
Theorem processIncidents_unit_counters `{StringBuiltins}
    (nowIso : jsstring) (incidents : list WMATAIncident) :
  plainCodes incidents = true ->
  elevatorOutages (summary (processIncidents nowIso incidents))
  = Z.of_nat (length (List.filter
       (fun i => mapped i
                 && bool_decide (toLowerCase (UnitType i) = js "elevator"))
       incidents))
  /\ escalatorOutages (summary (processIncidents nowIso incidents))
     = Z.of_nat (length (List.filter
          (fun i => mapped i
                    && negb (bool_decide (toLowerCase (UnitType i) = js "elevator")))
          incidents)).
Proof.
  intros _. cbn [processIncidents summary elevatorOutages escalatorOutages].
  rewrite countUnits_split. cbn [fst snd]. unfold groupByStation.
  rewrite !group_fold_count. split; reflexivity.
Qed.

Lemma processIncidents_unit_counters_witness :
  elevatorOutages
    (summary (@processIncidents latinDeseret mainStPosted
                [unknownStation; metroCenterElevator]))
  = 1.
Proof.
  exact (proj1
    (@processIncidents_unit_counters latinDeseret mainStPosted
       [unknownStation; metroCenterElevator] eq_refl)).
Defined.

End WmataGroupFacts.

Module AggregatorMoreFacts.
Import Samples MoreSamples OwnKeys Views Aggregator AggregatorFacts ApiRoute.
Local Open Scope Z_scope.

Section WithUpstream.
Context `{Upstream}.

Lemma await_dispatched p w : dispatched (await p w).2 = dispatched w ++ [p].
Proof. unfold await. now destruct (settle p (clock w)). Qed.

Lemma dispatch_dispatched systemId w :
  dispatched (dispatch systemId w).2
  = dispatched w ++ match pipelineOf systemId with Some p => [p] | None => [] end.
Proof.
  unfold dispatch, pipelineOf.
  repeat (case_bool_decide; [apply await_dispatched|]).
  simpl. now rewrite app_nil_r.
Qed.

Lemma supported_pipelineOf systemId :
  systemId ∈ supportedSystems <-> is_Some (pipelineOf systemId).
Proof.
  unfold supportedSystems, pipelineOf. rewrite !elem_of_cons, elem_of_nil.
  repeat case_bool_decide; split; intros Hx; eauto; try tauto;
    try (destruct Hx as [? [=]]).
Qed.

End WithUpstream.

(** X6: one call of [getIncidents] starts at most one fetch pipeline, and
    only the pipeline of the requested system; it starts none for an
    unsupported system id (answering [null] with the world untouched) and
    none while the system's entry is fresh. *)
Theorem getIncidents_starts_only_its_own_pipeline `{Upstream}
    (systemId : jsstring) (w : World) :
  (dispatched (getIncidents systemId w).2 = dispatched w
   \/ exists p, pipelineOf systemId = Some p
                /\ dispatched (getIncidents systemId w).2 = dispatched w ++ [p])
  /\ (systemId ∉ supportedSystems ->
      getIncidents systemId w = (Returned None, w))
  /\ (fresh systemId w -> dispatched (getIncidents systemId w).2 = dispatched w).
Proof.
  assert (Hfresh : fresh systemId w -> systemId ∈ supportedSystems ->
                   dispatched (getIncidents systemId w).2 = dispatched w).
  { intros (entry & He & Hlt) Hs. now rewrite (getIncidents_hit systemId w entry). }
  destruct (decide (systemId ∈ supportedSystems)) as [Hs|Hs].
  - split; [|split; [contradiction | auto]].
    destruct (incidentCache w !! systemId) as [entry|] eqn:E.
    + destruct (Z.lt_ge_cases (clock w - cachedAt entry) CACHE_TTL) as [Hlt|Hge].
      * left. apply Hfresh; [exists entry|]; auto.
      * right. apply supported_pipelineOf in Hs as [p Hp]. exists p.
        split; [assumption|].
        rewrite getIncidents_miss, refresh_unfold.
        -- pose proof (dispatch_dispatched systemId w) as Hd. rewrite Hp in Hd.
           destruct (dispatch systemId w) as [[[d|]|e] w']; exact Hd.
        -- apply supported_pipelineOf; eauto.
        -- intros (e' & He' & Hlt). rewrite E in He'. injection He' as <-. lia.
    + right. apply supported_pipelineOf in Hs as [p Hp]. exists p.
      split; [assumption|].
      rewrite getIncidents_miss, refresh_unfold.
      * pose proof (dispatch_dispatched systemId w) as Hd. rewrite Hp in Hd.
        destruct (dispatch systemId w) as [[[d|]|e] w']; exact Hd.
      * apply supported_pipelineOf; eauto.
      * intros (e' & He' & _). rewrite E in He'. discriminate.
  - rewrite getIncidents_unsupported by assumption. split; [now left|].
    split; [reflexivity|]. reflexivity.
Qed.

Lemma getIncidents_starts_only_its_own_pipeline_witness :
  @getIncidents offline (js "metro-north") (worldAt 0)
  = (Returned None, worldAt 0).
Proof.
  apply (proj1 (proj2 (@getIncidents_starts_only_its_own_pipeline offline
                         (js "metro-north") (worldAt 0)))).
  unfold supportedSystems. rewrite !not_elem_of_cons.
  repeat split; try discriminate. apply not_elem_of_nil.
Defined.

(** X7: a refresh that brings data replaces the system's cache entry by
    the new data, stamped with the time the pipeline settled, returns the
    new data, and leaves the entries of all other systems as they were. *)
Theorem getIncidents_refresh_replaces_entry `{Upstream}
    (systemId : jsstring) (w w' : World) (d : IncidentData) :
  systemId ∈ supportedSystems ->
  ~ fresh systemId w ->
  dispatch systemId w = (Returned (Some d), w') ->
  (getIncidents systemId w).1 = Returned (Some d)
  /\ incidentCache (getIncidents systemId w).2 !! systemId
     = Some {| data := d; cachedAt := clock w' |}
  /\ forall other, other <> systemId ->
       incidentCache (getIncidents systemId w).2 !! other
       = incidentCache w !! other.
Proof.
  intros Hs Hf Hd.
  pose proof (dispatch_cache systemId w) as Hc. rewrite Hd in Hc.
  rewrite getIncidents_miss, refresh_unfold, Hd by assumption.
  cbn [fst snd incidentCache] in *.
  split; [reflexivity|]. split; [apply lookup_insert_eq|].
  intros other Hne. rewrite lookup_insert_ne by congruence. now rewrite Hc.
Qed.

Lemma wmata_not_cached : ~ fresh (js "wmata") (worldAt 0).
Proof. intros (e & He & _). vm_compute in He. discriminate. Qed.

Lemma supported_wmata : js "wmata" ∈ supportedSystems.
Proof. unfold supportedSystems. rewrite !elem_of_cons. tauto. Qed.

Lemma getIncidents_refresh_replaces_entry_witness :
  incidentCache (@getIncidents online (js "wmata") (worldAt 0)).2 !! js "bart"
  = incidentCache (worldAt 0) !! js "bart".
Proof.
  apply (proj2 (proj2
    (@getIncidents_refresh_replaces_entry online (js "wmata") (worldAt 0) _ _
       supported_wmata wmata_not_cached eq_refl))).
  discriminate.
Defined.

(** X19: [getStationOutages] reads what [getIncidents] serves: an empty
    list for an unsupported system (world untouched), the station's list of
    the cached data (an empty list for a station without a key) while the
    entry is fresh, again with the world untouched; it throws exactly when
    [getIncidents] does and leaves the world as [getIncidents] leaves it. *)
Theorem getStationOutages_reads_what_getIncidents_serves `{Upstream}
    (systemId stationId : jsstring) (w : World) :
  plainKey stationId = true ->
  (systemId ∉ supportedSystems ->
   getStationOutages systemId stationId w = (Returned [], w))
  /\ (forall entry,
        systemId ∈ supportedSystems ->
        incidentCache w !! systemId = Some entry ->
        clock w - cachedAt entry < CACHE_TTL ->
        getStationOutages systemId stationId w
        = (Returned (default [] (objGet stationId
                                   (outagesByStation (data entry)))), w))
  /\ (forall e, (getStationOutages systemId stationId w).1 = Threw e
                <-> (getIncidents systemId w).1 = Threw e)
  /\ (getStationOutages systemId stationId w).2 = (getIncidents systemId w).2.
Proof.
  intros _. unfold getStationOutages, bind.
  split; [|split; [|split]].
  - intros Hs. now rewrite getIncidents_unsupported.
  - intros entry Hs He Hlt. now rewrite (getIncidents_hit systemId w entry).
  - intros e. destruct (getIncidents systemId w) as [[[d|]|e'] w']; cbn;
      split; congruence.
  - now destruct (getIncidents systemId w) as [[[d|]|e'] w'].
Qed.

Lemma getStationOutages_reads_what_getIncidents_serves_witness :
  @getStationOutages offline (js "bart") (js "embarcadero") (worldAt 299999)
  = (Returned [], worldAt 299999).
Proof.
  exact (proj1 (proj2
    (@getStationOutages_reads_what_getIncidents_serves offline (js "bart")
       (js "embarcadero") (worldAt 299999) eq_refl))
    bartEntry supported_bart (lookup_singleton_eq _ _) eq_refl).
Defined.

(** X20: the incidents route answers 200 or 500 and nothing else.  An
    unsupported system id gets 200 with [data: null] and the message (not
    a 404), as does a supported system without data; a fresh cache entry is
    sent as [data] without starting a pipeline; and the status is 500
    exactly when the parameters cannot be read or [getIncidents] throws. *)
Theorem GET_answers_200_unless_getIncidents_throws `{Upstream}
    (params : Outcome jsstring) (w : World) :
  (httpStatus (GET params w).1 = 200 \/ httpStatus (GET params w).1 = 500)
  /\ (httpStatus (GET params w).1 = 500
      <-> (exists e, params = Threw e)
          \/ exists systemId e,
               params = Returned systemId
               /\ (getIncidents systemId w).1 = Threw e)
  /\ (forall systemId,
        params = Returned systemId -> systemId ∉ supportedSystems ->
        GET params w
        = ({| httpStatus := 200;
              jsonBody :=
                NoDataBody
                  (js "No incident data available for this system") |}, w))
  /\ (forall systemId entry,
        params = Returned systemId -> systemId ∈ supportedSystems ->
        incidentCache w !! systemId = Some entry ->
        clock w - cachedAt entry < CACHE_TTL ->
        GET params w
        = ({| httpStatus := 200; jsonBody := DataBody (data entry) |}, w)).
Proof.
  unfold GET. split; [|split; [|split]].
  - destruct params as [systemId|e]; [|now right].
    destruct (getIncidents systemId w) as [[[d|]|e] w']; cbn; auto.
  - destruct params as [systemId|e]; cbn.
    + destruct (getIncidents systemId w) as [[[d|]|e] w'] eqn:E; cbn; split;
        try discriminate.
      * intros [[e [=]]|(s & e & [= <-] & He)]. rewrite E in He. discriminate.
      * intros [[e [=]]|(s & e & [= <-] & He)]. rewrite E in He. discriminate.
      * intros _. right. exists systemId, e. rewrite E. auto.
      * reflexivity.
    + split; [eauto | reflexivity].
  - intros systemId -> Hs. now rewrite getIncidents_unsupported.
  - intros systemId entry -> Hs He Hlt.
    now rewrite (getIncidents_hit systemId w entry).
Qed.

Lemma GET_answers_200_unless_getIncidents_throws_witness :
  @GET offline (Returned (js "metro-north")) (worldAt 0)
  = ({| httpStatus := 200;
        jsonBody :=
          NoDataBody (js "No incident data available for this system") |},
     worldAt 0).
Proof.
  apply (proj1 (proj2 (proj2
    (@GET_answers_200_unless_getIncidents_throws offline
       (Returned (js "metro-north")) (worldAt 0))))
    (js "metro-north") eq_refl).
  unfold supportedSystems. rewrite !not_elem_of_cons.
  repeat split; try discriminate. apply not_elem_of_nil.
Defined.

End AggregatorMoreFacts.

Module MatchMoreFacts.
Import Samples MatchFacts OwnKeys Views.
Local Open Scope string_scope.
Local Open Scope Z_scope.

Section Live.
Import NycLive.

Lemma better_fold_spec outageLines rest first :
  let best := fold_left (better outageLines) rest first in
  best ∈ first :: rest
  /\ forall c, c ∈ first :: rest ->
       overlapOf outageLines c <= overlapOf outageLines best.
Proof.
  revert first. induction rest as [|b r IH]; intros first; cbn [fold_left].
  - split; [apply elem_of_cons; auto|].
    intros c Hc. apply list_elem_of_singleton in Hc. subst c. lia.
  - destruct (IH (better outageLines first b)) as [Hin Hmax]. split.
    + apply elem_of_cons in Hin as [Heq|Hin].
      * rewrite Heq. unfold better.
        destruct (overlapOf outageLines first <? overlapOf outageLines b);
          rewrite !elem_of_cons; auto.
      * rewrite !elem_of_cons; auto.
    + intros c Hc.
      assert (Hb : overlapOf outageLines first
                     <= overlapOf outageLines (better outageLines first b)
                   /\ overlapOf outageLines b
                     <= overlapOf outageLines (better outageLines first b)).
      { unfold better.
        destruct (Z.ltb_spec (overlapOf outageLines first)
                    (overlapOf outageLines b)); lia. }
      pose proof (Hmax (better outageLines first b)) as H0.
      rewrite elem_of_cons in H0. specialize (H0 (or_introl eq_refl)).
      rewrite !elem_of_cons in Hc. destruct Hc as [->|[->|Hc]]; [lia | lia |].
      apply Hmax. rewrite elem_of_cons. auto.
Qed.

(** X8: the live resolver answers with one of the index candidates
    whenever there is one, the first one when the outage names no train;
    and when it names trains the chosen candidate has the largest line
    overlap of all candidates. *)
Theorem matchStation_picks_a_best_candidate
    (trainno : jsstring) (candidates : list Candidate) :
  plainTrains trainno = true ->
  (matchStation trainno candidates = None <-> candidates = [])
  /\ (forall c, matchStation trainno candidates = Some c -> c ∈ candidates)
  /\ (trainno = [] -> matchStation trainno candidates = head candidates)
  /\ (trainno <> [] ->
      forall c c', matchStation trainno candidates = Some c ->
        c' ∈ candidates ->
        overlapOf (outageLinesOf trainno) c'
        <= overlapOf (outageLinesOf trainno) c).
Proof.
  intros _. destruct candidates as [|first rest].
  - simpl. repeat split; try discriminate; auto.
  - pose proof (better_fold_spec (outageLinesOf trainno) rest first) as [Hin Hmax].
    unfold matchStation. set (best := fold_left _ rest first) in *.
    split; [|split; [|split]].
    + split; [|discriminate].
      destruct ((1 <? Z.of_nat (length (first :: rest)))
                && negb (bool_decide (trainno = []))); [|discriminate].
      destruct (0 <? overlapOf (outageLinesOf trainno) best); discriminate.
    + intros c.
      destruct ((1 <? Z.of_nat (length (first :: rest)))
                && negb (bool_decide (trainno = [])));
        [destruct (0 <? overlapOf (outageLinesOf trainno) best)|];
        intros [= <-]; auto; apply elem_of_cons; auto.
    + intros ->. rewrite bool_decide_eq_true_2 by reflexivity.
      now rewrite andb_false_r.
    + intros Ht c c' Hc Hc'. rewrite (bool_decide_eq_false_2 _ Ht) in Hc.
      cbn [negb] in Hc. rewrite andb_true_r in Hc.
      destruct (Z.ltb_spec 1 (Z.of_nat (length (first :: rest)))) as [Hlen|Hlen].
      * destruct (Z.ltb_spec 0 (overlapOf (outageLinesOf trainno) best))
          as [Hpos|Hzero]; injection Hc as <-; [now apply Hmax|].
        specialize (Hmax c' Hc').
        pose proof (Hmax' := Hmax). unfold overlapOf in *. lia.
      * injection Hc as <-. destruct rest; [|simpl in Hlen; lia].
        apply list_elem_of_singleton in Hc'. subst c'. lia.
Qed.

Lemma matchStation_picks_a_best_candidate_witness :
  overlapOf (outageLinesOf (js "N/Q")) (candidateOn "canal-st-1" ["1"])
  <= overlapOf (outageLinesOf (js "N/Q"))
       (candidateOn "canal-st-n" ["N"; "Q"]).
Proof.
  apply (proj2 (proj2 (proj2
    (matchStation_picks_a_best_candidate (js "N/Q")
       [candidateOn "canal-st-1" ["1"]; candidateOn "canal-st-n" ["N"; "Q"]]
       eq_refl)))).
  - discriminate.
  - reflexivity.
  - apply list_elem_of_here.
Defined.

End Live.

Section Batch.
Import BatchMatch.
Context `{MathBuiltins}.

Lemma elem_of_insertSorted x y sorted :
  y ∈ insertSorted x sorted <-> y = x \/ y ∈ sorted.
Proof.
  induction sorted as [|z r IH]; simpl.
  - rewrite list_elem_of_singleton, elem_of_nil. tauto.
  - destruct (closer x z); rewrite !elem_of_cons, ?IH; tauto.
Qed.

Lemma elem_of_sortByDist y l : y ∈ sortByDist l <-> y ∈ l.
Proof.
  unfold sortByDist.
  assert (Hgen : forall acc,
    y ∈ fold_left (fun sorted x => insertSorted x sorted) l acc
    <-> y ∈ l \/ y ∈ acc).
  { induction l as [|x r IH]; intros acc; cbn [fold_left].
    - rewrite elem_of_nil. tauto.
    - rewrite IH, elem_of_insertSorted, elem_of_cons. tauto. }
  rewrite Hgen, elem_of_nil. tauto.
Qed.

(** X9: the batch matcher answers for every non-empty candidate list, with
    one of the candidates, and never with a candidate whose line overlap
    is more than one below the best overlap among the candidates. *)
Theorem chooseStation_within_one_of_best
    (row : CsvRow) (candidates : list Station) :
  forallb plainKey (daytimeRoutes row) = true ->
  (chooseStation row candidates = None <-> candidates = [])
  /\ forall chosen, chooseStation row candidates = Some chosen ->
       chosen ∈ candidates
       /\ forall c, c ∈ candidates ->
            lineOverlap (daytimeRoutes row) (lines c)
            <= lineOverlap (daytimeRoutes row) (lines chosen) + 1.
Proof.
  intros _. split.
  - split; [|now intros ->].
    intros Hnone. destruct candidates as [|c0 r]; [reflexivity|].
    destruct (chooseStation_total row (c0 :: r)) as [s Hs]; [discriminate|].
    congruence.
  - intros chosen Hch.
    destruct candidates as [|c0 [|c1 r]]; [discriminate| |].
    + injection Hch as <-. split; [apply list_elem_of_singleton; reflexivity|].
      intros c Hc. apply list_elem_of_singleton in Hc. subst c. lia.
    + unfold chooseStation in Hch.
      set (scored := List.map (score row) (c0 :: c1 :: r)) in *.
      destruct (mathMax (List.map overlap scored)) as [m|] eqn:Em;
        [|discriminate].
      destruct (mathMax_spec _ _ Em) as [_ Hle].
      match type of Hch with station <$> head (sortByDist ?t) = _ =>
        set (top := t) in * end.
      destruct (sortByDist top) as [|s0 sr] eqn:Es; [discriminate|].
      injection Hch as <-.
      assert (Hs0 : s0 ∈ top)
        by (apply elem_of_sortByDist; rewrite Es; apply elem_of_cons; auto).
      apply list_elem_of_In, filter_In in Hs0 as [Hin Hpass].
      apply andb_true_iff in Hpass as [Hwithin _].
      cbn [withinOne] in Hwithin. apply Z.leb_le in Hwithin.
      apply in_map_iff in Hin as (c & <- & Hc). split.
      * now apply list_elem_of_In.
      * intros c' Hc'. cbn [station score overlap] in *.
        assert (Hm : lineOverlap (daytimeRoutes row) (lines c') <= m).
        { apply Hle, list_elem_of_In, in_map_iff.
          exists (score row c'). split; [reflexivity|].
          apply in_map. now apply list_elem_of_In. }
        lia.
Qed.

End Batch.

Lemma chooseStation_within_one_of_best_witness :
  @BatchMatch.chooseStation identityMath (rowOn ["N"; "Q"])
    [stationOn "canal-st-1" ["1"]; stationOn "canal-st-n" ["N"; "Q"]] = None
  <-> [stationOn "canal-st-1" ["1"]; stationOn "canal-st-n" ["N"; "Q"]] = [].
Proof.
  exact (proj1
    (@chooseStation_within_one_of_best identityMath (rowOn ["N"; "Q"])
       [stationOn "canal-st-1" ["1"]; stationOn "canal-st-n" ["N"; "Q"]]
       eq_refl)).
Defined.

Section Overlap.
Import BatchMatch.

Lemma countIf_shift b score : countIf b score = score + countIf b 0.
Proof. unfold countIf. destruct b; lia. Qed.

Lemma shuttle_fold_shift stationLines mapped score :
  fold_left (fun sc m => countIf (arrayIncludes m stationLines) sc) mapped score
  = score + fold_left (fun sc m => countIf (arrayIncludes m stationLines) sc)
              mapped 0.
Proof.
  revert score. induction mapped as [|m r IH]; intros score; cbn [fold_left];
    [lia|].
  rewrite IH, (IH (countIf _ 0)), (countIf_shift _ score). lia.
Qed.

Lemma overlapStep_shift stationLines score route :
  overlapStep stationLines score route
  = score + overlapStep stationLines 0 route.
Proof.
  unfold overlapStep. destruct (shuttleLines route) as [mapped|].
  - rewrite shuttle_fold_shift, (shuttle_fold_shift _ _ (countIf _ 0)),
      (countIf_shift _ score). lia.
  - apply countIf_shift.
Qed.

Lemma lineOverlap_fold_shift stationLines routes score :
  fold_left (overlapStep stationLines) routes score
  = score + lineOverlap routes stationLines.
Proof.
  unfold lineOverlap. revert score.
  induction routes as [|r rs IH]; intros score; cbn [fold_left]; [lia|].
  rewrite IH, (IH (overlapStep stationLines 0 r)), overlapStep_shift. lia.
Qed.

Lemma lineOverlap_cons r routes stationLines :
  lineOverlap (r :: routes) stationLines
  = lineOverlap [r] stationLines + lineOverlap routes stationLines.
Proof.
  unfold lineOverlap at 1 2. cbn [fold_left]. apply lineOverlap_fold_shift.
Qed.

(** X10: the overlap score adds up over the routes of a row: the score of
    two route lists put together is the sum of their scores, so it does not
    depend on the order in which the CSV lists the routes. *)
Theorem lineOverlap_additive (routes1 routes2 stationLines : list jsstring) :
  forallb plainKey (routes1 ++ routes2) = true ->
  lineOverlap (routes1 ++ routes2) stationLines
  = lineOverlap routes1 stationLines + lineOverlap routes2 stationLines
  /\ forall routes, routes ≡ₚ routes1 ->
       lineOverlap routes stationLines = lineOverlap routes1 stationLines.
Proof.
  intros _.
  assert (Happ : forall a b, lineOverlap (a ++ b) stationLines
                 = lineOverlap a stationLines + lineOverlap b stationLines).
  { intros a b. unfold lineOverlap at 1. rewrite fold_left_app.
    fold (lineOverlap a stationLines). apply lineOverlap_fold_shift. }
  split; [apply Happ|].
  intros routes Hp. induction Hp as [|x l l' _ IH|x y l|l l' l'' _ IH1 _ IH2].
  - reflexivity.
  - rewrite (lineOverlap_cons x l), (lineOverlap_cons x l'). lia.
  - rewrite (lineOverlap_cons y), (lineOverlap_cons x),
      (lineOverlap_cons x (y :: l)), (lineOverlap_cons y l). lia.
  - lia.
Qed.

Lemma lineOverlap_additive_witness :
  lineOverlap ([js "S"] ++ [js "N"]) [js "N"; js "S-42"]
  = lineOverlap [js "S"] [js "N"; js "S-42"]
    + lineOverlap [js "N"] [js "N"; js "S-42"].
Proof.
  exact (proj1
    (lineOverlap_additive [js "S"] [js "N"] [js "N"; js "S-42"] eq_refl)).
Defined.

End Overlap.

End MatchMoreFacts.

Module TextMatchFacts.
Import GtfsTables GtfsRt FeedSamples.
Import TextMatch.

Section WithHost.
Context `{RegExpBuiltins}.

Lemma findStep_NoDup text found p : NoDup found -> NoDup (findStep text found p).
Proof.
  intros Hnd. unfold findStep, arrayIncludes.
  destruct (regexTest (pattern p) text); [|assumption]. cbn [andb].
  case_bool_decide as E; [assumption|]. cbn [negb].
  apply NoDup_app. repeat split; [assumption| |apply NoDup_singleton].
  intros x Hx Hs. apply list_elem_of_singleton in Hs. now subst x.
Qed.

Lemma findStep_elem text found p s :
  s ∈ findStep text found p
  <-> s ∈ found \/ (stationId p = s /\ regexTest (pattern p) text = true).
Proof.
  unfold findStep, arrayIncludes.
  destruct (regexTest (pattern p) text); cbn [andb].
  - case_bool_decide as E; cbn [negb].
    + split; [auto|]. intros [Hs|[<- _]]; assumption.
    + rewrite elem_of_app, list_elem_of_singleton. split.
      * intros [Hs| ->]; auto.
      * intros [Hs|[<- _]]; auto.
  - split; [auto|]. intros [Hs|[_ [=]]]. assumption.
Qed.

Lemma find_fold_prefix text patterns found :
  exists more, fold_left (findStep text) patterns found = found ++ more.
Proof.
  revert found. induction patterns as [|p r IH]; intros found; cbn [fold_left].
  - exists []. now rewrite app_nil_r.
  - destruct (IH (findStep text found p)) as [more ->].
    unfold findStep. destruct (_ && _).
    + exists ([stationId p] ++ more). now rewrite app_assoc.
    + eauto.
Qed.

(** X11: the station list found in a text has no duplicates and holds
    exactly the station ids of the patterns that match the text, in the
    order in which their first matching pattern stands in the table. *)
Theorem findStationsInTextByPattern_finds_matching_ids
    (text : jsstring) (patterns : list StationPattern) :
  NoDup (findStationsInTextByPattern text patterns)
  /\ (forall s, s ∈ findStationsInTextByPattern text patterns
        <-> exists p, p ∈ patterns /\ stationId p = s
                      /\ regexTest (pattern p) text = true)
  /\ (forall before p after, patterns = before ++ p :: after ->
        exists more,
          findStationsInTextByPattern text patterns
          = findStationsInTextByPattern text before ++ more).
Proof.
  unfold findStationsInTextByPattern.
  assert (Hgen : forall found,
    NoDup found ->
    NoDup (fold_left (findStep text) patterns found)
    /\ forall s, s ∈ fold_left (findStep text) patterns found
         <-> s ∈ found \/ exists p, p ∈ patterns /\ stationId p = s
                                    /\ regexTest (pattern p) text = true).
  { induction patterns as [|p r IH]; intros found Hnd; cbn [fold_left].
    - split; [assumption|]. intros s. split; [auto|].
      intros [Hs|(p & Hp & _)]; [assumption|]. now apply elem_of_nil in Hp.
    - destruct (IH (findStep text found p) (findStep_NoDup text found p Hnd))
        as [Hnd' Hin]. split; [assumption|].
      intros s. rewrite Hin, findStep_elem. split.
      + intros [[Hs|[Hid Ht]]|(q & Hq & Hid & Ht)]; auto.
        * right. exists p. rewrite elem_of_cons. auto.
        * right. exists q. rewrite elem_of_cons. auto.
      + intros [Hs|(q & Hq & Hid & Ht)]; auto.
        apply elem_of_cons in Hq as [->|Hq]; eauto 6. }
  destruct (Hgen [] (NoDup_nil_2)) as [Hnd Hin]. split; [assumption|].
  split.
  - intros s. rewrite Hin, elem_of_nil. tauto.
  - intros before p after ->. rewrite fold_left_app.
    apply find_fold_prefix.
Qed.

End WithHost.

Lemma findStationsInTextByPattern_finds_matching_ids_witness :
  js "upton"
  ∈ @findStationsInTextByPattern wordPatterns
      (js "Elevator out of service at Upton")
      (patternsOf BALTIMORE_METRO_STATION_PATTERNS).
Proof.
  apply (proj1 (proj2
    (@findStationsInTextByPattern_finds_matching_ids wordPatterns
       (js "Elevator out of service at Upton")
       (patternsOf BALTIMORE_METRO_STATION_PATTERNS)))).
  exists {| pattern := "\bupton\b"; stationId := js "upton" |}.
  split; [|split; reflexivity].
  apply list_elem_of_In. vm_compute. tauto.
Defined.

End TextMatchFacts.

Module NycIndexFacts.
Import HostFacts ObjectFacts Wmata WmataFacts WmataGroupFacts Normalize
  NycLive Normalizer OwnKeys Views Samples FeedSamples MoreSamples NycIndex.
Local Open Scope Z_scope.

Section WithHost.
Context `{StringBuiltins}.

Lemma indexStep_lookup index s k :
  indexStep index s !! k
  = extended (index !! k) (if filedUnder k s then [candidateOf s] else []).
Proof.
  unfold indexStep, filedUnder.
  case_bool_decide as Ea; cbn [negb andb].
  - case_bool_decide as Ek.
    + subst k. rewrite lookup_insert_eq. unfold extended.
      now destruct (index !! normalizeStationName (name s)).
    + rewrite lookup_insert_ne by assumption. unfold extended.
      destruct (index !! k); simpl; now rewrite ?app_nil_r.
  - unfold extended. destruct (index !! k); simpl; now rewrite ?app_nil_r.
Qed.

Lemma index_fold_lookup stations index k :
  fold_left indexStep stations index !! k
  = extended (index !! k)
      (List.map candidateOf (List.filter (filedUnder k) stations)).
Proof.
  revert index. induction stations as [|s r IH]; intros index; cbn [fold_left].
  - unfold extended. simpl. destruct (index !! k); now rewrite ?app_nil_r.
  - rewrite IH, indexStep_lookup, extended_extended. cbn [List.filter].
    now destruct (filedUnder k s).
Qed.

(** X12: the station-name index is built once.  The first call files every
    active station, and only those, under its normalized name, in the order
    of the station list; stations sharing a name share the key.  Later
    calls return that index without looking at the station data again. *)
Theorem getNycStationIndex_files_active_stations
    (stations : list Station) (k : jsstring)
    (later : Outcome (list Station)) :
  getNycStationIndex None (Returned stations)
  = (Returned (buildIndex stations), Some (buildIndex stations))
  /\ buildIndex stations !! k
     = match List.filter (filedUnder k) stations with
       | [] => None
       | filed => Some (List.map candidateOf filed)
       end
  /\ getNycStationIndex (Some (buildIndex stations)) later
     = (Returned (buildIndex stations), Some (buildIndex stations)).
Proof.
  split; [reflexivity|]. split; [|reflexivity].
  unfold buildIndex. rewrite index_fold_lookup, lookup_empty.
  unfold extended. now destruct (List.filter (filedUnder k) stations).
Qed.

Context `{ClockBuiltins}.

Lemma eneStep_spec index st outage :
  (kept index outage = false /\ eneStep index st outage = st)
  \/ (kept index outage = true
      /\ exists candidates matched entry n,
           index !! normalizeStationName (station outage) = Some candidates
           /\ matchStation (trainno outage) candidates = Some matched
           /\ unitType entry
              = (if isEL outage then js "elevator" else js "escalator")
           /\ eneStep index st outage
              = {| found :=
                     {| byStation :=
                          objPush (NycLive.id matched) entry
                            (objEnsure (NycLive.id matched)
                               (byStation (found st)));
                        elevators := elevators (found st)
                                     + (if isEL outage then 1 else 0);
                        escalators := escalators (found st)
                                      + (if isEL outage then 0 else 1) |};
                   readings := n |}).
Proof.
  unfold eneStep, kept, isEL.
  case_bool_decide as Eu; cbn [negb andb]; [left; auto|].
  destruct (index !! normalizeStationName (station outage)) as [[|c r]|] eqn:Ei;
    [left; auto| |left; auto].
  right. split; [reflexivity|].
  destruct (matchStation (trainno outage) (c :: r)) as [matched|] eqn:Em.
  2:{ exfalso. unfold matchStation in Em.
      destruct (_ && _) in Em; [destruct (_ <? _) in Em|]; discriminate. }
  destruct (dateOrNow (outagedate outage) (readings st)) as [since n1].
  destruct (dateOrNow (outagedate outage) n1) as [updated n2].
  eexists (c :: r), matched, _, n2. split; [reflexivity|]. split; [exact Em|].
  split; [|f_equal; f_equal; case_bool_decide; lia].
  simpl. reflexivity.
Qed.

Lemma eneStep_counts index st outage :
  elevators (found (eneStep index st outage))
  = elevators (found st)
    + (if kept index outage && isEL outage then 1 else 0)
  /\ escalators (found (eneStep index st outage))
     = escalators (found st)
       + (if kept index outage && negb (isEL outage) then 1 else 0)
  /\ unitsOf (byStation (found (eneStep index st outage)))
     = (unitsOf (byStation (found st))
        + if kept index outage then 1 else 0)%nat.
Proof.
  destruct (eneStep_spec index st outage)
    as [[-> ->]|[-> (cs & m & entry & n & _ & _ & _ & ->)]]; cbn [andb found
      byStation elevators escalators].
  - repeat split; try lia. 
  - assert (Hs : is_Some (objGet (NycLive.id m)
                   (objEnsure (NycLive.id m) (byStation (found st)))))
      by (rewrite objGet_objEnsure_eq; eauto).
    rewrite unitsOf_objPush, unitsOf_objEnsure by assumption.
    repeat split; try (destruct (isEL outage); simpl; lia).
Qed.

(** X13: the NYC outage loop counts exactly what it files.  An upcoming
    outage or one whose station name is not in the index changes nothing;
    every other record adds one entry, counted as an elevator when its
    equipment type is "EL" and as an escalator otherwise. *)
Theorem processEneOutages_counts_filed_records
    (index : gmap (list N) (list Candidate)) (start : EneState)
    (eneData : list NycSubwayEneOutage) :
  PlainIndex index ->
  forallb (fun o => plainTrains (trainno o)) eneData = true ->
  elevators (found (processEneOutages index start eneData))
  = elevators (found start)
    + Z.of_nat (length (List.filter
                          (fun o => kept index o && isEL o) eneData))
  /\ escalators (found (processEneOutages index start eneData))
     = escalators (found start)
       + Z.of_nat (length (List.filter
                             (fun o => kept index o && negb (isEL o)) eneData))
  /\ unitsOf (byStation (found (processEneOutages index start eneData)))
     = (unitsOf (byStation (found start))
        + length (List.filter (kept index) eneData))%nat.
Proof.
  intros _ _. unfold processEneOutages. revert start.
  induction eneData as [|o r IH]; intros start; cbn [fold_left List.filter].
  - simpl. repeat split; lia.
  - destruct (IH (eneStep index start o)) as (-> & -> & ->).
    destruct (eneStep_counts index start o) as (-> & -> & ->).
    destruct (kept index o), (isEL o); simpl; repeat split; lia.
Qed.

End WithHost.

Lemma canalStIndex_plain : PlainIndex canalStIndex.
Proof.
  intros k candidates c Hk Hc. unfold canalStIndex in Hk.
  apply lookup_singleton_Some in Hk as [_ <-].
  rewrite !elem_of_cons, elem_of_nil in Hc.
  destruct Hc as [->|[->|[]]]; reflexivity.
Qed.

Lemma processEneOutages_counts_filed_records_witness :
  elevators (found (@processEneOutages latinDeseret stoppedClock canalStIndex
                      nothingFound [canalStElevator; canalStElevator]))
  = 2.
Proof.
  exact (proj1
    (@processEneOutages_counts_filed_records latinDeseret stoppedClock
       canalStIndex nothingFound [canalStElevator; canalStElevator]
       canalStIndex_plain eq_refl)).
Defined.

End NycIndexFacts.

Module FeedFacts.
Import Feeds Views Samples FeedSamples.
Local Open Scope Z_scope.

(** X14: [fetchWmataIncidents] and [fetchTokyoMetroIncidents] answer with
    what a configured worker sends whenever it answers 2xx with a readable
    body, whatever the local file holds and even when that body is [null];
    in every other case (no worker URL, worker unreachable, non-2xx,
    unreadable body) they answer with the content of the local file, and
    with [null] when the file cannot be read or parsed.  So data in the
    answer always comes from the worker or from the file. *)
Theorem fetchFromWorkerOrFile_falls_back_to_file
    (fetcher : option jsstring ->
               Outcome (HttpReply (option IncidentData)) ->
               Outcome (option IncidentData) -> option IncidentData)
    (workerUrl : option jsstring)
    (worker : Outcome (HttpReply (option IncidentData)))
    (file : Outcome (option IncidentData)) :
  fetcher = fetchWmataIncidents \/ fetcher = fetchTokyoMetroIncidents ->
  (forall url r parsed,
     workerUrl = Some url -> url <> [] ->
     worker = Returned r -> replyOk r = true ->
     replyBody r = Returned parsed ->
     fetcher workerUrl worker file = parsed)
  /\ ((workerUrl = None \/ workerUrl = Some []
       \/ (exists e, worker = Threw e)
       \/ (exists r, worker = Returned r
                     /\ (replyOk r = false
                         \/ exists e, replyBody r = Threw e))) ->
      fetcher workerUrl worker file
      = match file with
        | Returned content => content
        | Threw _ => None
        end)
  /\ (forall d, fetcher workerUrl worker file = Some d ->
        (exists r, worker = Returned r /\ replyBody r = Returned (Some d))
        \/ file = Returned (Some d)).
Proof.
  intros Hf.
  assert (fetcher = fetchFromWorkerOrFile) as -> by (destruct Hf; assumption).
  unfold fetchFromWorkerOrFile. repeat split.
  - intros url r parsed -> Hurl -> Hok Hbody.
    destruct url as [|c t]; [contradiction|]. now rewrite Hok, Hbody.
  - intros Hdown.
    destruct Hdown as [->|[->|[[e ->]|(r & -> & Hr)]]]; try reflexivity.
    + now destruct workerUrl as [[|c t]|].
    + destruct workerUrl as [[|c t]|]; try reflexivity.
      destruct Hr as [->|[e ->]]; [reflexivity|].
      now destruct (replyOk r).
  - intros d.
    assert (Hfile : match file with
                    | Returned content => content
                    | Threw _ => None
                    end = Some d -> file = Returned (Some d)).
    { destruct file as [content|e]; [now intros ->|discriminate]. }
    destruct workerUrl as [[|c t]|]; auto.
    destruct worker as [r|e]; auto.
    destruct (replyOk r); auto.
    destruct (replyBody r) as [parsed|e] eqn:Eb; auto.
    intros ->. left. eauto.
Qed.

Lemma fetchFromWorkerOrFile_falls_back_to_file_witness :
  fetchWmataIncidents (Some (js "https://worker.example")) fileOnly
    (Returned (Some (sampleData (js "wmata") noon)))
  = Some (sampleData (js "wmata") noon).
Proof.
  apply (proj1 (proj2 (fetchFromWorkerOrFile_falls_back_to_file
                         fetchWmataIncidents
                         (Some (js "https://worker.example")) fileOnly
                         (Returned (Some (sampleData (js "wmata") noon)))
                         (or_introl eq_refl)))).
  right. right. left. exists NetworkError. reflexivity.
Defined.

Section WithNetwork.
Context {F : Type} `{FeedNetwork F}.

Lemma downloadFeed_spec (w : FeedWorld F) :
  downloads (downloadFeed w).2 = S (downloads w)
  /\ match (downloadFeed w).1 with
     | Some feed =>
         mtaMarylandFeedCache (downloadFeed w).2
         = Some {| cachedFeed := feed;
                   feedFetchedAt := feedClock (downloadFeed w).2 |}
     | None =>
         mtaMarylandFeedCache (downloadFeed w).2 = mtaMarylandFeedCache w
     end.
Proof.
  unfold downloadFeed. destruct (download (feedClock w)) as [net settledAt].
  destruct (fetchGtfsRtFeed net); simpl; auto.
Qed.

End WithNetwork.

(** X15: the shared MTA Maryland feed is downloaded at most once per call
    and not at all while the cached feed is younger than five minutes; a
    failed download answers [null] and keeps the cache; and whenever a call
    answers with a feed, a call made within five minutes of the cached
    feed's time stamp gets the same feed without a download, so the two
    Baltimore systems share one download. *)
Theorem fetchMtaMarylandFeed_shares_one_download {F} `{FeedNetwork F}
    (w : FeedWorld F) :
  (downloads (fetchMtaMarylandFeed w).2 <= S (downloads w))%nat
  /\ ((fetchMtaMarylandFeed w).1 = None ->
      mtaMarylandFeedCache (fetchMtaMarylandFeed w).2
      = mtaMarylandFeedCache w)
  /\ (forall feed, (fetchMtaMarylandFeed w).1 = Some feed ->
        exists cache,
          mtaMarylandFeedCache (fetchMtaMarylandFeed w).2 = Some cache
          /\ cachedFeed cache = feed
          /\ forall later,
               later - feedFetchedAt cache < MTA_MARYLAND_FEED_CACHE_TTL ->
               fetchMtaMarylandFeed
                 (setFeedClock later (fetchMtaMarylandFeed w).2)
               = (Some feed, setFeedClock later (fetchMtaMarylandFeed w).2)).
Proof.
  assert (Hhit : forall (v : FeedWorld F) cache later,
    mtaMarylandFeedCache v = Some cache ->
    later - feedFetchedAt cache < MTA_MARYLAND_FEED_CACHE_TTL ->
    fetchMtaMarylandFeed (setFeedClock later v)
    = (Some (cachedFeed cache), setFeedClock later v)).
  { intros v cache later Hc Hlt. unfold fetchMtaMarylandFeed.
    cbn [setFeedClock mtaMarylandFeedCache feedClock]. rewrite Hc.
    now rewrite (proj2 (Z.ltb_lt _ _) Hlt). }
  destruct (downloadFeed_spec w) as [Hn Hc].
  unfold fetchMtaMarylandFeed.
  destruct (mtaMarylandFeedCache w) as [cache|] eqn:Ec.
  - destruct (Z.ltb_spec (feedClock w - feedFetchedAt cache)
                MTA_MARYLAND_FEED_CACHE_TTL) as [Hlt|Hge].
    + cbn [fst snd]. split; [lia|]. split; [auto|].
      intros feed [= <-]. exists cache. split; [assumption|].
      split; [reflexivity|]. intros later Hl. now apply Hhit.
    + split; [lia|]. split.
      * intros Hnone. rewrite Hnone in Hc. now rewrite Hc.
      * intros feed Hf. rewrite Hf in Hc. eexists. split; [exact Hc|].
        split; [reflexivity|]. intros later Hl.
        now apply (Hhit _ _ later Hc).
  - split; [lia|]. split.
    + intros Hnone. rewrite Hnone in Hc. now rewrite Hc.
    + intros feed Hf. rewrite Hf in Hc. eexists. split; [exact Hc|].
      split; [reflexivity|]. intros later Hl.
      now apply (Hhit _ _ later Hc).
Qed.

Lemma fetchMtaMarylandFeed_shares_one_download_witness :
  exists cache,
    mtaMarylandFeedCache (@fetchMtaMarylandFeed _ feedServer emptyFeedWorld).2
    = Some cache
    /\ cachedFeed cache = marylandFeed
    /\ forall later,
         later - feedFetchedAt cache < MTA_MARYLAND_FEED_CACHE_TTL ->
         @fetchMtaMarylandFeed _ feedServer
           (setFeedClock later
              (@fetchMtaMarylandFeed _ feedServer emptyFeedWorld).2)
         = (Some marylandFeed,
            setFeedClock later
              (@fetchMtaMarylandFeed _ feedServer emptyFeedWorld).2).
Proof.
  exact (proj2 (proj2
    (@fetchMtaMarylandFeed_shares_one_download _ feedServer emptyFeedWorld))
    marylandFeed eq_refl).
Defined.

End FeedFacts.

Module GtfsFacts.
Import HostFacts ObjectFacts Wmata WmataFacts DetectFacts.
Import OwnKeys Normalizer TextMatch GtfsTables GtfsRt GtfsViews FeedSamples.
Local Open Scope Z_scope.

Section Lists.
Context {V : Type}.
Implicit Types (o : list (list N * list V)) (k : list N).

Lemma nonempty_objPush k (x : V) o :
  Forall (fun kv => kv.2 <> []) o ->
  Forall (fun kv => kv.2 <> []) (objPush k x o).
Proof.
  induction 1 as [|[k' l] r Hl Hr IH]; simpl; [constructor|].
  destruct (bool_decide (k' = k)); constructor; auto.
  simpl. now destruct l.
Qed.

Lemma nonempty_objPush_objEnsure k (x : V) o :
  Forall (fun kv => kv.2 <> []) o ->
  Forall (fun kv => kv.2 <> []) (objPush k x (objEnsure k o)).
Proof.
  intros Ho. unfold objEnsure.
  destruct (objGet k o) eqn:E; [now apply nonempty_objPush|].
  induction Ho as [|[k' l] r Hl Hr IH]; simpl in *.
  - rewrite bool_decide_eq_true_2 by reflexivity. constructor; [|constructor].
    simpl. discriminate.
  - destruct (bool_decide (k' = k)) eqn:Ek; [discriminate|].
    simpl. rewrite Ek. constructor; auto.
Qed.

End Lists.

Lemma detectStep_nonempty hasElev hasEsc headerText postedAt expiresAt st k :
  hasElev || hasEsc = true ->
  Forall (fun kv => kv.2 <> []) (byStation st) ->
  Forall (fun kv => kv.2 <> [])
    (byStation (detectStep hasElev hasEsc headerText postedAt expiresAt st k)).
Proof.
  intros Hb Hne. unfold detectStep.
  destruct hasElev, hasEsc; try discriminate; simpl.
  - apply nonempty_objPush. now apply nonempty_objPush_objEnsure.
  - now apply nonempty_objPush_objEnsure.
  - now apply nonempty_objPush_objEnsure.
Qed.

Lemma detectEquipmentOutages_nonempty `{StringBuiltins}
    fullText affectedStations outagesByStation headerText postedAt expiresAt :
  Forall (fun kv => kv.2 <> []) outagesByStation ->
  Forall (fun kv => kv.2 <> [])
    (byStation (detectEquipmentOutages fullText affectedStations
                  outagesByStation headerText postedAt expiresAt)).
Proof.
  intros Hne. unfold detectEquipmentOutages.
  destruct (hasElevatorOutage (toLowerCase fullText)
            || hasEscalatorOutage (toLowerCase fullText)) eqn:Hb;
    [|assumption].
  destruct (0 <? _); [|assumption]. cbn [andb].
  set (start := {| byStation := outagesByStation; elevators := 0;
                   escalators := 0 |}).
  assert (Hs : Forall (fun kv => kv.2 <> []) (byStation start)) by assumption.
  clearbody start. revert start Hs.
  induction affectedStations as [|k r IH]; intros start Hs; cbn [fold_left];
    [assumption|].
  apply IH. now apply detectStep_nonempty.
Qed.

Section WithHost.
Context `{StringBuiltins} `{RegExpBuiltins}.

Lemma record_Consistent st entity ty h d lines stations p x :
  Consistent (detected st) ->
  Consistent (detected (record st entity ty h d lines stations p x)).
Proof.
  intros (Hu & He & Hs & Hnd & Hne). unfold Consistent, record.
  cbn [detected byStation elevators escalators].
  destruct (detectEquipmentOutages_frame (h ++ [SPACE] ++ d) stations
              (byStation (detected st)) h p x) as (_ & _ & Hu' & He' & Hs').
  repeat split; try lia.
  - now apply detectEquipmentOutages_NoDup.
  - now apply detectEquipmentOutages_nonempty.
Qed.

Lemma soundTransitStep_Step : Step None None soundTransitStep.
Proof.
  intros st entity. unfold processed, badTimes, soundTransitStep.
  destruct (alert entity) as [a|] eqn:Ea; [|reflexivity].
  destruct (postedAtOf a) as [p|e] eqn:Ep; [|eauto].
  destruct (expiresAtOf a) as [x|e] eqn:Ex; [|eauto].
  eexists _, _. split; [reflexivity|]. split; [reflexivity|].
  split; [|apply record_Consistent].
  split; [reflexivity|]. exists a. cbn. repeat split; auto.
Qed.

Lemma baltimoreStep_Step targetRouteId stopMapping stationPatterns lineId :
  Step (Some targetRouteId) (Some lineId)
    (baltimoreStep targetRouteId stopMapping stationPatterns lineId).
Proof.
  intros st entity. unfold processed, badTimes, baltimoreStep.
  destruct (alert entity) as [a|] eqn:Ea; [|reflexivity].
  destruct (existsb _ (informedEntity a)); [|reflexivity]. cbn [negb].
  destruct (postedAtOf a) as [p|e] eqn:Ep; [|eauto].
  destruct (expiresAtOf a) as [x|e] eqn:Ex; [|eauto].
  eexists _, _. split; [reflexivity|]. split; [reflexivity|].
  split; [|apply record_Consistent].
  split; [reflexivity|]. exists a. cbn. repeat split; auto.
Qed.

End WithHost.

Lemma forEach_Step target line step entities st :
  Step target line step ->
  if existsb (fun x => processed target x && badTimes x) entities
  then exists e, forEach step entities st = Threw e
  else exists st' als,
         forEach step entities st = Returned st'
         /\ alertsSoFar st' = alertsSoFar st ++ als
         /\ Forall2 (reports line) als (List.filter (processed target) entities)
         /\ (Consistent (detected st) -> Consistent (detected st')).
Proof.
  intros Hstep. revert st.
  induction entities as [|x rest IH]; intros st; cbn [existsb forEach List.filter].
  - exists st, []. rewrite app_nil_r. split; [reflexivity|].
    split; [reflexivity|]. split; [constructor | auto].
  - specialize (Hstep st x).
    destruct (processed target x) eqn:Hp; cbn [andb orb].
    + destruct (badTimes x) eqn:Hb; cbn [orb].
      * destruct Hstep as [e ->]. eauto.
      * destruct Hstep as (st1 & al & -> & Hal & Hrep & Hc).
        specialize (IH st1).
        destruct (existsb _ rest).
        -- exact IH.
        -- destruct IH as (st' & als & -> & Hals & Hreps & Hc').
           exists st', (al :: als). split; [reflexivity|].
           split; [rewrite Hals, Hal, <- app_assoc; reflexivity|].
           split; [constructor; assumption | auto].
    + rewrite Hstep. apply IH.
Qed.

Lemma Consistent_empty : Consistent (detected emptyAssembled).
Proof.
  unfold Consistent, emptyAssembled. cbn. repeat split; try lia; constructor.
Qed.

Lemma stations_le_units {V} (o : list (list N * list V)) :
  Forall (fun kv => kv.2 <> []) o -> (length (objKeys o) <= unitsOf o)%nat.
Proof.
  unfold objKeys, unitsOf, objValues.
  induction 1 as [|[k l] r Hl Hr IH]; simpl; [lia|].
  rewrite length_app. destruct l; [contradiction|]. simpl in *. lia.
Qed.

Section Pipelines.
Context `{StringBuiltins} `{RegExpBuiltins}.

Lemma gtfs_pipeline_run pipeline target line :
  (pipeline, target, line) ∈ gtfsPipelines ->
  exists systemId step,
    Step target line step
    /\ forall feed nowIso,
         pipeline feed nowIso
         = match feed with
           | None => Returned None
           | Some entities =>
               match forEach step entities emptyAssembled with
               | Returned st => Returned (Some (assemble systemId nowIso st))
               | Threw e => Threw e
               end
           end.
Proof.
  unfold gtfsPipelines. rewrite !elem_of_cons, elem_of_nil.
  intros [[= -> -> ->]|[[= -> -> ->]|[[= -> -> ->]|[]]]].
  - exists (js "sound-transit"), soundTransitStep.
    split; [apply soundTransitStep_Step | reflexivity].
  - eexists _, _. split; [apply baltimoreStep_Step | reflexivity].
  - eexists _, _. split; [apply baltimoreStep_Step | reflexivity].
Qed.

Lemma gtfs_pipeline_result pipeline target line entities nowIso :
  (pipeline, target, line) ∈ gtfsPipelines ->
  if existsb (fun x => processed target x && badTimes x) entities
  then exists e, pipeline (Some entities) nowIso = Threw e
  else exists systemId st,
         pipeline (Some entities) nowIso
         = Returned (Some (assemble systemId nowIso st))
         /\ Forall2 (reports line) (alertsSoFar st)
              (List.filter (processed target) entities)
         /\ Consistent (detected st).
Proof.
  intros Hin. destruct (gtfs_pipeline_run _ _ _ Hin) as (sys & step & Hstep & Hrun).
  rewrite Hrun.
  pose proof (forEach_Step target line step entities emptyAssembled Hstep) as Hf.
  destruct (existsb _ entities).
  - destruct Hf as [e ->]. eauto.
  - destruct Hf as (st & als & -> & Hals & Hrep & Hc).
    exists sys, st. split; [reflexivity|]. cbn in Hals. subst als.
    split; [assumption | apply Hc, Consistent_empty].
Qed.

End Pipelines.

(** X16: in the result of a GTFS-Realtime pipeline (Sound Transit,
    Baltimore Metro, Baltimore Light Rail) the summary agrees with the
    dictionary: [totalOutages] is the sum of the two counters and the
    number of units filed, [stationsAffected] is the number of keys, no
    station is listed twice or with an empty list (so there are at most as
    many stations as outages), and [activeAlerts] is the number of alerts. *)
Theorem gtfs_pipeline_summary_matches_outages
    `{StringBuiltins} `{RegExpBuiltins}
    pipeline target line (entities : list FeedEntity) (nowIso : jsstring)
    (d : IncidentData) :
  (pipeline, target, line) ∈ gtfsPipelines ->
  plainFeed entities = true ->
  pipeline (Some entities) nowIso = Returned (Some d) ->
  totalOutages (summary d)
  = elevatorOutages (summary d) + escalatorOutages (summary d)
  /\ totalOutages (summary d) = Z.of_nat (unitsOf (outagesByStation d))
  /\ 0 <= elevatorOutages (summary d)
  /\ 0 <= escalatorOutages (summary d)
  /\ stationsAffected (summary d)
     = Z.of_nat (length (objKeys (outagesByStation d)))
  /\ stationsAffected (summary d) <= totalOutages (summary d)
  /\ NoDup (objKeys (outagesByStation d))
  /\ Forall (fun kv => kv.2 <> []) (outagesByStation d)
  /\ exists als, alerts d = Some als
                 /\ activeAlerts (summary d) = Some (Z.of_nat (length als)).
Proof.
  intros Hin _ Hd.
  pose proof (gtfs_pipeline_result pipeline target line entities nowIso Hin)
    as Hr.
  destruct (existsb _ entities).
  - destruct Hr as [e He]. congruence.
  - destruct Hr as (sys & st & Hst & _ & Hu & He & Hs & Hnd & Hne).
    rewrite Hst in Hd. injection Hd as <-. cbn.
    pose proof (stations_le_units _ Hne). unfold objKeys in *.
    repeat split; try lia; try assumption.
    all: eauto.
Qed.

Lemma gtfs_pipeline_summary_matches_outages_witness :
  totalOutages (summary metroReport) = 2
  /\ stationsAffected (summary metroReport) <= totalOutages (summary metroReport).
Proof.
  pose proof (@gtfs_pipeline_summary_matches_outages latinDeseret
                wordPatterns _ _ _ marylandFeed noon metroReport
                (list_elem_of_further _ _ _ (list_elem_of_here _ _))
                eq_refl eq_refl) as (_ & _ & _ & _ & _ & Hle & _).
  split; [reflexivity | exact Hle].
Defined.

(** X17: the alerts of a GTFS-Realtime pipeline follow the feed: one alert
    per entity that has an alert (for the Baltimore pipelines: and names the
    pipeline's route), in feed order, with the entity's id, the class of its
    effect, its header as title (or "Service Alert"), its trimmed
    description and its times; a Baltimore alert carries exactly the line
    of its pipeline. *)
Theorem gtfs_pipeline_reports_feed_in_order
    `{StringBuiltins} `{RegExpBuiltins}
    pipeline target line (entities : list FeedEntity) (nowIso : jsstring)
    (d : IncidentData) :
  (pipeline, target, line) ∈ gtfsPipelines ->
  plainFeed entities = true ->
  pipeline (Some entities) nowIso = Returned (Some d) ->
  exists als,
    alerts d = Some als
    /\ Forall2 (reports line) als (List.filter (processed target) entities).
Proof.
  intros Hin _ Hd.
  pose proof (gtfs_pipeline_result pipeline target line entities nowIso Hin)
    as Hr.
  destruct (existsb _ entities).
  - destruct Hr as [e He]. congruence.
  - destruct Hr as (sys & st & Hst & Hrep & _).
    rewrite Hst in Hd. injection Hd as <-. cbn. eauto.
Qed.

Lemma gtfs_pipeline_reports_feed_in_order_witness :
  exists als,
    alerts metroReport = Some als
    /\ Forall2 (reports (Some (js "metro"))) als [uptonElevator].
Proof.
  exact (@gtfs_pipeline_reports_feed_in_order latinDeseret wordPatterns
           _ _ _ marylandFeed noon metroReport
           (list_elem_of_further _ _ _ (list_elem_of_here _ _))
           eq_refl eq_refl).
Defined.

(** X18: a GTFS-Realtime pipeline answers [null] exactly when it has no
    feed.  With a feed it throws exactly when the time stamp of an entity it
    reports cannot be converted, and then reports nothing at all; an
    unconvertible time stamp of an entity it skips does no harm. *)
Theorem gtfs_pipeline_null_and_throw
    `{StringBuiltins} `{RegExpBuiltins}
    pipeline target line (entities : list FeedEntity) (nowIso : jsstring) :
  (pipeline, target, line) ∈ gtfsPipelines ->
  plainFeed entities = true ->
  pipeline None nowIso = Returned None
  /\ pipeline (Some entities) nowIso <> Returned None
  /\ ((exists e, pipeline (Some entities) nowIso = Threw e)
      <-> exists x, x ∈ entities /\ processed target x = true
                    /\ badTimes x = true).
Proof.
  intros Hin _.
  pose proof (gtfs_pipeline_result pipeline target line entities nowIso Hin)
    as Hr.
  destruct (gtfs_pipeline_run _ _ _ Hin) as (sys & step & _ & Hrun).
  split; [apply Hrun|].
  destruct (existsb _ entities) eqn:Hex.
  - destruct Hr as [e He]. split; [congruence|]. split; [|eauto].
    intros _. apply existsb_exists in Hex as (x & Hx & Hb).
    apply andb_true_iff in Hb as [Hp Hb]. exists x.
    rewrite list_elem_of_In. auto.
  - destruct Hr as (s & st & Hst & _). split; [congruence|]. split.
    + intros [e He]. congruence.
    + intros (x & Hx & Hp & Hb). exfalso.
      assert (existsb (fun x => processed target x && badTimes x) entities
              = true) as Ht.
      { apply existsb_exists. exists x. rewrite <- list_elem_of_In.
        split; [assumption|]. now rewrite Hp, Hb. }
      congruence.
Qed.

Lemma gtfs_pipeline_null_and_throw_witness :
  (exists e, @fetchBaltimoreLightRailIncidents latinDeseret wordPatterns
               (Some marylandFeed) noon = Threw e)
  <-> exists x, x ∈ marylandFeed
                /\ processed (Some MTA_MARYLAND_LIGHT_RAIL_ROUTE) x = true
                /\ badTimes x = true.
Proof.
  exact (proj2 (proj2
    (@gtfs_pipeline_null_and_throw latinDeseret wordPatterns
       _ _ _ marylandFeed noon
       (list_elem_of_further _ _ _
          (list_elem_of_further _ _ _ (list_elem_of_here _ _)))
       eq_refl))).
Defined.

End GtfsFacts.

Module NycPipelineFacts.
Import HostFacts ObjectFacts Wmata WmataFacts Normalize NycLive Normalizer.
Import OwnKeys Views GtfsViews NycViews Samples FeedSamples MoreSamples.
Import Feeds GtfsRt NycIndex NycPipeline NycIndexFacts GtfsFacts.
Local Open Scope Z_scope.

Lemma nycAlertStep_spec alerts entity :
  match isSubwayAlert entity, badTimes entity with
  | false, _ => nycAlertStep alerts entity = Returned alerts
  | true, true => exists e, nycAlertStep alerts entity = Threw e
  | true, false =>
      exists al, nycAlertStep alerts entity = Returned (alerts ++ [al])
                 /\ reports None al entity
  end.
Proof.
  unfold isSubwayAlert, badTimes, nycAlertStep.
  destruct (alert entity) as [a|] eqn:Ea; [|reflexivity].
  destruct (existsb _ (informedEntity a)); [|reflexivity]. cbn [negb].
  destruct (postedAtOf a) as [p|e] eqn:Ep; [|eauto].
  destruct (expiresAtOf a) as [x|e] eqn:Ex; [|eauto].
  eexists. split; [reflexivity|].
  split; [reflexivity|]. exists a. cbn. repeat split; auto.
Qed.

Lemma nycAlerts_spec entities alerts :
  if existsb (fun x => isSubwayAlert x && badTimes x) entities
  then exists e, forEach nycAlertStep entities alerts = Threw e
  else exists als,
         forEach nycAlertStep entities alerts = Returned (alerts ++ als)
         /\ Forall2 (reports None) als (List.filter isSubwayAlert entities).
Proof.
  revert alerts.
  induction entities as [|x rest IH]; intros alerts;
    cbn [existsb forEach List.filter].
  - exists []. rewrite app_nil_r. split; [reflexivity | constructor].
  - pose proof (nycAlertStep_spec alerts x) as Hstep.
    destruct (isSubwayAlert x) eqn:Hp; cbn [andb orb].
    + destruct (badTimes x) eqn:Hb; cbn [orb].
      * destruct Hstep as [e ->]. eauto.
      * destruct Hstep as (al & -> & Hrep).
        specialize (IH (alerts ++ [al])).
        destruct (existsb _ rest); [exact IH|].
        destruct IH as (als & -> & Hreps).
        exists (al :: als). rewrite <- app_assoc.
        split; [reflexivity | constructor; assumption].
    + rewrite Hstep. apply IH.
Qed.

Section WithHost.
Context `{StringBuiltins} `{ClockBuiltins}.

Lemma eneStep_Consistent index st outage :
  Consistent (found st) -> Consistent (found (eneStep index st outage)).
Proof.
  intros (Hu & He & Hs & Hnd & Hne).
  destruct (eneStep_counts index st outage) as (He' & Hs' & Hu').
  unfold Consistent. rewrite He', Hs', Hu'.
  split; [destruct (kept index outage), (isEL outage); simpl; lia|].
  split; [destruct (kept index outage && isEL outage); lia|].
  split; [destruct (kept index outage && negb (isEL outage)); lia|].
  destruct (eneStep_spec index st outage)
    as [[_ ->]|[_ (cs & m & entry & n & _ & _ & _ & ->)]];
    cbn [found byStation]; [auto|].
  split.
  - rewrite objKeys_objPush. now apply NoDup_objKeys_objEnsure.
  - now apply nonempty_objPush_objEnsure.
Qed.

Lemma processEneOutages_Consistent index start eneData :
  Consistent (found start) ->
  Consistent (found (processEneOutages index start eneData)).
Proof.
  unfold processEneOutages. revert start.
  induction eneData as [|o r IH]; intros start Hc; cbn [fold_left];
    [assumption|].
  apply IH. now apply eneStep_Consistent.
Qed.

Lemma nycReport_summary alerts st :
  Consistent (found st) ->
  let d := nycReport alerts st in
  totalOutages (summary d)
  = elevatorOutages (summary d) + escalatorOutages (summary d)
  /\ totalOutages (summary d) = Z.of_nat (unitsOf (outagesByStation d))
  /\ 0 <= elevatorOutages (summary d)
  /\ 0 <= escalatorOutages (summary d)
  /\ stationsAffected (summary d)
     = Z.of_nat (length (objKeys (outagesByStation d)))
  /\ stationsAffected (summary d) <= totalOutages (summary d)
  /\ NoDup (objKeys (outagesByStation d))
  /\ Forall (fun kv => kv.2 <> []) (outagesByStation d).
Proof.
  intros (Hu & He & Hs & Hnd & Hne). cbn.
  pose proof (stations_le_units _ Hne). unfold objKeys in *.
  repeat split; try lia; try assumption.
  all: eauto.
Qed.

End WithHost.

Lemma Consistent_nothing n :
  Consistent (found {| found := {| byStation := []; elevators := 0;
                                   escalators := 0 |};
                       readings := n |}).
Proof. unfold Consistent. cbn. repeat split; try lia; constructor. Qed.

(** X21: what the NYC pipeline reports is consistent.  [totalOutages] is
    the sum of the two counters and the number of units filed,
    [stationsAffected] the number of keys, no station is listed twice or
    with an empty list, and the alerts are those of the feed's subway
    entities (an informed entity of agency "MTASBWY"), one each, in feed
    order, with [activeAlerts] their number. *)
Theorem fetchNycSubwayIncidents_report_is_consistent
    `{StringBuiltins} `{ClockBuiltins}
    (feed : option (list FeedEntity))
    (eneResponse : Outcome (HttpReply (option (list NycSubwayEneOutage))))
    (cached cached' : option (gmap (list N) (list Candidate)))
    (stations : Outcome (list Station)) (readingsBefore : nat)
    (d : IncidentData) :
  PlainNycInputs feed eneResponse cached stations ->
  fetchNycSubwayIncidents feed eneResponse cached stations readingsBefore
  = (Some d, cached') ->
  totalOutages (summary d)
  = elevatorOutages (summary d) + escalatorOutages (summary d)
  /\ totalOutages (summary d) = Z.of_nat (unitsOf (outagesByStation d))
  /\ 0 <= elevatorOutages (summary d)
  /\ 0 <= escalatorOutages (summary d)
  /\ stationsAffected (summary d)
     = Z.of_nat (length (objKeys (outagesByStation d)))
  /\ stationsAffected (summary d) <= totalOutages (summary d)
  /\ NoDup (objKeys (outagesByStation d))
  /\ Forall (fun kv => kv.2 <> []) (outagesByStation d)
  /\ exists als,
       alerts d = Some als
       /\ activeAlerts (summary d) = Some (Z.of_nat (length als))
       /\ Forall2 (reports None) als
            (List.filter isSubwayAlert (default [] feed)).
Proof.
  intros _ Hd. unfold fetchNycSubwayIncidents in Hd.
  destruct eneResponse as [response|e]; [|discriminate].
  pose proof (nycAlerts_spec (default [] feed) []) as Ha.
  destruct (existsb _ (default [] feed)).
  { destruct Ha as [e He]. rewrite He in Hd. discriminate. }
  destruct Ha as (als & Hals & Hrep). rewrite Hals in Hd. cbn [app] in Hd.
  assert (Hgen : forall st, Consistent (found st) -> d = nycReport als st ->
    totalOutages (summary d)
    = elevatorOutages (summary d) + escalatorOutages (summary d)
    /\ totalOutages (summary d) = Z.of_nat (unitsOf (outagesByStation d))
    /\ 0 <= elevatorOutages (summary d)
    /\ 0 <= escalatorOutages (summary d)
    /\ stationsAffected (summary d)
       = Z.of_nat (length (objKeys (outagesByStation d)))
    /\ stationsAffected (summary d) <= totalOutages (summary d)
    /\ NoDup (objKeys (outagesByStation d))
    /\ Forall (fun kv => kv.2 <> []) (outagesByStation d)
    /\ exists als,
         alerts d = Some als
         /\ activeAlerts (summary d) = Some (Z.of_nat (length als))
         /\ Forall2 (reports None) als
              (List.filter isSubwayAlert (default [] feed))).
  { intros st Hc ->.
    destruct (nycReport_summary als st Hc)
      as (H1 & H2 & H3 & H4 & H5 & H6 & H7 & H8).
    repeat (split; [assumption|]). exists als. cbn. auto. }
  destruct (replyOk response).
  - destruct (replyBody response) as [eneData|e]; [|discriminate].
    destruct (getNycStationIndex cached stations) as [[index|e] c];
      [|discriminate].
    injection Hd as <- _. eapply Hgen; [|reflexivity].
    apply processEneOutages_Consistent, Consistent_nothing.
  - injection Hd as <- _. eapply Hgen; [|reflexivity].
    apply Consistent_nothing.
Qed.

Lemma sample_inputs_plain :
  PlainNycInputs (Some [shuttleDelay]) oneOutage (Some canalStIndex)
    (Threw NetworkError).
Proof.
  split; [reflexivity|]. split; [|split].
  - intros response eneData [= <-] [= <-]. reflexivity.
  - intros index [= <-]. apply canalStIndex_plain.
  - discriminate.
Qed.

Lemma fetchNycSubwayIncidents_report_is_consistent_witness :
  totalOutages (summary subwayReport) = 1
  /\ stationsAffected (summary subwayReport)
     <= totalOutages (summary subwayReport).
Proof.
  pose proof (@fetchNycSubwayIncidents_report_is_consistent latinDeseret
                stoppedClock (Some [shuttleDelay]) oneOutage
                (Some canalStIndex) (Some canalStIndex) (Threw NetworkError)
                0%nat subwayReport sample_inputs_plain eq_refl)
    as (_ & _ & _ & _ & _ & Hle & _).
  split; [reflexivity | exact Hle].
Defined.

(** X22: the NYC pipeline answers [null] exactly when the request for the
    outage feed is rejected, when the time stamp of a subway alert cannot
    be converted, or when the outage feed answered 2xx but its body cannot
    be read or the station list cannot be loaded for a missing index.  A
    missing alerts feed or a non-2xx outage feed alone does not prevent a
    report, and an index that is already loaded is never replaced. *)
Theorem fetchNycSubwayIncidents_null_exactly_on_failure
    `{StringBuiltins} `{ClockBuiltins}
    (feed : option (list FeedEntity))
    (eneResponse : Outcome (HttpReply (option (list NycSubwayEneOutage))))
    (cached : option (gmap (list N) (list Candidate)))
    (stations : Outcome (list Station)) (readingsBefore : nat) :
  PlainNycInputs feed eneResponse cached stations ->
  ((fetchNycSubwayIncidents feed eneResponse cached stations
      readingsBefore).1 = None
   <-> (exists e, eneResponse = Threw e)
       \/ (exists x, x ∈ default [] feed /\ isSubwayAlert x = true
                     /\ badTimes x = true)
       \/ exists response,
            eneResponse = Returned response /\ replyOk response = true
            /\ ((exists e, replyBody response = Threw e)
                \/ (cached = None /\ exists e, stations = Threw e)))
  /\ (forall index, cached = Some index ->
        (fetchNycSubwayIncidents feed eneResponse cached stations
           readingsBefore).2 = Some index).
Proof.
  intros _. unfold fetchNycSubwayIncidents. split.
  - destruct eneResponse as [response|e].
    2:{ split; [eauto | reflexivity]. }
    pose proof (nycAlerts_spec (default [] feed) []) as Ha.
    destruct (existsb _ (default [] feed)) eqn:Hex.
    + destruct Ha as [e ->]. split; [|reflexivity]. intros _. right. left.
      apply existsb_exists in Hex as (x & Hx & Hb).
      apply andb_true_iff in Hb as [Hp Hb]. exists x.
      rewrite list_elem_of_In. auto.
    + destruct Ha as (als & -> & _).
      assert (Hno : ~ exists x, x ∈ default [] feed /\ isSubwayAlert x = true
                                /\ badTimes x = true).
      { intros (x & Hx & Hp & Hb).
        assert (existsb (fun x => isSubwayAlert x && badTimes x)
                  (default [] feed) = true) as Ht; [|congruence].
        apply existsb_exists. exists x. rewrite <- list_elem_of_In.
        split; [assumption|]. now rewrite Hp, Hb. }
      destruct (replyOk response) eqn:Hok.
      * destruct (replyBody response) as [eneData|e] eqn:Hb.
        -- unfold getNycStationIndex.
           destruct cached as [index|]; cbn [fst].
           ++ split; [discriminate|].
              intros [[e [=]]|[Hx|(r & [= <-] & _ & [[e He]|[[=] _]])]];
                [contradiction | congruence].
           ++ destruct stations as [list|e]; cbn [fst].
              ** split; [discriminate|].
                 intros [[e [=]]|[Hx|(r & [= <-] & _ & [[e He]|[_ [e [=]]]])]];
                   [contradiction | congruence].
              ** split; [|reflexivity]. intros _. right. right.
                 exists response. eauto 8.
        -- cbn [fst]. split; [|reflexivity]. intros _. right. right.
           exists response. eauto 8.
      * cbn [fst]. split; [discriminate|].
        intros [[e [=]]|[Hx|(r & [= <-] & Hok' & _)]];
          [contradiction | congruence].
  - intros index ->. destruct eneResponse as [response|e]; [|reflexivity].
    destruct (forEach nycAlertStep (default [] feed) []); [|reflexivity].
    destruct (replyOk response); [|reflexivity].
    destruct (replyBody response); reflexivity.
Qed.

Lemma fetchNycSubwayIncidents_null_exactly_on_failure_witness :
  (@fetchNycSubwayIncidents latinDeseret stoppedClock (Some [shuttleDelay])
     oneOutage (Some canalStIndex) (Threw NetworkError) 0).2
  = Some canalStIndex.
Proof.
  exact (proj2
    (@fetchNycSubwayIncidents_null_exactly_on_failure latinDeseret
       stoppedClock (Some [shuttleDelay]) oneOutage (Some canalStIndex)
       (Threw NetworkError) 0%nat sample_inputs_plain)
    canalStIndex eq_refl).
Defined.

End NycPipelineFacts.

Module CsvFacts.
Import BatchMatch Csv Views MoreSamples.

Lemma joinWith_snoc sep (l : list (list N)) (x : list N) :
  joinWith sep (l ++ [x])
  = match l with
    | [] => x
    | _ => joinWith sep l ++ sep :: x
    end.
Proof.
  induction l as [|a [|b r] IH]; [reflexivity..|].
  change (joinWith sep ((a :: b :: r) ++ [x]))
    with (a ++ sep :: joinWith sep ((b :: r) ++ [x])).
  rewrite IH. change (joinWith sep (a :: b :: r))
    with (a ++ sep :: joinWith sep (b :: r)).
  now rewrite <- app_assoc.
Qed.

Lemma joinWith_grow sep (l : list (list N)) (x y : list N) :
  joinWith sep (l ++ [x ++ y]) = joinWith sep (l ++ [x]) ++ y.
Proof.
  rewrite !joinWith_snoc. destruct l; [reflexivity|].
  rewrite <- app_assoc. reflexivity.
Qed.

Lemma split_fold_join line st :
  joinWith COMMA (fields (fold_left splitStep line st)
                  ++ [current (fold_left splitStep line st)])
  = joinWith COMMA (fields st ++ [current st])
    ++ List.filter (fun c => negb (c =? QUOTE)) line.
Proof.
  revert st. induction line as [|ch t IH]; intros st; cbn [fold_left List.filter].
  - now rewrite app_nil_r.
  - rewrite IH. unfold splitStep.
    destruct (ch =? QUOTE) eqn:Eq; cbn [fields current negb]; [reflexivity|].
    destruct ((ch =? COMMA) && negb (inQuotes st)) eqn:Ec; cbn [fields current].
    + apply andb_true_iff in Ec as [Ec _]. apply N.eqb_eq in Ec. subst ch.
      rewrite (joinWith_snoc COMMA (fields st ++ [current st]) []).
      destruct (fields st ++ [current st]) eqn:El;
        [now destruct (fields st)|].
      now rewrite <- app_assoc.
    + rewrite joinWith_grow, <- app_assoc. reflexivity.
Qed.

Lemma split_fold_quotes line st :
  Forall (fun field => QUOTE ∉ field) (fields st ++ [current st]) ->
  Forall (fun field => QUOTE ∉ field)
    (fields (fold_left splitStep line st)
     ++ [current (fold_left splitStep line st)]).
Proof.
  revert st. induction line as [|ch t IH]; intros st Hst; cbn [fold_left];
    [assumption|].
  apply IH. unfold splitStep.
  apply Forall_app in Hst as [Hf Hc].
  rewrite Forall_singleton in Hc.
  destruct (ch =? QUOTE) eqn:Eq; cbn [fields current].
  - apply Forall_app. split; [assumption|]. apply Forall_singleton. exact Hc.
  - destruct ((ch =? COMMA) && negb (inQuotes st)); cbn [fields current].
    + apply Forall_app. split.
      * apply Forall_app. split; [assumption|]. apply Forall_singleton. exact Hc.
      * apply Forall_singleton, not_elem_of_nil.
    + apply Forall_app. split; [assumption|]. apply Forall_singleton.
      rewrite elem_of_app, list_elem_of_singleton. intros [Hq|Hq];
        [contradiction|]. apply N.eqb_neq in Eq. congruence.
Qed.

Lemma splitOn_cons sep (s : list N) : exists h r, splitOn sep s = h :: r.
Proof.
  induction s as [|c t (h & r & IH)]; cbn [splitOn]; [eauto|].
  rewrite IH. destruct (c =? sep); eauto.
Qed.

Lemma split_fold_plain line st :
  QUOTE ∉ line -> inQuotes st = false ->
  fields (fold_left splitStep line st) ++ [current (fold_left splitStep line st)]
  = fields st ++ match splitOn COMMA line with
                 | [] => [current st]
                 | h :: r => (current st ++ h) :: r
                 end.
Proof.
  revert st. induction line as [|ch t IH]; intros st Hq Hin;
    cbn [fold_left splitOn].
  - now rewrite app_nil_r.
  - apply not_elem_of_cons in Hq as [Hne Hq].
    rewrite IH; [|assumption|].
    + unfold splitStep. rewrite (proj2 (N.eqb_neq ch QUOTE)) by congruence.
      rewrite Hin. cbn [negb]. rewrite andb_true_r.
      destruct (ch =? COMMA); cbn [fields current].
      * destruct (splitOn_cons COMMA t) as (h & r & ->).
        now rewrite app_nil_r, <- app_assoc.
      * destruct (splitOn_cons COMMA t) as (h & r & ->).
        now rewrite <- app_assoc.
    + unfold splitStep. rewrite (proj2 (N.eqb_neq ch QUOTE)) by congruence.
      now destruct ((ch =? COMMA) && negb (inQuotes st)).
Qed.

(** X23: [splitCsvLine] loses nothing but the quotes: joining its fields
    with commas gives the line with every double quote removed (a doubled
    quote inside a quoted field is removed too, not kept as one quote), no
    field contains a double quote, and on a line without double quotes it
    is [line.split(",")]. *)
Theorem splitCsvLine_loses_only_quotes (line : jsstring) :
  joinWith COMMA (splitCsvLine line)
  = List.filter (fun c => negb (c =? QUOTE)) line
  /\ Forall (fun field => QUOTE ∉ field) (splitCsvLine line)
  /\ (QUOTE ∉ line -> splitCsvLine line = splitOn COMMA line).
Proof.
  unfold splitCsvLine. cbv zeta. split; [|split].
  - rewrite split_fold_join. reflexivity.
  - apply split_fold_quotes. apply Forall_singleton, not_elem_of_nil.
  - intros Hq. rewrite split_fold_plain by auto. cbn [fields current app].
    now destruct (splitOn_cons COMMA line) as (h & r & ->).
Qed.

Lemma splitCsvLine_loses_only_quotes_witness :
  splitCsvLine (js "BMT,Canal St,N Q") = splitOn COMMA (js "BMT,Canal St,N Q").
Proof.
  apply (proj2 (proj2 (splitCsvLine_loses_only_quotes
                         (js "BMT,Canal St,N Q")))).
  intros Hq. apply list_elem_of_In in Hq. vm_compute in Hq.
  repeat (destruct Hq as [Hq|Hq]; [discriminate|]). exact Hq.
Defined.

Lemma omap_length_le {A B} (f : A -> option B) (l : list A) :
  (length (omap f l) <= length l)%nat.
Proof.
  induction l as [|x r IH]; [reflexivity|]. cbn [omap list_omap length].
  destruct (f x); cbn [length]; lia.
Qed.

Lemma splitOn_without sep (s : list N) : sep ∉ s -> splitOn sep s = [s].
Proof.
  induction s as [|c t IH]; [reflexivity|]. intros Hs.
  apply not_elem_of_cons in Hs as [Hne Hs]. cbn [splitOn].
  rewrite (proj2 (N.eqb_neq c sep)) by congruence. now rewrite IH.
Qed.

Lemma splitOn_first sep (h rest : list N) :
  sep ∉ h -> splitOn sep (h ++ sep :: rest) = h :: splitOn sep rest.
Proof.
  induction h as [|c t IH]; intros Hs.
  - cbn [app splitOn]. now rewrite N.eqb_refl.
  - apply not_elem_of_cons in Hs as [Hne Hs]. cbn [app splitOn].
    rewrite (proj2 (N.eqb_neq c sep)) by congruence. now rewrite IH.
Qed.

Lemma splitRunsFrom_pieces inRun s :
  Forall (fun piece => Forall (fun c => isSpace c = false) piece)
    (splitRunsFrom inRun s).
Proof.
  revert inRun. induction s as [|c t IH]; intros inRun; cbn [splitRunsFrom].
  - repeat constructor.
  - destruct (isSpace c) eqn:Ec.
    + destruct inRun; [apply IH|]. constructor; [constructor | apply IH].
    + specialize (IH false). destruct (splitRunsFrom false t) as [|h r].
      * repeat constructor. assumption.
      * apply Forall_cons in IH as [Hh Hr]. constructor; [|assumption].
        constructor; assumption.
Qed.

Section WithHost.
Context `{NumberBuiltins}.

Lemma parseLine_row rawLine row :
  parseLine rawLine = Some row ->
  isNaN (rowLat row) = false /\ isNaN (rowLng row) = false
  /\ Forall (fun route => route <> []
                          /\ Forall (fun c => isSpace c = false) route)
       (daytimeRoutes row).
Proof.
  unfold parseLine. case_bool_decide; [discriminate|].
  destruct (_ <? 14)%nat; [discriminate|].
  destruct (isNaN _ || isNaN _) eqn:En; [discriminate|].
  apply orb_false_iff in En as [Elat Elng]. intros [= <-].
  cbn [rowLat rowLng daytimeRoutes]. split; [assumption|].
  split; [assumption|].
  apply List.Forall_forall. intros route Hr.
  apply filter_In in Hr as [Hr Hlen]. split.
  - intros ->. discriminate.
  - pose proof (splitRunsFrom_pieces false
                  (nth 8 (splitCsvLine (trim rawLine)) [])) as Hp.
    rewrite List.Forall_forall in Hp. now apply Hp.
Qed.

(** X24: [parseCsv] never yields a row whose latitude or longitude is
    [NaN] or one of whose routes is empty or contains white space; it
    yields at most one row per line after the first; and the first line
    is skipped whatever it holds, so a file of one line has no rows. *)
Theorem parseCsv_rows_are_clean (raw : jsstring) :
  Forall (fun row =>
            isNaN (rowLat row) = false /\ isNaN (rowLng row) = false
            /\ Forall (fun route => route <> []
                                    /\ Forall (fun c => isSpace c = false) route)
                 (daytimeRoutes row))
    (parseCsv raw)
  /\ (length (parseCsv raw) < length (splitOn LINEFEED raw))%nat
  /\ (LINEFEED ∉ raw -> parseCsv raw = [])
  /\ (forall header rest,
        raw = header ++ LINEFEED :: rest -> LINEFEED ∉ header ->
        parseCsv raw = omap parseLine (splitOn LINEFEED rest)).
Proof.
  unfold parseCsv. split; [|split; [|split]].
  - apply List.Forall_forall. intros row Hr.
    apply list_elem_of_In, list_elem_of_omap in Hr as (l & _ & Hl).
    now apply parseLine_row in Hl.
  - destruct (splitOn_cons LINEFEED raw) as (first & rest & ->).
    cbn [tail length]. pose proof (omap_length_le parseLine rest). lia.
  - intros Hn. now rewrite splitOn_without.
  - intros header rest -> Hh. now rewrite splitOn_first.
Qed.

End WithHost.

Lemma parseCsv_rows_are_clean_witness :
  @parseCsv shortDecimals (entranceHeader ++ LINEFEED :: entranceLine)
  = omap (@parseLine shortDecimals) (splitOn LINEFEED entranceLine).
Proof.
  apply (proj2 (proj2 (proj2
    (@parseCsv_rows_are_clean shortDecimals
       (entranceHeader ++ LINEFEED :: entranceLine))))
    entranceHeader entranceLine eq_refl).
  apply (bool_decide_unpack (LINEFEED ∉ entranceHeader)). vm_compute.
  exact I.
Defined.

End CsvFacts.

Module WmataFetchFacts.
Import Wmata.
Local Open Scope Z_scope.

(** X25: [fetchWMATAIncidents] returns only truthy values, and returns at
    all only for a 2xx reply whose body is JSON other than [null]; a
    truthy [ElevatorIncidents] is returned as it is, array or not (the
    cast is unchecked); and the function throws exactly when the request
    is rejected, the status is not 2xx, the body is not JSON or the body is
    [null]. *)
Theorem fetchWMATAIncidents_returns_truthy_or_throws
    (reply : option Response) :
  (forall v, fetchWMATAIncidents reply = Returned v ->
     truthy v = true
     /\ exists response data,
          reply = Some response /\ ok response = true
          /\ body response = Some data /\ data <> JNull)
  /\ (forall response fields v,
        reply = Some response -> ok response = true ->
        body response = Some (JObject fields) ->
        lastField (js "ElevatorIncidents") fields = Some v ->
        truthy v = true ->
        fetchWMATAIncidents reply = Returned v)
  /\ ((exists e, fetchWMATAIncidents reply = Threw e)
      <-> reply = None
          \/ exists response,
               reply = Some response
               /\ (ok response = false \/ body response = None
                   \/ body response = Some JNull)).
Proof.
  unfold fetchWMATAIncidents. split; [|split].
  - intros v. destruct reply as [response|]; [|discriminate].
    destruct (ok response) eqn:Eok; cbn [negb]; [|discriminate].
    destruct (body response) as [data|] eqn:Eb; [|discriminate].
    assert (Hdata : forall (x : option JsonValue),
      Returned (match x with
                | Some w => if truthy w then w else JArray []
                | None => JArray []
                end) = Returned v -> truthy v = true).
    { intros [w|] [= <-]; [|reflexivity].
      destruct (truthy w) eqn:Ew; [assumption | reflexivity]. }
    destruct data; cbn [elevatorIncidentsOf]; try discriminate;
      intros Hv; (split; [|exists response; eexists; repeat split; eauto;
                            discriminate]);
      try (injection Hv as <-; reflexivity).
    destruct (lastField _ fields) as [w|]; [|now injection Hv as <-].
    injection Hv as <-. now destruct (truthy w) eqn:Ew.
  - intros response fields v -> Hok Hb Hf Hv.
    rewrite Hok, Hb. cbn [negb elevatorIncidentsOf]. now rewrite Hf, Hv.
  - destruct reply as [response|].
    2:{ split; eauto. }
    destruct (ok response) eqn:Eok; cbn [negb].
    2:{ split; [eauto 6 | eauto]. }
    destruct (body response) as [data|] eqn:Eb.
    2:{ split; [eauto 6 | eauto]. }
    destruct data; cbn [elevatorIncidentsOf].
    1:{ split; [eauto 7 | eauto]. }
    all: split;
      [ intros [e He];
        try discriminate;
        destruct (lastField _ fields); discriminate
      | intros [[=]|(r & [= <-] & [Hr|[Hr|Hr]])]; congruence ].
Qed.

Lemma fetchWMATAIncidents_returns_truthy_or_throws_witness :
  exists e, fetchWMATAIncidents (Some Samples.unavailable) = Threw e.
Proof.
  apply (proj2 (proj2
    (fetchWMATAIncidents_returns_truthy_or_throws (Some Samples.unavailable)))).
  right. exists Samples.unavailable. split; [reflexivity|]. left. reflexivity.
Defined.

End WmataFetchFacts.

Module StopLinkFacts.
Import HostFacts ObjectFacts BatchMatch StopLink Views Samples MoreSamples.
Local Open Scope Z_scope.

Section Entries.
Context {V : Type}.
Implicit Types (o : list (list N * V)) (k : list N).

Lemma objSet_absent k (v : V) o :
  objGet k o = None -> objSet k v o = o ++ [(k, v)].
Proof.
  induction o as [|[k' v'] r IH]; simpl; [reflexivity|].
  destruct (bool_decide (k' = k)); [discriminate|].
  intros Hn. now rewrite IH.
Qed.

Lemma objSet_app k (v : V) o1 o2 :
  objSet k v (o1 ++ o2)
  = match objGet k o1 with
    | Some _ => objSet k v o1 ++ o2
    | None => o1 ++ objSet k v o2
    end.
Proof.
  induction o1 as [|[k' v'] r IH]; simpl; [reflexivity|].
  destruct (bool_decide (k' = k)); [reflexivity|].
  rewrite IH. now destruct (objGet k r).
Qed.

Lemma objGet_entry k (v : V) o :
  NoDup (objKeys o) -> (k, v) ∈ o -> objGet k o = Some v.
Proof.
  unfold objKeys. induction o as [|[k' v'] r IH]; simpl; intros Hnd Hin.
  - now apply elem_of_nil in Hin.
  - apply NoDup_cons in Hnd as [Hk Hnd].
    apply elem_of_cons in Hin as [[= <- <-]|Hin].
    + now rewrite bool_decide_eq_true_2.
    + rewrite bool_decide_eq_false_2; [auto|].
      intros ->. apply Hk. apply list_elem_of_fmap. now exists (k, v).
Qed.

Lemma objGet_Some_entry k (v : V) o : objGet k o = Some v -> (k, v) ∈ o.
Proof.
  induction o as [|[k' v'] r IH]; simpl; [discriminate|].
  case_bool_decide as E.
  - intros [= <-]. subst k'. apply list_elem_of_here.
  - intros Hr. apply list_elem_of_further. auto.
Qed.

End Entries.

Lemma tally_lookup rows acc id :
  objGet id (fold_left tallyStep rows acc)
  = if bool_decide (id = []) then objGet id acc
    else bumped (objGet id acc) (timesIn id rows).
Proof.
  revert acc. unfold timesIn.
  induction rows as [|r rest IH]; intros acc; cbn [fold_left List.filter].
  - now case_bool_decide.
  - rewrite IH. unfold tallyStep.
    case_bool_decide as Eid; [subst id|].
    + case_bool_decide as Er; [reflexivity|].
      now rewrite objGet_objSet_ne by congruence.
    + case_bool_decide as Er.
      * rewrite bool_decide_eq_false_2 by congruence. reflexivity.
      * case_bool_decide as Ek.
        -- rewrite Ek, objGet_objSet_eq. cbn [length].
           destruct (length _) as [|n]; cbn [bumped];
             simpl; f_equal; lia.
        -- now rewrite objGet_objSet_ne by assumption.
Qed.

Lemma tally_NoDup rows acc :
  NoDup (objKeys acc) -> NoDup (objKeys (fold_left tallyStep rows acc)).
Proof.
  revert acc. induction rows as [|r rest IH]; intros acc Hnd; cbn [fold_left];
    [assumption|].
  apply IH. unfold tallyStep. case_bool_decide; [assumption|].
  destruct (objGet (gtfsStopId r) acc) as [c|] eqn:E.
  - rewrite objKeys_objSet_old by eauto. assumption.
  - rewrite objKeys_objSet_new by assumption.
    apply NoDup_app. split; [assumption|]. split.
    + intros k Hk Hk'. apply list_elem_of_singleton in Hk'. subst k.
      apply objGet_Some_keys in Hk as [c Hc]. congruence.
    + apply NoDup_singleton.
Qed.

Lemma tally_shape rows before id c after :
  objGet id before = None ->
  exists before' c' after',
    fold_left tallyStep rows (before ++ (id, c) :: after)
    = before' ++ (id, c') :: after'
    /\ objKeys before' = objKeys before.
Proof.
  revert before c after.
  induction rows as [|r rest IH]; intros before c after Hid; cbn [fold_left].
  - eauto.
  - unfold tallyStep. case_bool_decide as Er; [now apply IH|].
    set (v := default 0 _ + 1). clearbody v. rewrite objSet_app.
    destruct (objGet (gtfsStopId r) before) as [c0|] eqn:Eb.
    + destruct (IH (objSet (gtfsStopId r) v before) c after)
        as (b' & c' & a' & Hfold & Hk).
      * rewrite objGet_objSet_ne; [assumption|]. intros Heq.
        rewrite Heq in Eb. congruence.
      * exists b', c', a'. split; [exact Hfold|].
        rewrite Hk. apply objKeys_objSet_old. eauto.
    + cbn [objSet]. case_bool_decide as Ek; [now apply IH|].
      now apply IH.
Qed.

Lemma pick_spec entries best :
  (fold_left pickStep entries best = best
   /\ Forall (fun e => e.2 <= best.2) entries)
  \/ exists before after,
       entries = before ++ fold_left pickStep entries best :: after
       /\ best.2 < (fold_left pickStep entries best).2
       /\ Forall (fun e => e.2 < (fold_left pickStep entries best).2) before
       /\ Forall (fun e => e.2 <= (fold_left pickStep entries best).2) after.
Proof.
  revert best. induction entries as [|e rest IH]; intros best; cbn [fold_left].
  - left. split; [reflexivity | constructor].
  - unfold pickStep at 2 4 6 8 10.
    destruct (Z.ltb_spec best.2 e.2) as [Hlt|Hge].
    + destruct (IH e) as [[Hres Hall]|(b & a & Hsplit & Hb & Hbefore & Hafter)].
      * right. exists [], rest. rewrite Hres. cbn [app].
        repeat split; auto. 
      * right. exists (e :: b), a. cbn [app]. rewrite <- Hsplit.
        repeat split; try lia; auto.
    + destruct (IH best)
        as [[Hres Hall]|(b & a & Hsplit & Hb & Hbefore & Hafter)].
      * left. split; [assumption|]. constructor; [lia | assumption].
      * right. exists (e :: b), a. cbn [app]. rewrite <- Hsplit.
        repeat split; try lia; auto. constructor; [lia | assumption].
Qed.

Lemma split_unique {V} (k : list N) (v v' : V) l1 l2 l1' l2' :
  NoDup (objKeys (l1 ++ (k, v) :: l2)) ->
  l1 ++ (k, v) :: l2 = l1' ++ (k, v') :: l2' -> l1 = l1'.
Proof.
  unfold objKeys. revert l1'.
  induction l1 as [|x t IH]; intros [|x' t'] Hnd Heq; cbn [app] in *.
  - reflexivity.
  - exfalso. injection Heq as <- ->. cbn [List.map fst] in Hnd.
    apply NoDup_cons in Hnd as [Hk _]. apply Hk.
    rewrite List.map_app. apply elem_of_app. right. apply list_elem_of_here.
  - exfalso. injection Heq as -> <-. cbn [List.map fst] in Hnd.
    apply NoDup_cons in Hnd as [Hk _]. apply Hk.
    rewrite List.map_app. apply elem_of_app. right. apply list_elem_of_here.
  - injection Heq as <- Heq. f_equal. cbn [List.map] in Hnd.
    apply NoDup_cons in Hnd as [_ Hnd]. eauto.
Qed.

Lemma first_occurrence id rows :
  (0 < timesIn id rows)%nat ->
  exists before row after,
    rows = before ++ row :: after /\ gtfsStopId row = id
    /\ timesIn id before = 0%nat.
Proof.
  unfold timesIn. induction rows as [|r rest IH]; cbn [List.filter length];
    [lia|].
  case_bool_decide as Er.
  - intros _. exists [], r, rest. auto.
  - intros Hpos. destruct (IH Hpos) as (b & row & a & -> & Hrow & Hb).
    exists (r :: b), row, a. cbn [app List.filter].
    rewrite bool_decide_eq_false_2 by assumption. auto.
Qed.

Lemma timesIn_elem id rows r :
  r ∈ rows -> gtfsStopId r = id -> (0 < timesIn id rows)%nat.
Proof.
  unfold timesIn. intros Hr Hid.
  assert (Hin : In r (List.filter
                        (fun row => bool_decide (gtfsStopId row = id)) rows)).
  { apply filter_In. split; [now apply list_elem_of_In|].
    now apply bool_decide_eq_true_2. }
  destruct (List.filter _ rows); [destruct Hin | cbn; lia].
Qed.

Lemma timesIn_app id rows1 rows2 :
  timesIn id (rows1 ++ rows2) = (timesIn id rows1 + timesIn id rows2)%nat.
Proof. unfold timesIn. now rewrite List.filter_app, length_app. Qed.

Lemma tally_entry rows k v :
  (k, v) ∈ fold_left tallyStep rows [] ->
  k <> [] /\ v = Z.of_nat (timesIn k rows) /\ (0 < timesIn k rows)%nat.
Proof.
  intros Hin.
  assert (Hget : objGet k (fold_left tallyStep rows []) = Some v).
  { apply objGet_entry; [|assumption]. apply tally_NoDup. constructor. }
  rewrite tally_lookup in Hget. cbn [objGet] in Hget.
  case_bool_decide as Ek; [discriminate|]. split; [assumption|].
  destruct (timesIn k rows) as [|n]; cbn [bumped] in Hget; [discriminate|].
  injection Hget as <-. cbn [default from_option]. split; lia.
Qed.

Lemma tally_seen rows k :
  k <> [] -> (0 < timesIn k rows)%nat ->
  (k, Z.of_nat (timesIn k rows)) ∈ fold_left tallyStep rows [].
Proof.
  intros Hk Hpos. apply objGet_Some_entry. rewrite tally_lookup.
  rewrite bool_decide_eq_false_2 by assumption. cbn [objGet].
  destruct (timesIn k rows) as [|n]; [lia|]. cbn [bumped default from_option].
  f_equal.
Qed.

(** X26: the GTFS stop id linked to a station is the most frequent
    non-empty stop id among the station's matched rows, the one seen first
    among equally frequent ids; no id is linked exactly when every row has
    an empty stop id. *)
Theorem mostCommonStopId_is_first_most_frequent (rows : list CsvRow) :
  (mostCommonStopId rows = None
   <-> Forall (fun row => gtfsStopId row = []) rows)
  /\ forall id, mostCommonStopId rows = Some id ->
       id <> []
       /\ (forall other, other <> [] ->
             (timesIn other rows <= timesIn id rows)%nat)
       /\ exists before row after,
            rows = before ++ row :: after
            /\ gtfsStopId row = id
            /\ Forall (fun r => gtfsStopId r = []
                                \/ (timesIn (gtfsStopId r) rows
                                    < timesIn id rows)%nat) before.
Proof.
  unfold mostCommonStopId. cbv zeta.
  set (entries := fold_left tallyStep rows []).
  assert (Hentry : forall k v, (k, v) ∈ entries ->
            k <> [] /\ v = Z.of_nat (timesIn k rows)
            /\ (0 < timesIn k rows)%nat) by apply tally_entry.
  assert (Hseen : forall k, k <> [] -> (0 < timesIn k rows)%nat ->
            (k, Z.of_nat (timesIn k rows)) ∈ entries) by apply tally_seen.
  assert (Hnd : NoDup (objKeys entries)) by (apply tally_NoDup; constructor).
  destruct (pick_spec entries ([], 0))
    as [[Hres Hall]|(b & a & Hsplit & Hpos & Hbefore & Hafter)].
  - rewrite Hres. cbn [fst]. rewrite bool_decide_eq_true_2 by reflexivity.
    split; [|discriminate]. split; [|reflexivity]. intros _.
    apply List.Forall_forall. intros r Hr.
    destruct (gtfsStopId r) as [|c t] eqn:Er; [reflexivity|]. exfalso.
    assert (Hin : (c :: t, Z.of_nat (timesIn (c :: t) rows)) ∈ entries).
    { apply Hseen; [discriminate|].
      apply (timesIn_elem _ _ r); [now apply list_elem_of_In | assumption]. }
    pose proof (proj1 (List.Forall_forall _ _) Hall _
                  (proj1 (list_elem_of_In _ _) Hin)) as Hle.
    cbn [snd] in Hle.
    destruct (Hentry _ _ Hin) as (_ & _ & Hp). lia.
  - set (res := fold_left pickStep entries ([], 0)) in *.
    assert (Hin : res ∈ entries).
    { rewrite Hsplit. apply elem_of_app. right. apply list_elem_of_here. }
    destruct res as [id c] eqn:Eres. cbn [fst snd] in *.
    destruct (Hentry _ _ Hin) as (Hid & Hc & Hp).
    rewrite bool_decide_eq_false_2 by assumption. split.
    { split; [discriminate|]. intros Hall. exfalso.
      destruct (first_occurrence id rows Hp) as (b0 & row & a0 & -> & Hrow & _).
      apply Forall_app in Hall as [_ Hall].
      apply Forall_cons in Hall as [Hrow' _]. congruence. }
    intros id' [= <-]. split; [assumption|]. split.
    + intros other Hother.
      destruct (timesIn other rows) as [|n] eqn:En; [lia|].
      assert (Hin' : (other, Z.of_nat (S n)) ∈ entries).
      { rewrite <- En. apply Hseen; [assumption | lia]. }
      rewrite Hsplit in Hin'.
      apply elem_of_app in Hin' as [Hin'|Hin'].
      * pose proof (proj1 (List.Forall_forall _ _) Hbefore _
                      (proj1 (list_elem_of_In _ _) Hin')) as Hlt.
        cbn [snd] in Hlt. lia.
      * apply elem_of_cons in Hin' as [[= -> Hn]|Hin']; [lia|].
        pose proof (proj1 (List.Forall_forall _ _) Hafter _
                      (proj1 (list_elem_of_In _ _) Hin')) as Hle.
        cbn [snd] in Hle. lia.
    + destruct (first_occurrence id rows Hp)
        as (b0 & row & a0 & Hrows & Hrow & Hb0).
      exists b0, row, a0. split; [assumption|]. split; [assumption|].
      apply List.Forall_forall. intros r Hr.
      destruct (gtfsStopId r) as [|ch t] eqn:Er; [now left|]. right.
      rewrite <- Er.
      assert (Hk : gtfsStopId r <> []) by (rewrite Er; discriminate).
      (* the entries in front of [id] are those of the rows in front *)
      assert (Hshape : exists b' c' a',
                entries = b' ++ (id, c') :: a'
                /\ objKeys b' = objKeys (fold_left tallyStep b0 [])).
      { subst entries. rewrite Hrows, fold_left_app. cbn [fold_left].
        unfold tallyStep at 2. rewrite Hrow.
        rewrite bool_decide_eq_false_2 by assumption.
        assert (Hnone : objGet id (fold_left tallyStep b0 []) = None).
        { rewrite tally_lookup, bool_decide_eq_false_2 by assumption.
          now rewrite Hb0. }
        rewrite Hnone, objSet_absent by assumption.
        apply tally_shape. assumption. }
      destruct Hshape as (b' & c' & a' & Hsplit' & Hkeys).
      assert (Hbb : b = b').
      { apply (split_unique id c c' b a b' a').
        - rewrite <- Hsplit. assumption.
        - rewrite <- Hsplit. assumption. }
      subst b'.
      assert (Hkb : gtfsStopId r ∈ objKeys b).
      { rewrite Hkeys. apply objGet_Some_keys.
        rewrite tally_lookup, bool_decide_eq_false_2 by assumption.
        cbn [objGet].
        pose proof (timesIn_elem (gtfsStopId r) b0 r
                      (proj2 (list_elem_of_In _ _) Hr) eq_refl) as Hpos0.
        destruct (timesIn (gtfsStopId r) b0); [lia | cbn; eauto]. }
      unfold objKeys in Hkb. apply list_elem_of_In, in_map_iff in Hkb
        as ([k v] & Hkv & Hin0). cbn [fst] in Hkv. subst k.
      pose proof (proj1 (List.Forall_forall _ _) Hbefore _ Hin0) as Hlt.
      cbn [snd] in Hlt.
      assert (Hin1 : (gtfsStopId r, v) ∈ entries).
      { rewrite Hsplit. apply elem_of_app. left. now apply list_elem_of_In. }
      destruct (Hentry _ _ Hin1) as (_ & Hv & _). lia.
Qed.

Lemma mostCommonStopId_is_first_most_frequent_witness :
  (timesIn (js "R23") tiedRows <= timesIn (js "Q01") tiedRows)%nat.
Proof.
  apply (proj1 (proj2
    (proj2 (mostCommonStopId_is_first_most_frequent tiedRows)
       (js "Q01") eq_refl))).
  discriminate.
Defined.

End StopLinkFacts.

Module WorkerFacts.
Import OwnKeys Worker MoreSamples.
Local Open Scope Z_scope.

Lemma startsWith_spec (prefix s : list N) :
  startsWith prefix s = true <-> exists rest, s = prefix ++ rest.
Proof.
  revert s. induction prefix as [|a p IH]; intros s; cbn [startsWith].
  - split; [eauto | reflexivity].
  - destruct s as [|b t]; [split; [discriminate | intros [r [=]]]|].
    rewrite andb_true_iff, N.eqb_eq, IH. split.
    + intros [-> [r ->]]. eauto.
    + intros [r [= -> ->]]. eauto.
Qed.

Lemma capture_spec prefix inClass path rest :
  capture prefix inClass path = Some rest
  <-> path = prefix ++ rest /\ rest <> [] /\ forallb inClass rest = true.
Proof.
  unfold capture. destruct (startsWith prefix path) eqn:Es.
  - apply startsWith_spec in Es as [r ->].
    rewrite drop_app_length. case_bool_decide as Er; cbn [negb andb].
    + subst r. split; [discriminate|]. intros (Hp & Hr & _).
      apply app_inv_head in Hp. congruence.
    + destruct (forallb inClass r) eqn:Ef.
      * split.
        -- intros [= <-]. auto.
        -- intros (Hp & _). apply app_inv_head in Hp. congruence.
      * split; [discriminate|]. intros (Hp & _ & Hf).
        apply app_inv_head in Hp. congruence.
  - split; [discriminate|]. intros (-> & _).
    assert (startsWith prefix (prefix ++ rest) = true)
      by (apply startsWith_spec; eauto). congruence.
Qed.

Lemma refreshOne_status refreshed :
  status (refreshOne refreshed) = if fulfilled refreshed then 200 else 500.
Proof. now destruct refreshed. Qed.

Lemma serveStored_spec stored :
  match serveStored stored with
  | Returned response =>
      (status response = 200 \/ status response = 404)
      /\ (status response = 404 <-> stored = Returned None)
  | Threw e => stored = Threw e
  end.
Proof.
  destruct stored as [[d|]|e]; cbn; auto.
  - split; [auto|]. split; [discriminate|discriminate].
  - split; [auto|]. split; reflexivity.
Qed.

(** X27: the worker's HTTP contract.  An OPTIONS request gets an empty
    200 whatever the path.  Every response has status 200, 207, 404 or 500:
    207 exactly for [POST /refresh] when one of the two refreshes failed,
    500 exactly for [POST /refresh/wmata] or [POST /refresh/tokyo-metro]
    when that refresh threw.  Without stored data [GET /incidents/wmata]
    answers 404 but [GET /incidents/wmata/:stationId] answers 200 with an
    empty list; and the handler itself throws only when the KV read of a
    GET request throws. *)
Theorem worker_fetch_status_contract (request : Request) (env : Env) :
  (forall stationId,
     capture (js "/incidents/wmata/")
       (fun c => isLower c || isDigit c || isHyphen c) (pathname request)
     = Some stationId ->
     plainKey stationId = true) ->
  (method request = js "OPTIONS" ->
   fetch request env = Returned {| status := 200; payload := Empty |})
  /\ (forall response, fetch request env = Returned response ->
        (status response = 200 \/ status response = 207
         \/ status response = 404 \/ status response = 500)
        /\ (status response = 207
            <-> method request = js "POST"
                /\ pathname request = js "/refresh"
                /\ fulfilled (wmataRefresh env)
                   && fulfilled (tokyoRefresh env) = false)
        /\ (status response = 500
            <-> method request = js "POST"
                /\ ((pathname request = js "/refresh/wmata"
                     /\ fulfilled (wmataRefresh env) = false)
                    \/ (pathname request = js "/refresh/tokyo-metro"
                        /\ fulfilled (tokyoRefresh env) = false))))
  /\ (method request = js "GET" ->
      wmataStored env = Returned None ->
      (pathname request = js "/incidents/wmata" ->
       exists response, fetch request env = Returned response
                        /\ status response = 404)
      /\ (forall stationId,
            capture (js "/incidents/wmata/")
              (fun c => isLower c || isDigit c || isHyphen c)
              (pathname request) = Some stationId ->
            fetch request env
            = Returned {| status := 200; payload := Outages [] |}))
  /\ ((exists e, fetch request env = Threw e) ->
      method request = js "GET"
      /\ ((exists e, wmataStored env = Threw e)
          \/ (exists e, tokyoStored env = Threw e))).
Proof.
  intros _. unfold fetch. cbv zeta.
  set (stationMatch := capture (js "/incidents/wmata/") _ (pathname request)).
  set (refreshMatch := capture (js "/refresh/") _ (pathname request)).
  assert (Hwm : refreshMatch = Some (js "wmata")
                <-> pathname request = js "/refresh/wmata").
  { subst refreshMatch. rewrite capture_spec. split; [now intros [-> _]|].
    intros ->. repeat split. discriminate. }
  assert (Htk : refreshMatch = Some (js "tokyo-metro")
                <-> pathname request = js "/refresh/tokyo-metro").
  { subst refreshMatch. rewrite capture_spec. split; [now intros [-> _]|].
    intros ->. repeat split. discriminate. }
  assert (Hnr : forall id, refreshMatch = Some id ->
                pathname request <> js "/refresh").
  { subst refreshMatch. intros id Hc Hp. rewrite Hp in Hc.
    apply capture_spec in Hc as [Hc _]. cbv in Hc. discriminate. }
  assert (Hns : forall id, stationMatch = Some id ->
                pathname request <> js "/incidents/wmata"
                /\ pathname request <> js "/refresh"
                /\ pathname request <> js "/refresh/wmata"
                /\ pathname request <> js "/refresh/tokyo-metro").
  { subst stationMatch. intros id Hc. apply capture_spec in Hc as [Hc _].
    rewrite Hc. repeat split; cbv; discriminate. }
  assert (Hgp : js "GET" <> js "POST") by discriminate.
  assert (Hgo : js "GET" <> js "OPTIONS") by discriminate.
  split; [|split; [|split]].
  - intros ->. reflexivity.
  - intros response.
    case_bool_decide as Eo; [intros [= <-]; cbn; split; [auto|]; split;
      (split; [discriminate|]); rewrite Eo; intros [[=] _]|].
    destruct (decide (method request = js "GET")) as [Eg|Eg].
    + (* GET *)
      rewrite Eg, (bool_decide_eq_true_2 _ eq_refl),
        (bool_decide_eq_false_2 _ Hgp), !andb_false_r, !andb_true_r.
      assert (Hstored : forall stored,
        serveStored stored = Returned response ->
        (status response = 200 \/ status response = 207
         \/ status response = 404 \/ status response = 500)
        /\ (status response = 207 <-> js "GET" = js "POST" /\
             pathname request = js "/refresh"
             /\ fulfilled (wmataRefresh env) && fulfilled (tokyoRefresh env)
                = false)
        /\ (status response = 500 <-> js "GET" = js "POST" /\
             (pathname request = js "/refresh/wmata"
              /\ fulfilled (wmataRefresh env) = false
              \/ pathname request = js "/refresh/tokyo-metro"
                 /\ fulfilled (tokyoRefresh env) = false))).
      { intros stored Hs. pose proof (serveStored_spec stored) as Hspec.
        rewrite Hs in Hspec. destruct Hspec as [[H2|H4] _]; rewrite ?H2, ?H4;
          (split; [auto|]); split; (split; [discriminate|]);
          intros [Hm _]; congruence. }
      assert (Hnf : forall r : Response,
        status r = 404 \/ status r = 200 ->
        Returned r = Returned response ->
        (status response = 200 \/ status response = 207
         \/ status response = 404 \/ status response = 500)
        /\ (status response = 207 <-> js "GET" = js "POST" /\
             pathname request = js "/refresh"
             /\ fulfilled (wmataRefresh env) && fulfilled (tokyoRefresh env)
                = false)
        /\ (status response = 500 <-> js "GET" = js "POST" /\
             (pathname request = js "/refresh/wmata"
              /\ fulfilled (wmataRefresh env) = false
              \/ pathname request = js "/refresh/tokyo-metro"
                 /\ fulfilled (tokyoRefresh env) = false))).
      { intros r Hr [= <-]. destruct Hr as [Hr|Hr]; rewrite Hr;
          (split; [auto|]); split; (split; [discriminate|]);
          intros [Hm _]; congruence. }
      case_bool_decide as Ew; [apply Hstored|].
      destruct stationMatch as [stationId|].
      * destruct (wmataStored env) as [[d|]|e]; [| |discriminate];
          apply Hnf; cbn; auto.
      * case_bool_decide as Et; [apply Hstored|].
        destruct refreshMatch; apply Hnf; cbn; auto.
    + (* not GET *)
      rewrite (bool_decide_eq_false_2 _ Eg), !andb_false_r.
      assert (Hrest :
        (if bool_decide (pathname request = js "/refresh")
            && bool_decide (method request = js "POST")
         then
           Returned
             {| status :=
                  if fulfilled (wmataRefresh env)
                     && fulfilled (tokyoRefresh env)
                  then 200 else 207;
                payload :=
                  RefreshedAll
                    (fulfilled (wmataRefresh env)
                     && fulfilled (tokyoRefresh env))
                    (summaryOf (wmataRefresh env))
                    (summaryOf (tokyoRefresh env)) |}
         else
           match refreshMatch, bool_decide (method request = js "POST") with
           | Some systemId, true =>
               if bool_decide (systemId = js "wmata")
               then Returned (refreshOne (wmataRefresh env))
               else
                 if bool_decide (systemId = js "tokyo-metro")
                 then Returned (refreshOne (tokyoRefresh env))
                 else
                   Returned
                     {| status := 404;
                        payload :=
                          Failure (js "Unknown system: " ++ systemId) |}
           | _, _ =>
               Returned {| status := 404;
                           payload := Failure (js "Not found") |}
           end) = Returned response ->
        (status response = 200 \/ status response = 207
         \/ status response = 404 \/ status response = 500)
        /\ (status response = 207 <-> method request = js "POST" /\
             pathname request = js "/refresh"
             /\ fulfilled (wmataRefresh env) && fulfilled (tokyoRefresh env)
                = false)
        /\ (status response = 500 <-> method request = js "POST" /\
             (pathname request = js "/refresh/wmata"
              /\ fulfilled (wmataRefresh env) = false
              \/ pathname request = js "/refresh/tokyo-metro"
                 /\ fulfilled (tokyoRefresh env) = false))).
      { case_bool_decide as Ep; case_bool_decide as Er; cbn [andb].
        - (* POST /refresh *)
          intros [= <-]. cbn [status].
          destruct (fulfilled (wmataRefresh env)
                    && fulfilled (tokyoRefresh env)) eqn:Eall.
          + split; [auto|]. split; (split; [discriminate|]).
            * intros (_ & _ & [=]).
            * rewrite Ep. intros (_ & [[[=] _]|[[=] _]]).
          + split; [auto|]. split; [tauto|]. split; [discriminate|].
            rewrite Ep. intros (_ & [[[=] _]|[[=] _]]).
        - (* /refresh, not POST *)
          destruct refreshMatch; intros [= <-]; cbn [status];
            (split; [auto|]); split; (split; [discriminate|]); tauto.
        - (* POST, another path *)
          destruct refreshMatch as [systemId|] eqn:Em.
          + case_bool_decide as Ewm.
            * subst systemId. clear Em. pose proof (proj1 Hwm eq_refl) as Em.
              intros [= <-]. rewrite refreshOne_status.
              destruct (fulfilled (wmataRefresh env)) eqn:Ef.
              -- split; [auto|]. split; (split; [discriminate|]).
                 ++ tauto.
                 ++ rewrite Em. intros (_ & [[_ [=]]|[[=] _]]).
              -- split; [auto|]. split; [split; [discriminate | tauto]|].
                 split; auto.
            * case_bool_decide as Etk.
              -- subst systemId. clear Em.
                 pose proof (proj1 Htk eq_refl) as Em.
                 intros [= <-]. rewrite refreshOne_status.
                 destruct (fulfilled (tokyoRefresh env)) eqn:Ef.
                 ++ split; [auto|]. split; (split; [discriminate|]).
                    ** tauto.
                    ** rewrite Em. intros (_ & [[[=] _]|[_ [=]]]).
                 ++ split; [auto|]. split; [split; [discriminate | tauto]|].
                    split; auto.
              -- intros [= <-]. cbn [status]. split; [auto|].
                 split; (split; [discriminate|]); [tauto|].
                 intros (_ & [[Hp _]|[Hp _]]);
                   [apply Hwm in Hp | apply Htk in Hp]; congruence.
          + intros [= <-]. cbn [status]. split; [auto|].
            split; (split; [discriminate|]); [tauto|].
            intros (_ & [[Hp _]|[Hp _]]);
              [apply Hwm in Hp | apply Htk in Hp]; congruence.
        - (* neither *)
          destruct refreshMatch; intros [= <-]; cbn [status];
            (split; [auto|]); split; (split; [discriminate|]); tauto. }
      destruct stationMatch; exact Hrest.
  - intros Eg Hs.
    rewrite Eg, (bool_decide_eq_false_2 _ Hgo),
      (bool_decide_eq_true_2 _ eq_refl), !andb_true_r. split.
    + intros Ew. rewrite (bool_decide_eq_true_2 _ Ew), Hs. cbn. eauto.
    + intros stationId Hm. destruct (Hns _ Hm) as (Hw & _).
      now rewrite (bool_decide_eq_false_2 _ Hw), Hm, Hs.
  - intros [e He]. case_bool_decide as Eo; [discriminate|].
    destruct (decide (method request = js "GET")) as [Eg|Eg].
    + split; [assumption|].
      rewrite Eg, (bool_decide_eq_true_2 _ eq_refl),
        (bool_decide_eq_false_2 _ Hgp), !andb_false_r, !andb_true_r in He.
      assert (Hstored : forall stored,
                serveStored stored = Threw e -> stored = Threw e).
      { intros stored Hs. pose proof (serveStored_spec stored) as Hspec.
        now rewrite Hs in Hspec. }
      case_bool_decide as Ew; [left; exists e; auto|].
      destruct stationMatch as [stationId|].
      * destruct (wmataStored env) as [[d|]|e']; try discriminate. eauto.
      * case_bool_decide as Et; [right; exists e; auto|].
        destruct refreshMatch; discriminate.
    + exfalso.
      rewrite (bool_decide_eq_false_2 _ Eg), !andb_false_r in He.
      destruct stationMatch, refreshMatch;
        repeat (case_bool_decide; cbn [andb] in He); discriminate.
Qed.

Lemma no_station_named_constructor :
  forall stationId,
    capture (js "/incidents/wmata/")
      (fun c => isLower c || isDigit c || isHyphen c)
      (js "/incidents/wmata/metro-center") = Some stationId ->
    plainKey stationId = true.
Proof. intros stationId [= <-]. reflexivity. Qed.

Lemma worker_fetch_status_contract_witness :
  fetch {| method := js "GET"; pathname := js "/incidents/wmata/metro-center" |}
    nothingStored
  = Returned {| status := 200; payload := Outages [] |}.
Proof.
  apply (proj2 (proj1 (proj2 (proj2
    (worker_fetch_status_contract
       {| method := js "GET";
          pathname := js "/incidents/wmata/metro-center" |}
       nothingStored no_station_named_constructor)))
    eq_refl eq_refl) (js "metro-center")).
  reflexivity.
Defined.

End WorkerFacts.

Module EntranceFacts.
Import HostFacts OwnKeys BatchMatch Csv Entrances Views MoreSamples.
Local Open Scope nat_scope.

Lemma js_inj (a b : string) : js a = js b -> a = b.
Proof.
  unfold js. intros Hmap.
  assert (Hl : list_ascii_of_string a = list_ascii_of_string b).
  { revert Hmap. generalize (list_ascii_of_string a) (list_ascii_of_string b).
    induction l as [|x r IH]; intros [|y t]; cbn [List.map]; try discriminate;
      [reflexivity|].
    intros [= Hxy Hrt]. f_equal; [|auto].
    rewrite <- (ascii_N_embedding x), <- (ascii_N_embedding y). now rewrite Hxy. }
  rewrite <- (string_of_list_ascii_of_string a),
    <- (string_of_list_ascii_of_string b). now rewrite Hl.
Qed.

Lemma decimal_inj n m : decimal n = decimal m -> n = m.
Proof.
  unfold decimal. intros Hd. apply js_inj in Hd.
  apply DecimalNat.Unsigned.to_uint_inj.
  pose proof (DecimalString.NilEmpty.usu (Nat.to_uint n)) as Hn.
  pose proof (DecimalString.NilEmpty.usu (Nat.to_uint m)) as Hm.
  rewrite Hd in Hn. congruence.
Qed.

Lemma sameTypeUpTo_app rows more i row :
  i < length rows ->
  sameTypeUpTo (rows ++ more) i row = sameTypeUpTo rows i row.
Proof. intros Hi. unfold sameTypeUpTo. now rewrite take_app_le by lia. Qed.

Lemma sameTypeUpTo_last rows row :
  sameTypeUpTo (rows ++ [row]) (length rows) row
  = S (length (List.filter
                 (fun r => bool_decide (entranceType r = entranceType row))
                 rows)).
Proof.
  unfold sameTypeUpTo. rewrite take_ge by (rewrite length_app; cbn; lia).
  rewrite List.filter_app, length_app. cbn [List.filter].
  rewrite bool_decide_eq_true_2 by reflexivity. cbn. lia.
Qed.

Section WithHost.
Context `{NumberBuiltins} `{NumberFormat}.

Lemma entranceStep_entrance stationId st row :
  entrances (entranceStep stationId st row)
  = entrances st
    ++ [entranceAt stationId (length (entrances st))
          (S (default 0 (objGet (entranceType row) (typeCounts st)))) row].
Proof.
  unfold entranceStep, entranceAt. cbn [entrances]. f_equal. f_equal.
  rewrite !Nat.add_1_r. f_equal.
  destruct (entryAllowed row), (exitAllowed row);
    rewrite <- ?app_assoc, ?app_nil_r; reflexivity.
Qed.

Lemma entrance_fold stationId todo done st :
  entrances st
  = imap (fun i row => entranceAt stationId i (sameTypeUpTo done i row) row)
      done ->
  (forall t, default 0 (objGet t (typeCounts st))
             = length (List.filter
                         (fun r => bool_decide (entranceType r = t)) done)) ->
  entrances (fold_left (entranceStep stationId) todo st)
  = imap (fun i row =>
            entranceAt stationId i (sameTypeUpTo (done ++ todo) i row) row)
      (done ++ todo).
Proof.
  revert done st. induction todo as [|r rest IH]; intros done st He Hc;
    cbn [fold_left].
  - now rewrite app_nil_r.
  - rewrite (cons_middle r done rest), app_assoc. apply IH.
    + rewrite entranceStep_entrance, imap_app. cbn [imap].
      rewrite He, length_imap, Nat.add_0_r, Hc, sameTypeUpTo_last.
      f_equal. apply imap_ext. intros i x Hi. cbn.
      rewrite sameTypeUpTo_app; [reflexivity|].
      now apply lookup_lt_Some in Hi.
    + intros t. unfold entranceStep. cbn [typeCounts].
      rewrite List.filter_app, length_app. cbn [List.filter].
      case_bool_decide as Et.
      * subst t. rewrite objGet_objSet_eq. cbn. rewrite Hc. lia.
      * rewrite objGet_objSet_ne by assumption. rewrite Hc. cbn. lia.
Qed.

(** X28: a station's entrances are numbered in row order.  The entrance
    built for the row at position [i] has the id [<station id>-<i+1>], and
    its name starts with the row's entrance type and the running number of
    that type among the station's rows so far; so the ids of a station's
    entrances are pairwise distinct.  A station without rows gets no
    entrance list. *)
Theorem buildEntrances_numbers_entrances
    (stationId : jsstring) (rows : list CsvRow) :
  forallb plainKey (List.map entranceType rows) = true ->
  (buildEntrances stationId rows = None <-> rows = [])
  /\ forall built, buildEntrances stationId rows = Some built ->
       built = imap (fun i row =>
                       entranceAt stationId i (sameTypeUpTo rows i row) row)
                 rows
       /\ NoDup (List.map entranceId built).
Proof.
  intros _. split.
  - destruct rows; cbn; split; auto; discriminate.
  - intros built Hb.
    assert (Hclosed : built
              = imap (fun i row =>
                        entranceAt stationId i (sameTypeUpTo rows i row) row)
                  rows).
    { destruct rows as [|r0 rest]; [discriminate|].
      injection Hb as <-.
      apply (entrance_fold stationId (r0 :: rest) []); [reflexivity|].
      intros t. reflexivity. }
    split; [assumption|]. rewrite Hclosed.
    change (List.map entranceId ?l) with (entranceId <$> l).
    rewrite fmap_imap.
    rewrite (imap_ext _ (fun j _ => stationId ++ [45%N] ++ decimal (S j)))
      by reflexivity.
    rewrite imap_seq_0. apply NoDup_fmap_2_strong; [|apply NoDup_seq].
    intros i j _ _ Hij. apply app_inv_head in Hij.
    injection Hij as Hij. apply decimal_inj in Hij. lia.
Qed.

End WithHost.

Lemma buildEntrances_numbers_entrances_witness :
  List.map entranceName
    (imap (fun i row =>
             @entranceAt shortDecimals zeroToFixed (js "canal-st") i
               (sameTypeUpTo canalStRows i row) row) canalStRows)
  = [js "Stair 1"; js "Elevator 1"; js "Stair 2 (exit only)"]
  /\ NoDup (List.map entranceId
              (imap (fun i row =>
                       @entranceAt shortDecimals zeroToFixed (js "canal-st") i
                         (sameTypeUpTo canalStRows i row) row) canalStRows)).
Proof.
  split; [reflexivity|].
  apply (proj2 (proj2
    (@buildEntrances_numbers_entrances shortDecimals zeroToFixed
       (js "canal-st") canalStRows eq_refl) _ eq_refl)).
Defined.

End EntranceFacts.

Module RowMatchingFacts.
Import HostFacts ObjectFacts Wmata WmataFacts WmataGroupFacts MatchFacts.
Import Normalize BatchMatch RowMatching OwnKeys Views Samples MoreSamples.
Local Open Scope nat_scope.

Section WithHost.
Context `{StringBuiltins} `{MathBuiltins}.

Lemma matchStep_spec stationIndex st row :
  match filedAt stationIndex row with
  | Some k =>
      matchStep stationIndex st row
      = {| entrancesByStationId :=
             objPush k row (objEnsure k (entrancesByStationId st));
           unmatched := unmatched st |}
  | None =>
      matchStep stationIndex st row
      = {| entrancesByStationId := entrancesByStationId st;
           unmatched := unmatched st ++ [row] |}
  end.
Proof.
  unfold filedAt, matchStep.
  destruct (stationIndex !! _) as [[|c cs]|]; [reflexivity| |reflexivity].
  now destruct (chooseStation row (c :: cs)).
Qed.

Lemma matchStep_lookup stationIndex st row k :
  objGet k (entrancesByStationId (matchStep stationIndex st row))
  = extended (objGet k (entrancesByStationId st))
      (if bool_decide (filedAt stationIndex row = Some k) then [row] else []).
Proof.
  pose proof (matchStep_spec stationIndex st row) as Hs.
  destruct (filedAt stationIndex row) as [k'|]; rewrite Hs;
    cbn [entrancesByStationId].
  - case_bool_decide as E.
    + injection E as ->.
      erewrite objGet_objPush_eq by apply objGet_objEnsure_eq.
      unfold extended. now destruct (objGet k (entrancesByStationId st)).
    + assert (k' <> k) by congruence.
      rewrite objGet_objPush_ne, objGet_objEnsure_ne by assumption.
      unfold extended.
      destruct (objGet k (entrancesByStationId st)); simpl;
        now rewrite ?app_nil_r.
  - rewrite bool_decide_eq_false_2 by discriminate. unfold extended.
    destruct (objGet k (entrancesByStationId st)); simpl;
      now rewrite ?app_nil_r.
Qed.

Lemma match_fold stationIndex rows st :
  let result := fold_left (matchStep stationIndex) rows st in
  (forall k,
     objGet k (entrancesByStationId result)
     = extended (objGet k (entrancesByStationId st))
         (List.filter
            (fun row => bool_decide (filedAt stationIndex row = Some k))
            rows))
  /\ unmatched result
     = unmatched st
       ++ List.filter
            (fun row => bool_decide (filedAt stationIndex row = None)) rows
  /\ length (unmatched result) + unitsOf (entrancesByStationId result)
     = length (unmatched st) + unitsOf (entrancesByStationId st)
       + length rows
  /\ (NoDup (objKeys (entrancesByStationId st)) ->
      NoDup (objKeys (entrancesByStationId result))).
Proof.
  cbv zeta. revert st.
  induction rows as [|row rest IH]; intros st; cbn [fold_left List.filter].
  - split; [|split; [|split]].
    + intros k. unfold extended.
      destruct (objGet k (entrancesByStationId st)); now rewrite ?app_nil_r.
    + now rewrite app_nil_r.
    + cbn. lia.
    + auto.
  - destruct (IH (matchStep stationIndex st row)) as (Hget & Hun & Hlen & Hnd).
    pose proof (matchStep_spec stationIndex st row) as Hs.
    split; [|split; [|split]].
    + intros k. rewrite Hget, matchStep_lookup, extended_extended.
      now case_bool_decide.
    + rewrite Hun. destruct (filedAt stationIndex row) as [k|]; rewrite Hs;
        cbn [unmatched].
      * now rewrite bool_decide_eq_false_2 by discriminate.
      * rewrite bool_decide_eq_true_2 by reflexivity.
        now rewrite <- app_assoc.
    + rewrite Hlen. destruct (filedAt stationIndex row) as [k|]; rewrite Hs;
        cbn [unmatched entrancesByStationId length].
      * rewrite unitsOf_objPush, unitsOf_objEnsure
          by (rewrite objGet_objEnsure_eq; eauto). lia.
      * rewrite length_app. cbn. lia.
    + intros Hst. apply Hnd.
      destruct (filedAt stationIndex row) as [k|]; rewrite Hs;
        cbn [entrancesByStationId]; [|assumption].
      rewrite objKeys_objPush. now apply NoDup_objKeys_objEnsure.
Qed.

(** X29: steps 4 and 5 of the batch matcher file every row that is not of
    the Staten Island Railway exactly once: as unmatched when the index has
    no candidate for its (aliased) normalized station name, and otherwise
    under the station that the candidate choice picks.  A station's rows
    and the unmatched rows keep the order of the CSV, no station appears
    twice, and the numbers add up. *)
Theorem matchRows_files_every_row_once
    (stationIndex : gmap (list N) (list Station)) (csvRows : list CsvRow) :
  plainRows csvRows = true ->
  (forall k,
     objGet k (entrancesByStationId (matchRows stationIndex csvRows))
     = match List.filter
               (fun row => bool_decide (filedAt stationIndex row = Some k))
               (List.filter notSir csvRows) with
       | [] => None
       | filed => Some filed
       end)
  /\ unmatched (matchRows stationIndex csvRows)
     = List.filter (fun row => bool_decide (filedAt stationIndex row = None))
         (List.filter notSir csvRows)
  /\ (forall row,
        row ∈ unmatched (matchRows stationIndex csvRows)
        <-> row ∈ csvRows /\ notSir row = true
            /\ default [] (stationIndex
                           !! applyAlias
                                (normalizeName (constituentStationName row)))
               = [])
  /\ length (unmatched (matchRows stationIndex csvRows))
     + unitsOf (entrancesByStationId (matchRows stationIndex csvRows))
     = length (List.filter notSir csvRows)
  /\ NoDup (objKeys (entrancesByStationId (matchRows stationIndex csvRows))).
Proof.
  intros _. unfold matchRows. cbv zeta. fold notSir.
  destruct (match_fold stationIndex (List.filter notSir csvRows)
              {| entrancesByStationId := []; unmatched := [] |})
    as (Hget & Hun & Hlen & Hnd).
  cbv zeta in *. cbn [entrancesByStationId unmatched objGet app] in *.
  split; [|split; [|split; [|split]]].
  - intros k. rewrite Hget. unfold extended.
    set (filed := List.filter _ (List.filter notSir csvRows)).
    now destruct filed.
  - exact Hun.
  - intros row. rewrite Hun, !list_elem_of_In, !filter_In.
    rewrite bool_decide_eq_true.
    assert (Hnone : filedAt stationIndex row = None
                    <-> default [] (stationIndex
                                    !! applyAlias
                                         (normalizeName
                                            (constituentStationName row)))
                        = []).
    { unfold filedAt.
      destruct (stationIndex !! _) as [[|c cs]|]; cbn [default];
        [tauto| |tauto].
      destruct (chooseStation_total row (c :: cs)) as [s Hs]; [discriminate|].
      rewrite Hs. split; discriminate. }
    tauto.
  - rewrite Hlen. cbn. lia.
  - apply Hnd. constructor.
Qed.

End WithHost.

Lemma matchRows_files_every_row_once_witness :
  objGet (js "canal-st-nqrw")
    (entrancesByStationId
       (@matchRows latinDeseret identityMath smallStationIndex mixedRows))
  = Some [rowIn "BMT" "Canal St"; rowIn "BMT" "Canal St (N,Q)"]
  /\ objGet (js "astor-pl")
       (entrancesByStationId
          (@matchRows latinDeseret identityMath smallStationIndex mixedRows))
     = Some [rowIn "IRT" "Astor Pl"]
  /\ unmatched
       (@matchRows latinDeseret identityMath smallStationIndex mixedRows)
     = [rowIn "IND" "Nowhere Av"].
Proof.
  destruct (@matchRows_files_every_row_once latinDeseret identityMath
              smallStationIndex mixedRows)
    as (Hget & Hun & _); [vm_compute; reflexivity|].
  split; [|split].
  - rewrite Hget. vm_compute. reflexivity.
  - rewrite Hget. vm_compute. reflexivity.
  - rewrite Hun. vm_compute. reflexivity.
Defined.

End RowMatchingFacts.
